(** * The real-time interview session orchestrator, verified against its code

    A shallow embedding of the TypeScript sources of the interview
    front-end, one module per source file:

    - [AudioPlayer]      utils/audioUtils.ts (class AudioPlayer)
    - [VoiceInterview]   hooks/useVoiceInterview.ts
    - [InterviewPage]    app/interview/[sessionId]/page.tsx
    - [InterviewLayout]  app/interview/[sessionId]/interview_layout.tsx
    - [BrowserSpeech]    hooks/useSpeechRecognition.ts, Web Speech API version
    - [AzureSpeech]      hooks/useSpeechRecognition.ts, Azure Speech SDK version

    then, for what whole runs of these do and for the rest of the
    front-end:

    - [Playout], [MicrophoneRecorder]     utils/audioUtils.ts
    - [VoiceMessages], [VoiceConnection]  hooks/useVoiceInterview.ts
    - [Turns], [Chronology]               app/interview/[sessionId]/page.tsx
    - [LayoutRun], [TextInterview]        app/interview/[sessionId]/interview_layout.tsx
    - [BrowserSpeechRuns]                 hooks/useSpeechRecognition.ts, Web Speech API version
    - [AzureSpeechRuns], [AzureTranscripts]
                                          hooks/useSpeechRecognition.ts, Azure Speech SDK version
    - [VideoRecorder]                     hooks/useVideoRecorder.ts
    - [BrowserCheck]                      utils/browserCheck.ts
    - [Auth]                              lib/store.ts, lib/api.ts

    with [InterviewPageMount] and [Session] for what the page installs at
    mount and logs over a session, [FillerWords] for the filler words in
    the words of the specification, and [JS], [Base64] and [Timers] for the
    parts of the platform they call. The second half of the file proves
    facts about them, one module of facts per module of code.

    JavaScript runs every handler to completion on a single event loop, so
    every handler (and every stretch of an async function between two
    [await]s) is a function on an explicit state record; the platform
    (timers, the audio device, the recogniser, the socket) is part of that
    record, and what the platform does on its own (a timer elapses, a source
    node finishes, a recogniser session ends) is an event of a trace. A
    callback closes over the values of the render that made it: where that
    matters the closed-over value is a parameter of the handler. *)

From Stdlib Require Import ZArith QArith List String Ascii Bool Lia
  DecimalString.
Import ListNotations.

Open Scope string_scope.
Open Scope list_scope.
Open Scope Z_scope.

(** ** JavaScript strings

    A string is its sequence of code units; the models below are exact on
    ASCII text, which is what the recognisers and the server produce for
    [en-US]. *)
Module JS.

Definition code (c : ascii) : Z := Z.of_N (N_of_ascii c).

Definition space : ascii := " "%char.

(** White space as [String.prototype.trim] sees it (ASCII part): TAB, LF,
    VT, FF, CR and SPACE. *)
Definition is_white (c : ascii) : bool :=
  ((9 <=? code c) && (code c <=? 13)) || (code c =? 32).

Definition is_empty (s : string) : bool :=
  match s with EmptyString => true | String _ _ => false end.

Fixpoint trimStart (s : string) : string :=
  match s with
  | EmptyString => EmptyString
  | String c s' => if is_white c then trimStart s' else s
  end.

Fixpoint trimEnd (s : string) : string :=
  match s with
  | EmptyString => EmptyString
  | String c s' =>
      let r := trimEnd s' in
      if is_white c && is_empty r then EmptyString else String c r
  end.

(** [s.trim()] *)
Definition trim (s : string) : string := trimEnd (trimStart s).

(** A string is truthy when it is not empty. *)
Definition truthy (s : string) : bool := negb (is_empty s).

Fixpoint all_white (s : string) : bool :=
  match s with
  | EmptyString => true
  | String c s' => is_white c && all_white s'
  end.

Definition lower_char (c : ascii) : ascii :=
  if (65 <=? code c) && (code c <=? 90)
  then ascii_of_N (N_of_ascii c + 32)
  else c.

(** [s.toLowerCase()] *)
Fixpoint toLowerCase (s : string) : string :=
  match s with
  | EmptyString => EmptyString
  | String c s' => String (lower_char c) (toLowerCase s')
  end.

(** [s.split(sep)] for a one-character separator: never an empty list, the
    empty string splits into one empty token, and two adjacent separators
    give an empty token between them. *)
Fixpoint split (sep : ascii) (s : string) : list string :=
  match s with
  | EmptyString => [EmptyString]
  | String c s' =>
      if Ascii.eqb c sep then EmptyString :: split sep s'
      else match split sep s' with
           | w :: ws => String c w :: ws
           | [] => [String c EmptyString]
           end
  end.

(** [s.replace(/[...]/g, '')]: every character of the class is removed. *)
Fixpoint remove_chars (cls : ascii -> bool) (s : string) : string :=
  match s with
  | EmptyString => EmptyString
  | String c s' =>
      if cls c then remove_chars cls s' else String c (remove_chars cls s')
  end.

(** [arr.includes(x)] on an array of strings. *)
Definition includes (arr : list string) (x : string) : bool :=
  existsb (String.eqb x) arr.

Fixpoint contains_char (c : ascii) (s : string) : bool :=
  match s with
  | EmptyString => false
  | String d s' => Ascii.eqb d c || contains_char c s'
  end.

End JS.

(** ** [atob]: the platform's forgiving base64 decoder

    [window.atob] is the browser's; it is written out here after the HTML
    standard so that [playChunk] computes on concrete chunks. [None] is the
    [InvalidCharacterError] it throws. *)
Module Base64.

Definition value (c : ascii) : option Z :=
  let n := JS.code c in
  if (65 <=? n) && (n <=? 90) then Some (n - 65)
  else if (97 <=? n) && (n <=? 122) then Some (n - 71)
  else if (48 <=? n) && (n <=? 57) then Some (n + 4)
  else if n =? 43 then Some 62
  else if n =? 47 then Some 63
  else None.

(** ASCII white space of the base64 grammar: TAB, LF, FF, CR, SPACE. *)
Definition skipped (c : ascii) : bool :=
  let n := JS.code c in
  (n =? 9) || (n =? 10) || (n =? 12) || (n =? 13) || (n =? 32).

Definition is_pad (c : ascii) : bool := JS.code c =? 61.

(** When the length is a multiple of four, one or two trailing [=] go. *)
Definition strip_padding (cs : list ascii) : list ascii :=
  if Z.of_nat (List.length cs) mod 4 =? 0 then
    match rev cs with
    | p :: q :: r =>
        if is_pad p then (if is_pad q then rev r else rev (q :: r)) else cs
    | _ => cs
    end
  else cs.

Fixpoint sextets (cs : list ascii) : option (list Z) :=
  match cs with
  | [] => Some []
  | c :: cs' =>
      match value c, sextets cs' with
      | Some v, Some vs => Some (v :: vs)
      | _, _ => None
      end
  end.

Fixpoint bytes_of_sextets (l : list Z) : list Z :=
  match l with
  | a :: b :: c :: d :: rest =>
      (a * 4 + b / 16) :: ((b mod 16) * 16 + c / 4) :: ((c mod 4) * 64 + d)
        :: bytes_of_sextets rest
  | [a; b; c] => [a * 4 + b / 16; (b mod 16) * 16 + c / 4]
  | [a; b] => [a * 4 + b / 16]
  | _ => []
  end.

(** [atob(s)], as the list of the code units of the binary string. *)
Definition atob (s : string) : option (list Z) :=
  let cs := strip_padding (filter (fun c => negb (skipped c)) (list_ascii_of_string s)) in
  if Z.of_nat (List.length cs) mod 4 =? 1 then None
  else option_map bytes_of_sextets (sextets cs).

End Base64.

(** ** Exceptions

    A function that can throw returns a [result]; a [try]/[catch] is a
    [match] on it. *)
Inductive error : Type :=
| InvalidCharacterError   (* atob on text that is not base64 *)
| RangeError              (* new Int16Array over an odd number of bytes *)
| NotSupportedError       (* createBuffer with no frame *)
| InvalidStateError       (* start() on a recogniser that is started; resume() refused *)
| NoAudioContext          (* new Error('No audio context') *)
| TypeError.              (* a method call on null *)

Inductive result (A : Type) : Type :=
| Ok (a : A)
| Throw (e : error).
Arguments Ok {A} a.
Arguments Throw {A} e.

Definition bind {A B : Type} (r : result A) (k : A -> result B) : result B :=
  match r with
  | Ok a => k a
  | Throw e => Throw e
  end.

Notation "x <- r ;; k" := (bind r (fun x => k))
  (at level 61, r at next level, right associativity).

(** ** utils/audioUtils.ts: class AudioPlayer *)
Module AudioPlayer.

(** What [createBuffer] returns, with the samples of channel 0. A sample is
    a rational: the quotients the decoder stores have a 16-bit numerator
    over 2^15, which a Float32Array holds exactly. *)
Record AudioBuffer : Type := {
  numberOfChannels : Z;
  frames : Z;            (* AudioBuffer.length *)
  sampleRate : Z;
  channelData : list Q   (* getChannelData(0) *)
}.

Inductive AudioContext : Type := Context.

Inductive log_entry : Type :=
| log_no_audio_context          (* console.error('No audio context') *)
| log_audio_error (e : error).  (* console.error('Audio error:', err) *)

(** What the loudspeaker does: a source node starts, a source node ends. *)
Inductive playback : Type :=
| Started (id : nat) (b : AudioBuffer)
| Finished (id : nat).

(** The player object, and around it the platform it drives. *)
Record player : Type := {
  audioContext : option AudioContext;
  audioQueue : list AudioBuffer;
  isPlaying : bool;
  (* calls of playChunk suspended at [await this.initialize()], oldest
     first: the platform settles the promises of [resume()] in the order
     they were made, so the calls resume in call order *)
  awaiting : list string;
  (* source nodes started whose [onended] has not fired yet *)
  sources : list (nat * AudioBuffer);
  next_source : nat;
  (* the audio device is held from the constructor until AudioContext.close() *)
  device_open : bool;
  timeline : list playback;
  console : list log_entry;
  (* exceptions that escaped an event handler *)
  uncaught : list error
}.

(** [new AudioPlayer()]: in a browser [window] is defined and the context is
    created; on the server [audioContext] stays null. *)
Definition new_player (in_browser : bool) : player :=
  {| audioContext := if in_browser then Some Context else None;
     audioQueue := []; isPlaying := false; awaiting := [];
     sources := []; next_source := 0%nat; device_open := in_browser;
     timeline := []; console := []; uncaught := [] |}.

Definition console_error (l : log_entry) (p : player) : player :=
  {| audioContext := audioContext p; audioQueue := audioQueue p;
     isPlaying := isPlaying p; awaiting := awaiting p; sources := sources p;
     next_source := next_source p; device_open := device_open p;
     timeline := timeline p; console := console p ++ [l];
     uncaught := uncaught p |}.

Definition escaped (e : error) (p : player) : player :=
  {| audioContext := audioContext p; audioQueue := audioQueue p;
     isPlaying := isPlaying p; awaiting := awaiting p; sources := sources p;
     next_source := next_source p; device_open := device_open p;
     timeline := timeline p; console := console p;
     uncaught := uncaught p ++ [e] |}.

(** [base64ToArrayBuffer]: the bytes of [atob(base64)]. *)
Definition base64ToArrayBuffer (base64 : string) : result (list Z) :=
  match Base64.atob base64 with
  | Some bytes => Ok bytes
  | None => Throw InvalidCharacterError
  end.

Definition to_int16 (u : Z) : Z := if u <? 32768 then u else u - 65536.

(** [new Int16Array(arrayBuffer)]: pairs of bytes, low byte first (the byte
    order of every platform the page runs on); an odd byte length throws. *)
Fixpoint Int16Array (bytes : list Z) : result (list Z) :=
  match bytes with
  | [] => Ok []
  | [_] => Throw RangeError
  | lo :: hi :: rest =>
      tl <- Int16Array rest ;; Ok (to_int16 (lo + 256 * hi) :: tl)
  end.

(** [audioContext.createBuffer]: a buffer needs at least one frame and one
    channel, and a sample rate the platform supports. *)
Definition createBuffer (channels length rate : Z) (data : list Q)
  : result AudioBuffer :=
  if (1 <=? channels) && (channels <=? 32) && (1 <=? length)
     && (8000 <=? rate) && (rate <=? 96000)
  then Ok {| numberOfChannels := channels; frames := length;
             sampleRate := rate; channelData := data |}
  else Throw NotSupportedError.

Definition normalize (sample : Z) : Q := inject_Z sample / 32768.

Definition pcm16ToAudioBuffer (ctx : option AudioContext)
  (arrayBuffer : list Z) (sampleRate numberOfChannels : Z)
  : result AudioBuffer :=
  match ctx with
  | None => Throw NoAudioContext
  | Some _ =>
      pcm16Data <- Int16Array arrayBuffer ;;
      let floatData := map normalize pcm16Data in
      createBuffer numberOfChannels (Z.of_nat (List.length floatData))
        sampleRate floatData
  end.

(** How a handler ends: it returns, or an exception leaves it; the state
    holds whatever it had assigned by then. *)
Inductive outcome : Type :=
| Returned (p : player)
| Threw (e : error) (p : player).

(** [playNext]: on an empty queue go idle; otherwise take the head of the
    queue and start a source node on it. [this.audioContext!] is an
    unchecked dereference. *)
Definition playNext (p : player) : outcome :=
  match audioQueue p with
  | [] =>
      Returned
        {| audioContext := audioContext p; audioQueue := [];
           isPlaying := false; awaiting := awaiting p; sources := sources p;
           next_source := next_source p; device_open := device_open p;
           timeline := timeline p; console := console p;
           uncaught := uncaught p |}
  | buffer :: rest =>
      match audioContext p with
      | None =>
          Threw TypeError
            {| audioContext := None; audioQueue := rest;
               isPlaying := true; awaiting := awaiting p;
               sources := sources p; next_source := next_source p;
               device_open := device_open p; timeline := timeline p;
               console := console p; uncaught := uncaught p |}
      | Some ctx =>
          Returned
            {| audioContext := Some ctx; audioQueue := rest;
               isPlaying := true; awaiting := awaiting p;
               sources := sources p ++ [(next_source p, buffer)];
               next_source := S (next_source p);
               device_open := device_open p;
               timeline := timeline p ++ [Started (next_source p) buffer];
               console := console p; uncaught := uncaught p |}
      end
  end.

(** [playChunk] up to [await this.initialize()]: without a context the
    chunk is refused at once, otherwise the call is suspended. *)
Definition playChunk_call (audioBase64 : string) (p : player) : player :=
  match audioContext p with
  | None => console_error log_no_audio_context p
  | Some _ =>
      {| audioContext := audioContext p; audioQueue := audioQueue p;
         isPlaying := isPlaying p; awaiting := awaiting p ++ [audioBase64];
         sources := sources p; next_source := next_source p;
         device_open := device_open p; timeline := timeline p;
         console := console p; uncaught := uncaught p |}
  end.

Definition push (b : AudioBuffer) (p : player) : player :=
  {| audioContext := audioContext p; audioQueue := audioQueue p ++ [b];
     isPlaying := isPlaying p; awaiting := awaiting p; sources := sources p;
     next_source := next_source p; device_open := device_open p;
     timeline := timeline p; console := console p; uncaught := uncaught p |}.

(** The buffer a chunk decodes to (lines 32-33), given [this.audioContext]. *)
Definition decode (ctx : option AudioContext) (audioBase64 : string)
  : result AudioBuffer :=
  audioData <- base64ToArrayBuffer audioBase64 ;;
  pcm16ToAudioBuffer ctx audioData 24000 1.

(** The body of the [try] after the await, for the chunk [audioBase64];
    [initialized] is how [this.initialize()] ended. Nothing between the
    decoding and the push can be interleaved with another handler. *)
Definition playChunk_body (initialized : result unit) (audioBase64 : string)
  (p : player) : outcome :=
  match initialized with
  | Throw e => Threw e p
  | Ok _ =>
      match decode (audioContext p) audioBase64 with
      | Throw e => Threw e p
      | Ok audioBuffer =>
          let p1 := push audioBuffer p in
          if isPlaying p1 then Returned p1 else playNext p1
      end
  end.

Definition set_awaiting (calls : list string) (p : player) : player :=
  {| audioContext := audioContext p; audioQueue := audioQueue p;
     isPlaying := isPlaying p; awaiting := calls; sources := sources p;
     next_source := next_source p; device_open := device_open p;
     timeline := timeline p; console := console p; uncaught := uncaught p |}.

(** The oldest suspended call resumes; the [catch] logs whatever the body
    threw. *)
Definition playChunk_resume (initialized : result unit) (p : player) : player :=
  match awaiting p with
  | [] => p
  | audioBase64 :: others =>
      let p0 := set_awaiting others p in
      match playChunk_body initialized audioBase64 p0 with
      | Returned p1 => p1
      | Threw e p1 => console_error (log_audio_error e) p1
      end
  end.

Definition is_source (id : nat) (s : nat * AudioBuffer) : bool :=
  Nat.eqb (fst s) id.

(** A started source finishes: [source.onended] runs [playNext]. A source
    that is not playing cannot finish. *)
Definition source_ended (id : nat) (p : player) : player :=
  if existsb (is_source id) (sources p) then
    let p0 :=
      {| audioContext := audioContext p; audioQueue := audioQueue p;
         isPlaying := isPlaying p; awaiting := awaiting p;
         sources := filter (fun s => negb (is_source id s)) (sources p);
         next_source := next_source p; device_open := device_open p;
         timeline := timeline p ++ [Finished id]; console := console p;
         uncaught := uncaught p |} in
    match playNext p0 with
    | Returned p1 => p1
    | Threw e p1 => escaped e p1
    end
  else p.

Definition stopAll (p : player) : player :=
  {| audioContext := audioContext p; audioQueue := []; isPlaying := false;
     awaiting := awaiting p; sources := sources p;
     next_source := next_source p; device_open := device_open p;
     timeline := timeline p; console := console p; uncaught := uncaught p |}.

(** [close]: [stopAll], then the context is closed (the device is released)
    and forgotten. *)
Definition close (p : player) : player :=
  let p0 := stopAll p in
  match audioContext p0 with
  | None => p0
  | Some _ =>
      {| audioContext := None; audioQueue := audioQueue p0;
         isPlaying := isPlaying p0; awaiting := awaiting p0;
         sources := sources p0; next_source := next_source p0;
         device_open := false; timeline := timeline p0;
         console := console p0; uncaught := uncaught p0 |}
  end.

(** What is heard: the started sources, while the device is held. *)
Definition audible (p : player) : list (nat * AudioBuffer) :=
  if device_open p then sources p else [].

Inductive event : Type :=
| PlayChunk (audioBase64 : string)
| Resume (initialized : result unit)
| SourceEnded (id : nat)
| StopAll
| Close.

Definition step (p : player) (e : event) : player :=
  match e with
  | PlayChunk c => playChunk_call c p
  | Resume r => playChunk_resume r p
  | SourceEnded id => source_ended id p
  | StopAll => stopAll p
  | Close => close p
  end.

Definition run (tr : list event) (p : player) : player := fold_left step tr p.

(** Traces of playback alone: chunks arrive, suspended calls resume with
    the context initialised, sources finish. *)
Definition playback_event (e : event) : bool :=
  match e with
  | PlayChunk _ | Resume (Ok _) | SourceEnded _ => true
  | _ => false
  end.

(** The chunks passed to [playChunk], in call order. *)
Fixpoint calls (tr : list event) : list string :=
  match tr with
  | [] => []
  | PlayChunk c :: tr' => c :: calls tr'
  | _ :: tr' => calls tr'
  end.

(** The buffers a list of chunks decodes to, in order; a chunk that does
    not decode contributes nothing. *)
Fixpoint decoded (cs : list string) : list AudioBuffer :=
  match cs with
  | [] => []
  | c :: cs' =>
      match decode (Some Context) c with
      | Ok b => b :: decoded cs'
      | Throw _ => decoded cs'
      end
  end.

(** The buffers that were started, in the order they were started. *)
Fixpoint started (tl : list playback) : list AudioBuffer :=
  match tl with
  | [] => []
  | Started _ b :: tl' => b :: started tl'
  | Finished _ :: tl' => started tl'
  end.

(** The playback cursor read off the timeline: [Some None] when nothing
    plays, [Some (Some id)] while source [id] plays, [None] as soon as a
    source starts while another plays or a source ends that is not the one
    playing. *)
Definition advance (cur : option (option nat)) (e : playback)
  : option (option nat) :=
  match cur, e with
  | Some None, Started id _ => Some (Some id)
  | Some (Some playing), Finished id =>
      if Nat.eqb id playing then Some None else None
  | _, _ => None
  end.

Definition cursor (tl : list playback) : option (option nat) :=
  fold_left advance tl (Some None).

Definition no_overlap (tl : list playback) : Prop := cursor tl <> None.

(** *** What the facts are stated with: value ranges, the invariant of
    playback, the state [close] leaves, and two sample inputs *)

Definition is_byte (b : Z) : Prop := 0 <= b <= 255.

Definition is_int16 (s : Z) : Prop := -32768 <= s <= 32767.

(** The source that is playing, if any. *)
Definition now_playing (p : player) : option nat :=
  match sources p with
  | [] => None
  | (id, _) :: _ => Some id
  end.

(** What holds of a player that was only ever asked to play: it has its
    context and device, no handler failed, the timeline agrees with the one
    source at most that is playing, [isPlaying] says whether one is, and an
    idle player has an empty queue. *)
Record sound (p : player) : Prop := {
  sound_context : audioContext p = Some Context;
  sound_device : device_open p = true;
  sound_uncaught : uncaught p = [];
  sound_single : (List.length (sources p) <= 1)%nat;
  sound_cursor : cursor (timeline p) = Some (now_playing p);
  sound_flag : isPlaying p = match sources p with [] => false | _ => true end;
  sound_idle : isPlaying p = false -> audioQueue p = []
}.

(** Every decoded chunk is accounted for, in call order: started, queued,
    or still waiting for its call to resume. *)
Definition accounted (tr : list event) (p : player) : Prop :=
  started (timeline p) ++ audioQueue p ++ decoded (awaiting p)
  = decoded (calls tr).

Definition two_chunks : list event :=
  [PlayChunk "AAD/fw=="; PlayChunk "AID//w=="; Resume (Ok tt); Resume (Ok tt);
   SourceEnded 0; PlayChunk "AAA="; Resume (Ok tt)].

Definition pcm_chunk : string := "AAD/fw==".

(** A player without its context, with an empty queue and without the
    device: what [close] leaves. *)
Record closed (p : player) : Prop := {
  closed_context : audioContext p = None;
  closed_queue : audioQueue p = [];
  closed_device : device_open p = false
}.

End AudioPlayer.

(** ** Timers: [setTimeout] and [clearTimeout]

    A pending timer has the handle [setTimeout] returned, the time at which
    it is due, and what its callback closed over. Handles are positive, so
    a handle is truthy. Time is in milliseconds. *)
Module Timers.

Section Table.
Variable A : Type.

Record timer : Type := { handle : nat; due : Z; closure : A }.

Record table : Type := { next_handle : nat; pending : list timer }.

Definition empty : table := {| next_handle := 1; pending := [] |}.

(** [setTimeout(callback, delay)] at time [now]. *)
Definition setTimeout (callback : A) (delay now : Z) (t : table)
  : nat * table :=
  (next_handle t,
   {| next_handle := S (next_handle t);
      pending := pending t
                 ++ [{| handle := next_handle t; due := now + delay;
                        closure := callback |}] |}).

(** [clearTimeout(h)]: a timer that has fired or was cleared is unknown,
    and clearing it does nothing. *)
Definition clearTimeout (h : nat) (t : table) : table :=
  {| next_handle := next_handle t;
     pending := filter (fun tm => negb (Nat.eqb (handle tm) h)) (pending t) |}.

Definition is_due (now : Z) (tm : timer) : bool := due tm <=? now.

(** The timer that fires next by the time [now]: the oldest one that is
    due. *)
Definition next_due (now : Z) (t : table) : option timer :=
  find (is_due now) (pending t).

Definition is_pending (h : nat) (t : table) : bool :=
  existsb (fun tm => Nat.eqb (handle tm) h) (pending t).

End Table.

Arguments handle {A} t.
Arguments due {A} t.
Arguments closure {A} t.
Arguments next_handle {A} t.
Arguments pending {A} t.
Arguments empty {A}.
Arguments setTimeout {A} callback delay now t.
Arguments clearTimeout {A} h t.
Arguments is_due {A} now tm.
Arguments next_due {A} now t.
Arguments is_pending {A} h t.

End Timers.

(** ** hooks/useVoiceInterview.ts *)
Module VoiceInterview.

Inductive session_status : Type := connecting | ready | active | ended.

Record VoiceInterviewState : Type := {
  status : session_status;
  currentQuestion : string;
  questionIndex : Z;
  aiSpeaking : bool;
  interviewId : option Z
}.

(** The messages of the server, by [message.type]. *)
Inductive message : Type :=
| msg_ready
| msg_question (text : string) (index : Z)
| msg_ai_audio (audio : string)
| msg_ai_transcript_delta (text : string)
| msg_ai_done_speaking
| msg_ended (interview_id : Z)
| msg_error (message : string)
| msg_unknown (type : string).

(** What the client sends. *)
Inductive outbound : Type :=
| response_complete (transcript : string)
| end_interview.

Inductive ReadyState : Type := CONNECTING | OPEN | CLOSING | CLOSED.

(** The connection, as the platform holds it: its state and what [send]
    has accepted, oldest first. *)
Record WebSocket : Type := { readyState : ReadyState; sent : list outbound }.

(** The reference a render holds in its [ws] state. *)
Inductive socket_ref : Type := Socket.

Inductive log_entry : Type :=
| info_ready
| info_question (index : Z)
| info_audio_chunk
| info_playing_chunk
| error_no_player
| info_done_speaking
| info_ended
| error_interview (message : string)
| info_unknown (type : string)
| info_sending (head : string).

Record hook : Type := {
  state : VoiceInterviewState;             (* state.current *)
  audioPlayerRef : option AudioPlayer.player;
  net : WebSocket;
  console : list log_entry;
  notified : list VoiceInterviewState      (* calls of onStateChange *)
}.

Definition initial_state : VoiceInterviewState :=
  {| status := connecting; currentQuestion := ""; questionIndex := 0;
     aiSpeaking := false; interviewId := None |}.

(** The hook after [connect()] and the socket's [onopen]. *)
Definition connected : hook :=
  {| state := initial_state;
     audioPlayerRef := Some (AudioPlayer.new_player true);
     net := {| readyState := OPEN; sent := [] |};
     console := []; notified := [] |}.

Definition log (l : log_entry) (w : hook) : hook :=
  {| state := state w; audioPlayerRef := audioPlayerRef w; net := net w;
     console := console w ++ [l]; notified := notified w |}.

(** [updateState]: the new state is stored and handed to [onStateChange]. *)
Definition updateState (s : VoiceInterviewState) (w : hook) : hook :=
  {| state := s; audioPlayerRef := audioPlayerRef w; net := net w;
     console := console w; notified := notified w ++ [s] |}.

Definition set_player (pl : option AudioPlayer.player) (w : hook) : hook :=
  {| state := state w; audioPlayerRef := pl; net := net w;
     console := console w; notified := notified w |}.

(** [handleMessage], up to the await of [playChunk] in the [ai_audio] case
    (the player's own resumption is an event of the player). *)
Definition handleMessage (m : message) (w : hook) : hook :=
  let s := state w in
  match m with
  | msg_ready =>
      updateState
        {| status := ready; currentQuestion := currentQuestion s;
           questionIndex := questionIndex s; aiSpeaking := aiSpeaking s;
           interviewId := interviewId s |}
        (log info_ready w)
  | msg_question _ index =>
      updateState
        {| status := active; currentQuestion := ""; questionIndex := index;
           aiSpeaking := true; interviewId := interviewId s |}
        (log (info_question index) w)
  | msg_ai_audio audio =>
      let w1 := log info_audio_chunk w in
      match audioPlayerRef w1 with
      | Some pl =>
          set_player (Some (AudioPlayer.playChunk_call audio pl))
            (log info_playing_chunk w1)
      | None => log error_no_player w1
      end
  | msg_ai_transcript_delta text =>
      updateState
        {| status := status s;
           currentQuestion := (currentQuestion s ++ text)%string;
           questionIndex := questionIndex s; aiSpeaking := aiSpeaking s;
           interviewId := interviewId s |}
        w
  | msg_ai_done_speaking =>
      updateState
        {| status := status s; currentQuestion := currentQuestion s;
           questionIndex := questionIndex s; aiSpeaking := false;
           interviewId := interviewId s |}
        (log info_done_speaking w)
  | msg_ended interview_id =>
      updateState
        {| status := ended; currentQuestion := currentQuestion s;
           questionIndex := questionIndex s; aiSpeaking := aiSpeaking s;
           interviewId := Some interview_id |}
        (log info_ended w)
  | msg_error message => log (error_interview message) w
  | msg_unknown type => log (info_unknown type) w
  end.

Definition is_open (ws : option socket_ref) (w : hook) : bool :=
  match ws, readyState (net w) with
  | Some _, OPEN => true
  | _, _ => false
  end.

Definition send (o : outbound) (w : hook) : hook :=
  {| state := state w; audioPlayerRef := audioPlayerRef w;
     net := {| readyState := readyState (net w); sent := sent (net w) ++ [o] |};
     console := console w; notified := notified w |}.

(** [sendTranscript], for the render whose [ws] state is [ws]: the
    callback is rebuilt whenever [ws] changes and closes over it. *)
Definition sendTranscript (ws : option socket_ref) (transcript : string)
  (w : hook) : hook :=
  if is_open ws w then
    send (response_complete transcript)
      (log (info_sending (substring 0 50 transcript)) w)
  else w.

(** [endInterview] *)
Definition endInterview (ws : option socket_ref) (w : hook) : hook :=
  if is_open ws w then send end_interview w else w.

Definition handle_all (ms : list message) (w : hook) : hook :=
  fold_left (fun w m => handleMessage m w) ms w.

(** The kinds of message that move a session out of [connecting]. *)
Definition leaves_connecting (m : message) : bool :=
  match m with
  | msg_ready | msg_question _ _ | msg_ended _ => true
  | _ => false
  end.

End VoiceInterview.

(** ** app/interview/[sessionId]/page.tsx: speech results, the silence
    timer and the filler words *)
Module InterviewPage.

Import VoiceInterview.

Inductive event_type : Type :=
| filler_word | low_eye_contact | fidgeting | long_pause | question_asked.

Inductive severity_level : Type := info | warning | critical.

Inductive event_data : Type :=
| data_word (word : string)
| data_question (question : string) (index : Z).

(** A timeline event; the timestamp is in seconds since the recording
    started. *)
Record TimelineEvent : Type := {
  timestamp : Q;
  type : event_type;
  data : event_data;
  severity : severity_level
}.

Definition fillerWords : list string :=
  ["um"; "uh"; "like"; "you know"; "basically"; "literally"].

(** The character class of [/[.,!?]/g]. *)
Definition is_punctuation (c : ascii) : bool :=
  let n := JS.code c in (n =? 46) || (n =? 44) || (n =? 33) || (n =? 63).

Definition strip (word : string) : string :=
  JS.remove_chars is_punctuation word.

Definition logEvent (e : TimelineEvent) (timeline : list TimelineEvent)
  : list TimelineEvent :=
  timeline ++ [e].

Definition filler_event (t : Q) (word : string) : TimelineEvent :=
  {| timestamp := t; type := filler_word; data := data_word word;
     severity := warning |}.

(** [detectFillerWords]: the [forEach] over the tokens, on the timeline. *)
Definition detectFillerWords (text : string) (t : Q)
  (timeline : list TimelineEvent) : list TimelineEvent :=
  let words := JS.split JS.space (JS.toLowerCase text) in
  fold_left
    (fun tl word =>
       if JS.includes fillerWords (strip word)
       then logEvent (filler_event t word) tl
       else tl)
    words timeline.

(** The page, with the variables of [initSpeechRecognition]'s scope and the
    platform around them. A silence timer closes over [ws] as the render
    that installed the handler saw it. *)
Record page : Type := {
  finalTranscript : string;
  silenceTimerRef : option nat;
  timers : Timers.table (option socket_ref);
  candidateSpeaking : bool;
  timelineRef : list TimelineEvent;
  interviewStartTimeRef : Z;
  net : WebSocket;
  uncaught : list error
}.

Definition getCurrentTimestamp (now : Z) (p : page) : Q :=
  inject_Z (now - interviewStartTimeRef p) / 1000.

(** One entry of [event.results]: the transcript of its first alternative
    and whether the result is final. *)
Definition speech_result : Type := (string * bool)%type.

(** The [for] loop of [onresult]: the final transcript, the interim
    transcript and the timeline after the results from [resultIndex] on. *)
Fixpoint scan_results (t : Q) (results : list speech_result)
  (final interim : string) (timeline : list TimelineEvent)
  : string * string * list TimelineEvent :=
  match results with
  | [] => (final, interim, timeline)
  | (transcript, true) :: rest =>
      scan_results t rest (final ++ transcript ++ " ")%string interim
        (detectFillerWords transcript t timeline)
  | (transcript, false) :: rest =>
      scan_results t rest final (interim ++ transcript)%string timeline
  end.

(** [recognition.onresult] at time [now], for the handler that closed over
    [ws]. *)
Definition onresult (ws : option socket_ref) (now : Z)
  (results : list speech_result) (p : page) : page :=
  let '(final, interim, timeline) :=
    scan_results (getCurrentTimestamp now p) results (finalTranscript p) ""
      (timelineRef p) in
  let cleared :=
    match silenceTimerRef p with
    | Some h => Timers.clearTimeout h (timers p)
    | None => timers p
    end in
  let (h, table) := Timers.setTimeout ws 2500 now cleared in
  {| finalTranscript := final; silenceTimerRef := Some h; timers := table;
     candidateSpeaking := negb (JS.is_empty interim);
     timelineRef := timeline;
     interviewStartTimeRef := interviewStartTimeRef p; net := net p;
     uncaught := uncaught p |}.

(** [ws.send] does not look at the state of the socket first: a socket
    that is still connecting throws, one that is closing or closed discards
    the data. *)
Definition ws_send (o : outbound) (s : WebSocket) : result WebSocket :=
  match readyState s with
  | OPEN => Ok {| readyState := OPEN; sent := sent s ++ [o] |}
  | CONNECTING => Throw InvalidStateError
  | _ => Ok s
  end.

(** The callback of the silence timer. *)
Definition silence_elapsed (ws : option socket_ref) (p : page) : page :=
  let turn := JS.trim (finalTranscript p) in
  match ws with
  | Some _ =>
      if JS.truthy turn then
        match ws_send (response_complete turn) (net p) with
        | Ok s =>
            {| finalTranscript := ""; silenceTimerRef := silenceTimerRef p;
               timers := timers p; candidateSpeaking := candidateSpeaking p;
               timelineRef := timelineRef p;
               interviewStartTimeRef := interviewStartTimeRef p; net := s;
               uncaught := uncaught p |}
        | Throw e =>
            {| finalTranscript := finalTranscript p;
               silenceTimerRef := silenceTimerRef p;
               timers := timers p; candidateSpeaking := candidateSpeaking p;
               timelineRef := timelineRef p;
               interviewStartTimeRef := interviewStartTimeRef p; net := net p;
               uncaught := uncaught p ++ [e] |}
        end
      else p
  | None => p
  end.

Definition set_timers (t : Timers.table (option socket_ref)) (p : page) : page :=
  {| finalTranscript := finalTranscript p; silenceTimerRef := silenceTimerRef p;
     timers := t; candidateSpeaking := candidateSpeaking p;
     timelineRef := timelineRef p;
     interviewStartTimeRef := interviewStartTimeRef p; net := net p;
     uncaught := uncaught p |}.

(** The timers due by [now] fire, oldest first. *)
Fixpoint fire_due (fuel : nat) (now : Z) (p : page) : page :=
  match fuel with
  | O => p
  | S fuel' =>
      match Timers.next_due now (timers p) with
      | None => p
      | Some tm =>
          let p0 := set_timers (Timers.clearTimeout (Timers.handle tm) (timers p)) p in
          fire_due fuel' now (silence_elapsed (Timers.closure tm) p0)
      end
  end.

Definition advance (now : Z) (p : page) : page :=
  fire_due (List.length (Timers.pending (timers p))) now p.

(** A run: speech results at given times; between two of them the timers
    that have become due fire. A timer due at the very time of a result
    fires first. *)
Definition play (ws : option socket_ref)
  (events : list (Z * list speech_result)) (p : page) : page :=
  fold_left (fun p ev => onresult ws (fst ev) (snd ev) (advance (fst ev) p))
    events p.

Definition horizon (p : page) : Z :=
  fold_left Z.max (map Timers.due (Timers.pending (timers p))) 0.

(** Silence from now on: every pending timer elapses. *)
Definition settle (p : page) : page := advance (horizon p) p.

(** The page once the socket is open and nothing was said yet. *)
Definition listening : page :=
  {| finalTranscript := ""; silenceTimerRef := None; timers := Timers.empty;
     candidateSpeaking := false; timelineRef := [];
     interviewStartTimeRef := 0;
     net := {| readyState := OPEN; sent := [] |}; uncaught := [] |}.

(** *** The specification's side: groups of fragments separated by silence *)

(** A final fragment heard at a given time, as the recogniser reports it:
    one result, final. *)
Definition final (fragment : Z * string) : Z * list speech_result :=
  (fst fragment, [(snd fragment, true)]).

(** What a group of fragments adds up to in the buffer. *)
Fixpoint spoken (group : list string) : string :=
  match group with
  | [] => ""
  | x :: rest => (x ++ " " ++ spoken rest)%string
  end.

Definition turn_text (group : list string) : string := JS.trim (spoken group).

(** The fragments cut into groups wherever two neighbours are at least
    2500 ms apart; [current] is the group being built, [last] the time of
    its latest fragment. *)
Fixpoint groups_from (last : Z) (current : list string)
  (fragments : list (Z * string)) : list (list string) :=
  match fragments with
  | [] => [current]
  | (t, x) :: rest =>
      if last + 2500 <=? t then current :: groups_from t [x] rest
      else groups_from t (current ++ [x]) rest
  end.

Definition groups (fragments : list (Z * string)) : list (list string) :=
  match fragments with
  | [] => []
  | (t, x) :: rest => groups_from t [x] rest
  end.

(** The turns the groups are expected to give: one per group that has
    something to say. *)
Definition turns (gs : list (list string)) : list outbound :=
  map response_complete (filter JS.truthy (map turn_text gs)).

(** *** The two states of the turn detector, for the facts *)

(** One silence timer is pending: the one [silenceTimerRef] names, due
    2500 ms after [last]; the buffer holds the current group after a blank
    prefix (what blank groups left behind). *)
Record armed (ws : option socket_ref) (last : Z) (group : list string)
  (p : page) : Prop := {
  armed_buffer : exists blank,
    JS.all_white blank = true /\
    finalTranscript p = (blank ++ spoken group)%string;
  armed_timer : exists h,
    silenceTimerRef p = Some h /\
    Timers.pending (timers p)
    = [{| Timers.handle := h; Timers.due := last + 2500;
          Timers.closure := ws |}];
  armed_open : readyState (net p) = OPEN
}.

(** The same with the timer fired: nothing pending, a blank buffer. *)
Record idle (p : page) : Prop := {
  idle_buffer : JS.all_white (finalTranscript p) = true;
  idle_timer : Timers.pending (timers p) = [];
  idle_open : readyState (net p) = OPEN
}.

Definition unplugged (tm : Timers.timer (option socket_ref)) : Prop :=
  Timers.closure tm = None.

Definition an_answer : list (Z * string) :=
  [(0, "I led"); (1200, "a team of five"); (6000, "um"); (9000, "thanks")].

End InterviewPage.

(** ** app/interview/[sessionId]/page.tsx: the handler as it is installed *)
Module InterviewPageMount.
Import VoiceInterview.
Import InterviewPage.

(** *** The handler the page installs

    [initSpeechRecognition] runs once, from the effect of the first render
    (its dependency list is empty): [recognition.onresult], and every timer
    callback it makes, close over the [ws] of that render for as long as the
    page lives, whatever [setWs] stores later. That render's [ws] is the
    initial state, [useState<WebSocket | null>(null)]. *)
Definition first_render_ws : option socket_ref := None.

(** A run of the page as it is mounted. *)
Definition mounted_play (events : list (Z * list speech_result)) (p : page)
  : page :=
  play first_render_ws events p.

(** What the final results of one event, and of a run, add up to in the
    buffer. *)
Fixpoint final_text (results : list speech_result) : string :=
  match results with
  | [] => ""
  | (transcript, true) :: rest => (transcript ++ " " ++ final_text rest)%string
  | (_, false) :: rest => final_text rest
  end.

Fixpoint heard (events : list (Z * list speech_result)) : string :=
  match events with
  | [] => ""
  | (_, results) :: rest => (final_text results ++ heard rest)%string
  end.

(** An answer with an interim result before each final one. *)
Definition an_answer_as_recognised : list (Z * list speech_result) :=
  [(0, [("I", false)]); (400, [("I led", true)]);
   (1000, [("a team", false)]); (1200, [("a team of five", true)])].

End InterviewPageMount.

(** ** Filler words, in the words of the specification

    What the detection is expected to do, written without the code: the
    tokens are the pieces of the text between single spaces, a token counts
    without the characters [. , ! ?], and the entries of the list a token
    can equal are the five that are one word. *)
Module FillerWords.

Definition single_words : list string :=
  ["um"; "uh"; "like"; "basically"; "literally"].

(** The token without [. , ! ?]. *)
Definition unpunctuated (token : string) : string :=
  string_of_list_ascii
    (filter (fun c => negb (existsb (Ascii.eqb c) ["."; ","; "!"; "?"]%char))
       (list_ascii_of_string token)).

Definition is_filler (token : string) : bool :=
  existsb (String.eqb (unpunctuated token)) single_words.

(** Tokens put back together with one space between two neighbours. *)
Fixpoint join (tokens : list string) : string :=
  match tokens with
  | [] => ""
  | [w] => w
  | w :: rest => (w ++ " " ++ join rest)%string
  end.

Definition has_space (token : string) : Prop :=
  In " "%char (list_ascii_of_string token).

Definition a_hesitant_sentence : string :=
  "Um, I like you know LITERALLY that. Basically... uh!".

End FillerWords.

(** ** app/interview/[sessionId]/interview_layout.tsx: the page built on
    the hooks (the second [VoiceInterviewPage]) *)
Module InterviewLayout.

Import VoiceInterview.

(** The page: the state of [useVoiceInterview], the two refs of the turn
    detector, the timers (a callback closes over the [sendTranscript] of
    the render that made it, that is over that render's [ws]), and the
    timeline of [useVideoRecorder]. *)
Record layout : Type := {
  voice : hook;
  transcriptBufferRef : string;
  silenceTimerRef : option nat;
  timers : Timers.table (option socket_ref);
  candidateSpeaking : bool;
  timelineRef : list InterviewPage.TimelineEvent;
  startTimeRef : Z;
  sending : list string       (* console.log('Sending:', buffer) *)
}.

(** [videoRecorder.logEvent]: the recorder stamps the event itself. *)
Definition logEvent (now : Z) (word : string) (l : layout)
  : list InterviewPage.TimelineEvent :=
  timelineRef l
  ++ [{| InterviewPage.timestamp := inject_Z (now - startTimeRef l) / 1000;
         InterviewPage.type := InterviewPage.filler_word;
         InterviewPage.data := InterviewPage.data_word word;
         InterviewPage.severity := InterviewPage.warning |}].

Definition set_timeline (tl : list InterviewPage.TimelineEvent) (l : layout)
  : layout :=
  {| voice := voice l; transcriptBufferRef := transcriptBufferRef l;
     silenceTimerRef := silenceTimerRef l; timers := timers l;
     candidateSpeaking := candidateSpeaking l; timelineRef := tl;
     startTimeRef := startTimeRef l; sending := sending l |}.

(** The filler-word loop of [handleTranscript]; here the event carries the
    stripped word. *)
Definition detect (now : Z) (text : string) (l : layout) : layout :=
  fold_left
    (fun l word =>
       let clean := InterviewPage.strip word in
       if JS.includes InterviewPage.fillerWords clean
       then set_timeline (logEvent now clean l) l
       else l)
    (JS.split JS.space (JS.toLowerCase text)) l.

(** [handleTranscript(text, isFinal)] at time [now], as made by a render
    whose [ws] is [ws]. *)
Definition handleTranscript (ws : option socket_ref) (now : Z)
  (text : string) (isFinal : bool) (l : layout) : layout :=
  if isFinal then
    let l0 :=
      {| voice := voice l;
         transcriptBufferRef := (transcriptBufferRef l ++ text ++ " ")%string;
         silenceTimerRef := silenceTimerRef l; timers := timers l;
         candidateSpeaking := candidateSpeaking l;
         timelineRef := timelineRef l; startTimeRef := startTimeRef l;
         sending := sending l |} in
    let l1 := detect now text l0 in
    let cleared :=
      match silenceTimerRef l1 with
      | Some h => Timers.clearTimeout h (timers l1)
      | None => timers l1
      end in
    let (h, table) := Timers.setTimeout ws 2500 now cleared in
    {| voice := voice l1; transcriptBufferRef := transcriptBufferRef l1;
       silenceTimerRef := Some h; timers := table;
       candidateSpeaking := candidateSpeaking l1;
       timelineRef := timelineRef l1; startTimeRef := startTimeRef l1;
       sending := sending l1 |}
  else l.

(** The callback of the silence timer. *)
Definition silence_elapsed (ws : option socket_ref) (l : layout) : layout :=
  let turn := JS.trim (transcriptBufferRef l) in
  if JS.truthy turn then
    {| voice := sendTranscript ws turn (voice l);
       transcriptBufferRef := ""; silenceTimerRef := silenceTimerRef l;
       timers := timers l; candidateSpeaking := false;
       timelineRef := timelineRef l; startTimeRef := startTimeRef l;
       sending := sending l ++ [transcriptBufferRef l] |}
  else l.

Definition set_timers (t : Timers.table (option socket_ref)) (l : layout)
  : layout :=
  {| voice := voice l; transcriptBufferRef := transcriptBufferRef l;
     silenceTimerRef := silenceTimerRef l; timers := t;
     candidateSpeaking := candidateSpeaking l; timelineRef := timelineRef l;
     startTimeRef := startTimeRef l; sending := sending l |}.

(** A message of the server reaches the hook's [handleMessage]; nothing
    else of the page runs with it. *)
Definition onmessage (m : message) (l : layout) : layout :=
  {| voice := handleMessage m (voice l);
     transcriptBufferRef := transcriptBufferRef l;
     silenceTimerRef := silenceTimerRef l; timers := timers l;
     candidateSpeaking := candidateSpeaking l; timelineRef := timelineRef l;
     startTimeRef := startTimeRef l; sending := sending l |}.

(** The part of [cleanup] (run when the page is left) that concerns the
    turn detector: the silence timer is cleared. *)
Definition cleanup (l : layout) : layout :=
  match silenceTimerRef l with
  | Some h => set_timers (Timers.clearTimeout h (timers l)) l
  | None => l
  end.

Fixpoint fire_due (fuel : nat) (now : Z) (l : layout) : layout :=
  match fuel with
  | O => l
  | S fuel' =>
      match Timers.next_due now (timers l) with
      | None => l
      | Some tm =>
          let l0 := set_timers (Timers.clearTimeout (Timers.handle tm) (timers l)) l in
          fire_due fuel' now (silence_elapsed (Timers.closure tm) l0)
      end
  end.

(** Time passes until [now]: the timers due by then fire. *)
Definition advance (now : Z) (l : layout) : layout :=
  fire_due (List.length (Timers.pending (timers l))) now l.

(** The page with the socket open and the first question asked. *)
Definition interviewing : layout :=
  {| voice := handle_all [msg_ready; msg_question "Tell me about yourself" 1;
                          msg_ai_done_speaking] connected;
     transcriptBufferRef := ""; silenceTimerRef := None;
     timers := Timers.empty; candidateSpeaking := false; timelineRef := [];
     startTimeRef := 0; sending := [] |}.

End InterviewLayout.

(** ** hooks/useSpeechRecognition.ts over the browser's SpeechRecognition
    (the version with [MAX_RESTARTS]) *)
Module BrowserSpeech.

(** The recogniser object, as the platform holds it. [start()] on a
    recogniser that is not idle throws; [stop()] makes a listening
    recogniser wind down; the [end] event, which the platform raises when a
    session is over (after [stop()], or on its own: silence, a network
    failure), leaves it idle. *)
Inductive recognizer : Type := Idle | Listening | Stopping.

Inductive log_entry : Type :=
| log_initial_start_failed
| log_restart_failed
| log_max_restarts
| log_speech_error (e : string).

Record hook : Type := {
  recognitionRef : bool;        (* recognitionRef.current is the recogniser *)
  enabledRef : bool;
  restartAttempts : nat;
  isListening : bool;
  error : option string;
  (* the platform *)
  recognition : recognizer;
  onend : bool;                 (* recognition.onend is the handler, not null *)
  timers : Timers.table unit;
  sessions : nat;               (* capture sessions begun so far *)
  console : list log_entry
}.

Definition MAX_RESTARTS : nat := 3.

Definition RESTART_DELAY : Z := 1500.

(** [recognition.start()] *)
Definition start (h : hook) : result hook :=
  match recognition h with
  | Idle =>
      Ok {| recognitionRef := recognitionRef h; enabledRef := enabledRef h;
            restartAttempts := restartAttempts h; isListening := isListening h;
            error := error h; recognition := Listening; onend := onend h;
            timers := timers h; sessions := S (sessions h);
            console := console h |}
  | _ => Throw InvalidStateError
  end.

(** [recognition.stop()] *)
Definition stop_recognition (h : hook) : hook :=
  match recognition h with
  | Listening =>
      {| recognitionRef := recognitionRef h; enabledRef := enabledRef h;
         restartAttempts := restartAttempts h; isListening := isListening h;
         error := error h; recognition := Stopping; onend := onend h;
         timers := timers h; sessions := sessions h; console := console h |}
  | _ => h
  end.

Definition log (l : log_entry) (h : hook) : hook :=
  {| recognitionRef := recognitionRef h; enabledRef := enabledRef h;
     restartAttempts := restartAttempts h; isListening := isListening h;
     error := error h; recognition := recognition h; onend := onend h;
     timers := timers h; sessions := sessions h;
     console := console h ++ [l] |}.

(** [try { recognition.start() } catch { console... }] *)
Definition try_start (on_failure : option log_entry) (h : hook) : hook :=
  match start h with
  | Ok h' => h'
  | Throw _ =>
      match on_failure with
      | Some l => log l h
      | None => h
      end
  end.

(** [recognition.onstart] *)
Definition onstart (h : hook) : hook :=
  {| recognitionRef := recognitionRef h; enabledRef := enabledRef h;
     restartAttempts := restartAttempts h; isListening := true;
     error := error h; recognition := recognition h; onend := onend h;
     timers := timers h; sessions := sessions h; console := console h |}.

(** [recognition.onerror] *)
Definition onerror (e : string) (h : hook) : hook :=
  {| recognitionRef := recognitionRef h; enabledRef := enabledRef h;
     restartAttempts := restartAttempts h; isListening := isListening h;
     error := Some e; recognition := recognition h; onend := onend h;
     timers := timers h; sessions := sessions h;
     console := console h ++ [log_speech_error e] |}.

(** The handler [recognition.onend], at time [now]. *)
Definition onend_handler (now : Z) (h : hook) : hook :=
  let h1 :=
    {| recognitionRef := recognitionRef h; enabledRef := enabledRef h;
       restartAttempts := restartAttempts h; isListening := false;
       error := error h; recognition := recognition h; onend := onend h;
       timers := timers h; sessions := sessions h; console := console h |} in
  if negb (enabledRef h1) then h1
  else if (MAX_RESTARTS <=? restartAttempts h1)%nat then
    {| recognitionRef := recognitionRef h1; enabledRef := enabledRef h1;
       restartAttempts := restartAttempts h1; isListening := false;
       error := Some "Speech recognition failed";
       recognition := recognition h1; onend := onend h1;
       timers := timers h1; sessions := sessions h1;
       console := console h1 ++ [log_max_restarts] |}
  else
    {| recognitionRef := recognitionRef h1; enabledRef := enabledRef h1;
       restartAttempts := S (restartAttempts h1); isListening := false;
       error := error h1; recognition := recognition h1; onend := onend h1;
       timers := snd (Timers.setTimeout tt RESTART_DELAY now (timers h1));
       sessions := sessions h1; console := console h1 |}.

(** The callback of a restart timer. *)
Definition restart_elapsed (h : hook) : hook :=
  try_start (Some log_restart_failed) h.

(** The platform's [end] event. *)
Definition recognizer_ends (now : Z) (h : hook) : hook :=
  match recognition h with
  | Idle => h
  | _ =>
      let h0 :=
        {| recognitionRef := recognitionRef h; enabledRef := enabledRef h;
           restartAttempts := restartAttempts h; isListening := isListening h;
           error := error h; recognition := Idle; onend := onend h;
           timers := timers h; sessions := sessions h; console := console h |} in
      if onend h0 then onend_handler now h0 else h0
  end.

(** The effect on [enabled] that controls the recogniser (the third). *)
Definition control (enabled : bool) (h : hook) : hook :=
  if negb (recognitionRef h) then h
  else if enabled then
    try_start None
      {| recognitionRef := recognitionRef h; enabledRef := enabledRef h;
         restartAttempts := 0; isListening := isListening h;
         error := error h; recognition := recognition h; onend := onend h;
         timers := timers h; sessions := sessions h; console := console h |}
  else stop_recognition h.

Definition set_enabledRef (enabled : bool) (h : hook) : hook :=
  {| recognitionRef := recognitionRef h; enabledRef := enabled;
     restartAttempts := restartAttempts h; isListening := isListening h;
     error := error h; recognition := recognition h; onend := onend h;
     timers := timers h; sessions := sessions h; console := console h |}.

(** The first render: the three effects in order. [supported] says whether
    the browser has a SpeechRecognition. *)
Definition mount (supported enabled : bool) : hook :=
  if supported then
    let h1 :=
      {| recognitionRef := true; enabledRef := enabled; restartAttempts := 0;
         isListening := false; error := None; recognition := Idle;
         onend := true; timers := Timers.empty; sessions := 0;
         console := [] |} in
    let h2 := if enabled then try_start (Some log_initial_start_failed) h1 else h1 in
    control enabled h2
  else
    {| recognitionRef := false; enabledRef := enabled; restartAttempts := 0;
       isListening := false; error := Some "Speech recognition not supported";
       recognition := Idle; onend := false; timers := Timers.empty;
       sessions := 0; console := [] |}.

(** A render in which [enabled] has changed: the two effects on it. *)
Definition render (enabled : bool) (h : hook) : hook :=
  control enabled (set_enabledRef enabled h).

(** The cleanup of the mount effect. *)
Definition unmount (h : hook) : hook :=
  if recognitionRef h then
    stop_recognition
      {| recognitionRef := recognitionRef h; enabledRef := enabledRef h;
         restartAttempts := restartAttempts h; isListening := isListening h;
         error := error h; recognition := recognition h; onend := false;
         timers := timers h; sessions := sessions h; console := console h |}
  else h.

(** The [stop] the hook returns. *)
Definition stop (h : hook) : hook :=
  let h1 := set_enabledRef false h in
  if recognitionRef h1 then stop_recognition h1 else h1.

Definition set_timers (t : Timers.table unit) (h : hook) : hook :=
  {| recognitionRef := recognitionRef h; enabledRef := enabledRef h;
     restartAttempts := restartAttempts h; isListening := isListening h;
     error := error h; recognition := recognition h; onend := onend h;
     timers := t; sessions := sessions h; console := console h |}.

Fixpoint fire_due (fuel : nat) (now : Z) (h : hook) : hook :=
  match fuel with
  | O => h
  | S fuel' =>
      match Timers.next_due now (timers h) with
      | None => h
      | Some tm =>
          fire_due fuel' now
            (restart_elapsed
               (set_timers (Timers.clearTimeout (Timers.handle tm) (timers h)) h))
      end
  end.

Definition advance (now : Z) (h : hook) : hook :=
  fire_due (List.length (Timers.pending (timers h))) now h.

Inductive event : Type :=
| Render (enabled : bool)
| Unmount
| Stop
| RecognizerStarted
| RecognizerError (e : string)
| RecognizerEnds
| Wait.

(** An event at a given time: the timers due by then fire first. *)
Definition step (h : hook) (te : Z * event) : hook :=
  let now := fst te in
  let h0 := advance now h in
  match snd te with
  | Render enabled => render enabled h0
  | Unmount => unmount h0
  | Stop => stop h0
  | RecognizerStarted => onstart h0
  | RecognizerError e => onerror e h0
  | RecognizerEnds => recognizer_ends now h0
  | Wait => h0
  end.

Definition run (tr : list (Z * event)) (h : hook) : hook := fold_left step tr h.

(** What the platform does on its own. *)
Definition platform_event (te : Z * event) : bool :=
  match snd te with
  | RecognizerStarted | RecognizerError _ | RecognizerEnds | Wait => true
  | _ => false
  end.

(** The restart timers set so far. *)
Definition scheduled (h : hook) : nat := Timers.next_handle (timers h).

End BrowserSpeech.

(** ** hooks/useSpeechRecognition.ts over the Azure Speech SDK (the
    version with [scheduleRestart])

    The model follows the refs, the restart timer and the recognisers the
    hook creates; the delivery of transcripts ([recognizing], [recognized])
    touches none of them and is left out. *)
Module AzureSpeech.

Inductive restart_reason : Type := network | service | normal.

Inductive CancellationReason : Type := EndOfStream | Error | OtherReason.

Record hook : Type := {
  enabledRef : bool;
  manuallyStoppedRef : bool;
  restartTimeoutRef : option nat;
  restartAttemptRef : nat;
  recognizerRef : option nat;
  isListening : bool;
  error : option string;
  (* the platform *)
  timers : Timers.table unit;
  config_present : bool;     (* the speech key and region are configured *)
  loading : nat;             (* calls suspended at [await loadAzureSpeechSDK()] *)
  starting : list nat;       (* recognisers whose start is awaited *)
  capturing : list nat;      (* recognisers started and not stopped *)
  next_recognizer : nat
}.

(** [s.includes(t)] on strings. *)
Definition text_includes (t s : string) : bool :=
  match String.index 0 t s with
  | Some _ => true
  | None => false
  end.

Definition clearRestartTimer (h : hook) : hook :=
  match restartTimeoutRef h with
  | Some t =>
      {| enabledRef := enabledRef h; manuallyStoppedRef := manuallyStoppedRef h;
         restartTimeoutRef := None; restartAttemptRef := restartAttemptRef h;
         recognizerRef := recognizerRef h; isListening := isListening h;
         error := error h; timers := Timers.clearTimeout t (timers h);
         config_present := config_present h; loading := loading h;
         starting := starting h; capturing := capturing h;
         next_recognizer := next_recognizer h |}
  | None => h
  end.

Definition without (r : nat) (l : list nat) : list nat :=
  filter (fun x => negb (Nat.eqb x r)) l.

(** [stopAndDisposeRecognizer]: the current recogniser, if any, is stopped
    and closed, and forgotten. *)
Definition stopAndDisposeRecognizer (h : hook) : hook :=
  {| enabledRef := enabledRef h; manuallyStoppedRef := manuallyStoppedRef h;
     restartTimeoutRef := restartTimeoutRef h;
     restartAttemptRef := restartAttemptRef h;
     recognizerRef := None; isListening := isListening h; error := error h;
     timers := timers h; config_present := config_present h;
     loading := loading h; starting := starting h;
     capturing := match recognizerRef h with
                  | Some r => without r (capturing h)
                  | None => capturing h
                  end;
     next_recognizer := next_recognizer h |}.

(** The delay of a restart for the attempt counter [attempt] (already
    incremented). *)
Definition restart_delay (reason : restart_reason) (attempt : nat) : Z :=
  match reason with
  | normal => 1000
  | network | service =>
      Z.min 30000 (1000 * 2 ^ Z.of_nat (Nat.min attempt 5))
  end.

(** [scheduleRestart(reason)] at time [now]. *)
Definition scheduleRestart (reason : restart_reason) (now : Z) (h : hook)
  : hook :=
  if negb (enabledRef h) || manuallyStoppedRef h then h
  else
    match restartTimeoutRef h with
    | Some _ => h
    | None =>
        let attempt := S (restartAttemptRef h) in
        let (t, table) :=
          Timers.setTimeout tt (restart_delay reason attempt) now (timers h) in
        {| enabledRef := enabledRef h;
           manuallyStoppedRef := manuallyStoppedRef h;
           restartTimeoutRef := Some t; restartAttemptRef := attempt;
           recognizerRef := recognizerRef h; isListening := isListening h;
           error := error h; timers := table;
           config_present := config_present h; loading := loading h;
           starting := starting h; capturing := capturing h;
           next_recognizer := next_recognizer h |}
    end.

Definition set_status (listening : bool) (e : option string) (h : hook) : hook :=
  {| enabledRef := enabledRef h; manuallyStoppedRef := manuallyStoppedRef h;
     restartTimeoutRef := restartTimeoutRef h;
     restartAttemptRef := restartAttemptRef h;
     recognizerRef := recognizerRef h; isListening := listening; error := e;
     timers := timers h; config_present := config_present h;
     loading := loading h; starting := starting h; capturing := capturing h;
     next_recognizer := next_recognizer h |}.

(** [startRecognition] up to [await loadAzureSpeechSDK()]. *)
Definition startRecognition (h : hook) : hook :=
  if negb (enabledRef h) || manuallyStoppedRef h then h
  else
    let h1 := stopAndDisposeRecognizer (clearRestartTimer h) in
    if negb (config_present h1) then
      set_status (isListening h1)
        (Some "Missing Azure Speech config. Set NEXT_PUBLIC_AZURE_SPEECH_KEY and NEXT_PUBLIC_AZURE_SPEECH_REGION.")
        h1
    else
      {| enabledRef := enabledRef h1;
         manuallyStoppedRef := manuallyStoppedRef h1;
         restartTimeoutRef := restartTimeoutRef h1;
         restartAttemptRef := restartAttemptRef h1;
         recognizerRef := recognizerRef h1; isListening := isListening h1;
         error := error h1; timers := timers h1;
         config_present := config_present h1; loading := S (loading h1);
         starting := starting h1; capturing := capturing h1;
         next_recognizer := next_recognizer h1 |}.

(** The [catch] of [startRecognition], for an error without a message of
    its own: the error shown is the fallback text. *)
Definition start_failed (now : Z) (h : hook) : hook :=
  scheduleRestart service now
    (set_status false (Some "Failed to start Azure Speech recognition.") h).

(** The SDK has loaded (or failed to): the oldest suspended call goes on,
    creates its recogniser, installs it and starts it, up to the await of
    the start. *)
Definition sdk_loaded (ok : bool) (now : Z) (h : hook) : hook :=
  match loading h with
  | O => h
  | S waiting =>
      let h0 :=
        {| enabledRef := enabledRef h;
           manuallyStoppedRef := manuallyStoppedRef h;
           restartTimeoutRef := restartTimeoutRef h;
           restartAttemptRef := restartAttemptRef h;
           recognizerRef := recognizerRef h; isListening := isListening h;
           error := error h; timers := timers h;
           config_present := config_present h; loading := waiting;
           starting := starting h; capturing := capturing h;
           next_recognizer := next_recognizer h |} in
      if ok then
        let r := next_recognizer h0 in
        {| enabledRef := enabledRef h0;
           manuallyStoppedRef := manuallyStoppedRef h0;
           restartTimeoutRef := restartTimeoutRef h0;
           restartAttemptRef := restartAttemptRef h0;
           recognizerRef := Some r; isListening := isListening h0;
           error := error h0; timers := timers h0;
           config_present := config_present h0; loading := loading h0;
           starting := starting h0 ++ [r];
           capturing := capturing h0 ++ [r];
           next_recognizer := S r |}
      else start_failed now h0
  end.

(** The start of recogniser [r] has settled: [setIsListening(true)], or
    the [catch]. *)
Definition start_settled (r : nat) (ok : bool) (now : Z) (h : hook) : hook :=
  if existsb (Nat.eqb r) (starting h) then
    let h0 :=
      {| enabledRef := enabledRef h;
         manuallyStoppedRef := manuallyStoppedRef h;
         restartTimeoutRef := restartTimeoutRef h;
         restartAttemptRef := restartAttemptRef h;
         recognizerRef := recognizerRef h; isListening := isListening h;
         error := error h; timers := timers h;
         config_present := config_present h; loading := loading h;
         starting := without r (starting h);
         capturing := if ok then capturing h else without r (capturing h);
         next_recognizer := next_recognizer h |} in
    if ok then set_status true (error h0) h0 else start_failed now h0
  else h.

(** [recognizer.sessionStarted] *)
Definition sessionStarted (h : hook) : hook :=
  {| enabledRef := enabledRef h; manuallyStoppedRef := manuallyStoppedRef h;
     restartTimeoutRef := restartTimeoutRef h; restartAttemptRef := 0;
     recognizerRef := recognizerRef h; isListening := true; error := None;
     timers := timers h; config_present := config_present h;
     loading := loading h; starting := starting h; capturing := capturing h;
     next_recognizer := next_recognizer h |}.

(** [recognizer.sessionStopped] *)
Definition sessionStopped (now : Z) (h : hook) : hook :=
  let h1 := set_status false (error h) h in
  if negb (enabledRef h1) || manuallyStoppedRef h1 then h1
  else scheduleRestart normal now h1.

(** [recognizer.canceled] *)
Definition canceled (reason : CancellationReason) (errorDetails : string)
  (now : Z) (h : hook) : hook :=
  let h1 := set_status false (error h) h in
  let details :=
    if JS.truthy errorDetails then errorDetails
    else "Speech recognition cancelled." in
  match reason, manuallyStoppedRef h1 with
  | EndOfStream, false => scheduleRestart normal now h1
  | _, _ =>
      let h2 := set_status false (Some details) h1 in
      if negb (enabledRef h2) || manuallyStoppedRef h2 then h2
      else
        match reason with
        | Error =>
            let lower := JS.toLowerCase details in
            if text_includes "network" lower || text_includes "connection" lower
            then scheduleRestart network now h2
            else scheduleRestart service now h2
        | _ => h2
        end
  end.

Definition set_refs (enabled stopped : bool) (h : hook) : hook :=
  {| enabledRef := enabled; manuallyStoppedRef := stopped;
     restartTimeoutRef := restartTimeoutRef h;
     restartAttemptRef := restartAttemptRef h;
     recognizerRef := recognizerRef h; isListening := isListening h;
     error := error h; timers := timers h;
     config_present := config_present h; loading := loading h;
     starting := starting h; capturing := capturing h;
     next_recognizer := next_recognizer h |}.

(** What the hook does to stop: the cleanup of the effect on [enabled],
    and the [stop] it returns. *)
Definition cleanup (h : hook) : hook :=
  set_status false (error h)
    (stopAndDisposeRecognizer
       (clearRestartTimer (set_refs (enabledRef h) true h))).

Definition stop (h : hook) : hook := cleanup h.

(** The body of the effect on [enabled]. *)
Definition effect (enabled : bool) (h : hook) : hook :=
  let h1 := set_refs (enabledRef h) (negb enabled) h in
  if enabled then startRecognition h1
  else set_status false (error h1)
         (stopAndDisposeRecognizer (clearRestartTimer h1)).

Definition mount (configured enabled : bool) : hook :=
  effect enabled
    {| enabledRef := enabled; manuallyStoppedRef := false;
       restartTimeoutRef := None; restartAttemptRef := 0;
       recognizerRef := None; isListening := false; error := None;
       timers := Timers.empty; config_present := configured; loading := 0;
       starting := []; capturing := []; next_recognizer := 0 |}.

(** A render in which [enabled] has changed: the cleanup of the previous
    effect, [enabledRef.current = enabled], the effect. *)
Definition render (enabled : bool) (h : hook) : hook :=
  let h1 := cleanup h in
  effect enabled (set_refs enabled (manuallyStoppedRef h1) h1).

Definition unmount (h : hook) : hook := cleanup h.

(** The callback of the restart timer. *)
Definition restart_elapsed (h : hook) : hook :=
  startRecognition
    {| enabledRef := enabledRef h; manuallyStoppedRef := manuallyStoppedRef h;
       restartTimeoutRef := None; restartAttemptRef := restartAttemptRef h;
       recognizerRef := recognizerRef h; isListening := isListening h;
       error := error h; timers := timers h;
       config_present := config_present h; loading := loading h;
       starting := starting h; capturing := capturing h;
       next_recognizer := next_recognizer h |}.

Definition set_timers (t : Timers.table unit) (h : hook) : hook :=
  {| enabledRef := enabledRef h; manuallyStoppedRef := manuallyStoppedRef h;
     restartTimeoutRef := restartTimeoutRef h;
     restartAttemptRef := restartAttemptRef h;
     recognizerRef := recognizerRef h; isListening := isListening h;
     error := error h; timers := t; config_present := config_present h;
     loading := loading h; starting := starting h; capturing := capturing h;
     next_recognizer := next_recognizer h |}.

Fixpoint fire_due (fuel : nat) (now : Z) (h : hook) : hook :=
  match fuel with
  | O => h
  | S fuel' =>
      match Timers.next_due now (timers h) with
      | None => h
      | Some tm =>
          fire_due fuel' now
            (restart_elapsed
               (set_timers (Timers.clearTimeout (Timers.handle tm) (timers h)) h))
      end
  end.

Definition advance (now : Z) (h : hook) : hook :=
  fire_due (List.length (Timers.pending (timers h))) now h.

Inductive event : Type :=
| Render (enabled : bool)
| Unmount
| Stop
| SdkLoaded (ok : bool)
| StartSettled (r : nat) (ok : bool)
| SessionStarted
| SessionStopped
| Canceled (reason : CancellationReason) (errorDetails : string)
| Wait.

Definition step (h : hook) (te : Z * event) : hook :=
  let now := fst te in
  let h0 := advance now h in
  match snd te with
  | Render enabled => render enabled h0
  | Unmount => unmount h0
  | Stop => stop h0
  | SdkLoaded ok => sdk_loaded ok now h0
  | StartSettled r ok => start_settled r ok now h0
  | SessionStarted => sessionStarted h0
  | SessionStopped => sessionStopped now h0
  | Canceled reason details => canceled reason details now h0
  | Wait => h0
  end.

Definition run (tr : list (Z * event)) (h : hook) : hook := fold_left step tr h.

(** A service that keeps failing: each round, the running recogniser is
    cancelled with an error, the restart timer elapses and the hook starts
    a new recogniser. *)
Fixpoint failing_service (rounds : nat) (now : Z) : list (Z * event) :=
  match rounds with
  | O => []
  | S n =>
      (now, Canceled Error "Service unavailable")
        :: (now + 30000, SdkLoaded true)
        :: failing_service n (now + 40000)
  end.

End AzureSpeech.

(** ** What a turn on the wire looks like *)
Module Turns.

Import VoiceInterview.

(** A turn as the server expects it: a [response_complete] whose transcript
    has something to say and no white space at either end. *)
Definition is_turn (o : outbound) : bool :=
  match o with
  | response_complete t => JS.truthy t && String.eqb (JS.trim t) t
  | end_interview => false
  end.

End Turns.

(** ** utils/audioUtils.ts: playing a player out

    What the platform does to a player that is left alone: the suspended
    calls of [playChunk] resume, and each source node that was started
    finishes. *)
Module Playout.

Import AudioPlayer.

(** Every call suspended at [await this.initialize()] resumes. *)
Definition resume_all (p : player) : player :=
  run (repeat (Resume (Ok tt)) (List.length (awaiting p))) p.

(** The source that is playing finishes, up to [n] times in a row. *)
Fixpoint drain (n : nat) (p : player) : player :=
  match n with
  | O => p
  | S n' =>
      match now_playing p with
      | Some id => drain n' (source_ended id p)
      | None => p
      end
  end.

(** The calls resume, then the sources finish one after the other, once
    more than there are buffers waiting. *)
Definition play_out (p : player) : player :=
  let q := resume_all p in drain (S (List.length (audioQueue q))) q.

(** Events that do not resume a suspended call. *)
Definition no_resume (e : event) : bool :=
  match e with
  | Resume _ => false
  | _ => true
  end.

End Playout.

(** ** hooks/useVoiceInterview.ts: what a sequence of messages holds *)
Module VoiceMessages.

Import VoiceInterview.

Definition is_question (m : message) : bool :=
  match m with
  | msg_question _ _ => true
  | _ => false
  end.

(** The text streamed by the [ai_transcript_delta] messages, in order. *)
Fixpoint streamed (ms : list message) : string :=
  match ms with
  | [] => ""
  | msg_ai_transcript_delta text :: ms' => (text ++ streamed ms')%string
  | _ :: ms' => streamed ms'
  end.

(** The kinds of message on which [handleMessage] calls [updateState]. *)
Definition updates (m : message) : bool :=
  match m with
  | msg_ai_audio _ | msg_error _ | msg_unknown _ => false
  | _ => true
  end.

(** The audio chunks of the [ai_audio] messages, in order. *)
Fixpoint audio_chunks (ms : list message) : list string :=
  match ms with
  | [] => []
  | msg_ai_audio audio :: ms' => audio :: audio_chunks ms'
  | _ :: ms' => audio_chunks ms'
  end.

Definition an_exchange : list message :=
  [msg_ready; msg_question "Tell me about yourself" 1;
   msg_ai_audio "AAD/fw=="; msg_ai_transcript_delta "Tell me ";
   msg_ai_audio "AID//w=="; msg_ai_transcript_delta "about yourself";
   msg_ai_done_speaking].

End VoiceMessages.

(** ** app/interview/[sessionId]/page.tsx: the order of a run *)
Module Chronology.

Import VoiceInterview.
Import InterviewPage.

(** Times that never go back. *)
Fixpoint ascending (ts : list Z) : bool :=
  match ts with
  | a :: (b :: _) as rest => (a <=? b) && ascending rest
  | _ => true
  end.

(** A timeline whose timestamps never go back. *)
Fixpoint chronological (tl : list TimelineEvent) : bool :=
  match tl with
  | a :: (b :: _) as rest =>
      Qle_bool (timestamp a) (timestamp b) && chronological rest
  | _ => true
  end.

Definition is_filler_warning (e : TimelineEvent) : bool :=
  match type e, severity e with
  | filler_word, warning => true
  | _, _ => false
  end.

(** Every pending timer is the one [silenceTimerRef] names and closes
    over [ws]; there is one at most. *)
Definition single (ws : option socket_ref) (p : page) : Prop :=
  (List.length (Timers.pending (timers p)) <= 1)%nat /\
  forall tm, In tm (Timers.pending (timers p)) ->
    silenceTimerRef p = Some (Timers.handle tm) /\ Timers.closure tm = ws.

Definition stamped (t : Q) (e : TimelineEvent) : Prop :=
  timestamp e = t /\ is_filler_warning e = true.

Definition a_hesitant_answer : list (Z * list speech_result) :=
  [(1000, [("um I", false)]); (1800, [("Um, I led", true)]);
   (1800, [("like a team", true); ("uh", false)]); (9000, [("uh thanks", true)])].

End Chronology.

(** ** app/interview/[sessionId]/page.tsx: the timeline of a session *)
Module Session.

Import VoiceInterview.
Import InterviewPage.
Import Chronology.

(** *** All that writes the timeline and its origin

    Besides the speech results, the [question] case of the page's
    [handleMessage] logs a [question_asked] event, and [startRecording],
    called when the camera has been granted and the video plays, moves the
    origin of the timestamps: [interviewStartTimeRef] is 0 until then. *)
Inductive page_event : Type :=
| Results (results : list speech_result)
| Question (text : string) (index : Z)
| RecordingStarts.

Definition set_timeline (tl : list TimelineEvent) (p : page) : page :=
  {| finalTranscript := finalTranscript p; silenceTimerRef := silenceTimerRef p;
     timers := timers p; candidateSpeaking := candidateSpeaking p;
     timelineRef := tl;
     interviewStartTimeRef := interviewStartTimeRef p; net := net p;
     uncaught := uncaught p |}.

(** [handleMessage], case ['question'], for what it writes of the page's
    refs. *)
Definition question (now : Z) (text : string) (index : Z) (p : page) : page :=
  set_timeline
    (logEvent {| timestamp := getCurrentTimestamp now p;
                 type := question_asked;
                 data := data_question text index;
                 severity := info |}
       (timelineRef p)) p.

(** [startRecording]: [interviewStartTimeRef.current = Date.now()]. *)
Definition startRecording (now : Z) (p : page) : page :=
  {| finalTranscript := finalTranscript p; silenceTimerRef := silenceTimerRef p;
     timers := timers p; candidateSpeaking := candidateSpeaking p;
     timelineRef := timelineRef p;
     interviewStartTimeRef := now; net := net p;
     uncaught := uncaught p |}.

Definition page_step (ws : option socket_ref) (p : page)
  (ev : Z * page_event) : page :=
  let now := fst ev in
  let q := advance now p in
  match snd ev with
  | Results results => onresult ws now results q
  | Question text index => question now text index q
  | RecordingStarts => startRecording now q
  end.

(** A run of the page: at each time the timers that are due fire, then
    the event is handled. *)
Definition session (ws : option socket_ref) (events : list (Z * page_event))
  (p : page) : page :=
  fold_left (page_step ws) events p.

Definition no_start (ev : Z * page_event) : bool :=
  match snd ev with
  | RecordingStarts => false
  | _ => true
  end.

(** The event is stamped with the seconds from [origin] to one of
    [times]. *)
Definition stamped_from (origin : Z) (times : list Z) (e : TimelineEvent)
  : bool :=
  existsb (fun now => Qeq_bool (timestamp e) (inject_Z (now - origin) / 1000))
    times.

Definition is_question_info (e : TimelineEvent) : bool :=
  match type e, severity e with
  | question_asked, info => true
  | _, _ => false
  end.

Definition not_negative (e : TimelineEvent) : bool :=
  Qle_bool 0 (timestamp e).

(** A question asked before the camera is granted, and an answer after. *)
Definition before_the_camera : list (Z * page_event) :=
  [(1000, Question "Tell me about yourself" 1)].

Definition after_the_camera : list (Z * page_event) :=
  [(2000, Results [("Um, I led", true)]); (2600, Question "Why?" 2);
   (9000, Results [("uh thanks", true)])].

End Session.

(** ** app/interview/[sessionId]/interview_layout.tsx: a run of the turn
    detector of the page built on the hooks *)
Module LayoutRun.

Import VoiceInterview.
Import InterviewLayout.

(** Final transcripts heard at given times, as [onTranscript(text, true)];
    between two of them the timers that have become due fire. *)
Definition hear (ws : option socket_ref) (fragments : list (Z * string))
  (l : layout) : layout :=
  fold_left
    (fun l f => handleTranscript ws (fst f) (snd f) true (advance (fst f) l))
    fragments l.

Definition horizon (l : layout) : Z :=
  fold_left Z.max (map Timers.due (Timers.pending (timers l))) 0.

(** Silence from now on: every pending timer elapses. *)
Definition settle (l : layout) : layout := advance (horizon l) l.

(** One silence timer is pending, the one [silenceTimerRef] names, due
    2500 ms after [last]; the buffer holds the current group after a blank
    prefix; the socket is open. *)
Record armed (ws : option socket_ref) (last : Z) (group : list string)
  (l : layout) : Prop := {
  armed_buffer : exists blank,
    JS.all_white blank = true /\
    transcriptBufferRef l = (blank ++ InterviewPage.spoken group)%string;
  armed_timer : exists h,
    silenceTimerRef l = Some h /\
    Timers.pending (timers l)
    = [{| Timers.handle := h; Timers.due := last + 2500;
          Timers.closure := ws |}];
  armed_open : readyState (net (voice l)) = OPEN
}.

(** Nothing pending, a blank buffer, the socket open. *)
Record idle (l : layout) : Prop := {
  idle_buffer : JS.all_white (transcriptBufferRef l) = true;
  idle_timer : Timers.pending (timers l) = [];
  idle_open : readyState (net (voice l)) = OPEN
}.

(** Every pending timer is the one [silenceTimerRef] names; there is one
    at most. *)
Definition single (l : layout) : Prop :=
  (List.length (Timers.pending (timers l)) <= 1)%nat /\
  forall tm, In tm (Timers.pending (timers l)) ->
    silenceTimerRef l = Some (Timers.handle tm).

(** The event [videoRecorder.logEvent] stores for a filler word. *)
Definition filler_event (now : Z) (l : layout) (word : string)
  : InterviewPage.TimelineEvent :=
  {| InterviewPage.timestamp := inject_Z (now - startTimeRef l) / 1000;
     InterviewPage.type := InterviewPage.filler_word;
     InterviewPage.data := InterviewPage.data_word word;
     InterviewPage.severity := InterviewPage.warning |}.

End LayoutRun.

(** ** hooks/useSpeechRecognition.ts (browser): a recogniser that keeps
    ending *)
Module BrowserSpeechRuns.

Import BrowserSpeech.

(** The recogniser ends three times, two seconds apart, and is restarted
    each time; the last restart has been made by the time 6000. *)
Definition three_restarts : list (Z * event) :=
  [(0, RecognizerEnds); (2000, RecognizerEnds); (4000, RecognizerEnds);
   (6000, Wait)].

End BrowserSpeechRuns.

(** ** hooks/useSpeechRecognition.ts (Azure): runs of the hook *)
Module AzureSpeechRuns.

Import AzureSpeech.

(** [restartTimeoutRef] and the timers agree: the ref is null and nothing
    is pending, or it names the one timer that is. *)
Definition in_step (h : hook) : Prop :=
  match restartTimeoutRef h with
  | None => Timers.pending (timers h) = []
  | Some t =>
      exists due,
        Timers.pending (timers h)
        = [{| Timers.handle := t; Timers.due := due; Timers.closure := tt |}]
  end.

(** What the recognisers, the SDK loader and the clock do on their own. *)
Definition platform_event (te : Z * event) : bool :=
  match snd te with
  | Render _ | Unmount | Stop => false
  | _ => true
  end.

(** A hook that is capturing, or about to: enabled, not stopped, the
    service configured, no restart pending and no start in flight. *)
Record running (h : hook) : Prop := {
  running_enabled : enabledRef h = true;
  running_not_stopped : manuallyStoppedRef h = false;
  running_configured : config_present h = true;
  running_no_restart : restartTimeoutRef h = None;
  running_no_timer : Timers.pending (timers h) = [];
  running_loaded : loading h = 0%nat
}.

(** A hook that was started and whose session has begun. *)
Definition in_session : hook :=
  run [(0, SdkLoaded true); (0, StartSettled 0 true); (0, SessionStarted)]
    (mount true true).

End AzureSpeechRuns.

(** ** app/interview/[sessionId]/interview_layout.tsx: the page of the
    typed interview (the [InterviewPage]s with an answer box)

    The answer box, the countdown and the clock display; the camera and
    the router are not part of what follows. *)
Module TextInterview.

Import VoiceInterview.

(** [Number.MAX_SAFE_INTEGER]: up to it, in either direction, the numbers
    of the platform are the integers and their arithmetic is exact. *)
Definition MAX_SAFE_INTEGER : Z := 9007199254740991.

Definition is_safe (n : Z) : bool :=
  (- MAX_SAFE_INTEGER <=? n) && (n <=? MAX_SAFE_INTEGER).

(** [n.toString()] for a safe integer [n]: its decimal digits. Beyond the
    safe integers the platform's numbers are no longer the integers (and
    from 1e21 on they are printed with an exponent): they are outside this
    model, [None]. *)
Definition toString (n : Z) : option string :=
  if is_safe n then Some (NilZero.string_of_int (Z.to_int n)) else None.

(** [s.padStart(targetLength, pad)] for a one-character [pad]. *)
Definition padStart (targetLength : nat) (pad : ascii) (s : string) : string :=
  (string_of_list_ascii (repeat pad (targetLength - String.length s)) ++ s)%string.

(** [formatTime]: [Math.floor(seconds / 60)], a colon, and [seconds % 60]
    padded to two characters. [%] takes the sign of [seconds]. On a safe
    integer the quotient is rounded to a number whose floor is the floor
    of the exact quotient. *)
Definition formatTime (seconds : Z) : option string :=
  if is_safe seconds then
    match toString (seconds / 60), toString (Z.rem seconds 60) with
    | Some mins, Some secs =>
        Some (mins ++ ":" ++ padStart 2 "0" secs)%string
    | _, _ => None
    end
  else None.

(** The decimal digit [d]. *)
Definition digit (d : Z) : ascii := ascii_of_nat (48 + Z.to_nat d).

(** [answer.split(' ').filter(Boolean).length] *)
Definition word_count (answer : string) : nat :=
  List.length (filter JS.truthy (JS.split JS.space answer)).

(** The number of runs of characters other than the space, read from left
    to right; [in_word] says whether the previous character was part of
    one. *)
Fixpoint runs (in_word : bool) (s : string) : nat :=
  match s with
  | EmptyString => 0
  | String c s' =>
      if Ascii.eqb c JS.space then runs false s'
      else ((if in_word then 0 else 1) + runs true s')%nat
  end.

(** What this page sends. *)
Inductive outbound : Type :=
| text_answer (data : string)
| end_request.

Record socket : Type := { readyState : ReadyState; sent : list outbound }.

(** The answer box and the connection: the [answer] and [ws] of the render
    whose button was pressed, and the socket as the platform holds it. *)
Record form : Type := {
  answer : string;
  ws : option socket_ref;
  net : socket;
  uncaught : list error
}.

(** [ws.send]: a socket that is still connecting throws, one that is
    closing or closed discards the data. *)
Definition ws_send (o : outbound) (s : socket) : result socket :=
  match readyState s with
  | OPEN => Ok {| readyState := OPEN; sent := sent s ++ [o] |}
  | CONNECTING => Throw InvalidStateError
  | _ => Ok s
  end.

(** [sendAnswer] *)
Definition sendAnswer (f : form) : form :=
  if JS.truthy (JS.trim (answer f)) then
    match ws f with
    | Some _ =>
        match ws_send (text_answer (JS.trim (answer f))) (net f) with
        | Ok s =>
            {| answer := ""; ws := ws f; net := s; uncaught := uncaught f |}
        | Throw e =>
            {| answer := answer f; ws := ws f; net := net f;
               uncaught := uncaught f ++ [e] |}
        end
    | None => f
    end
  else f.

(** [setAnswer(e.target.value)] *)
Definition setAnswer (text : string) (f : form) : form :=
  {| answer := text; ws := ws f; net := net f; uncaught := uncaught f |}.

Inductive form_event : Type :=
| Typing (text : string)
| Submit.

Definition form_step (f : form) (e : form_event) : form :=
  match e with
  | Typing text => setAnswer text f
  | Submit => sendAnswer f
  end.

(** An answer as the server expects it: text with something to say and no
    white space at either end. *)
Definition is_answer (o : outbound) : bool :=
  match o with
  | text_answer data => JS.truthy data && String.eqb (JS.trim data) data
  | end_request => false
  end.

(** *** The countdown *)

(** The time left, the status the effect depends on, and whether the
    interval the effect has set is running. *)
Record clock : Type := {
  status : session_status;
  timeRemaining : Z;
  interval : bool
}.

Definition is_active (s : session_status) : bool :=
  match s with
  | active => true
  | _ => false
  end.

Definition same_status (a b : session_status) : bool :=
  match a, b with
  | connecting, connecting | ready, ready | active, active | ended, ended =>
      true
  | _, _ => false
  end.

(** The page as it is first rendered. *)
Definition initial_clock : clock :=
  {| status := connecting; timeRemaining := 480; interval := false |}.

(** [setStatus(s)]: when the status changes the effect that depends on it
    is cleaned up (its interval is cleared) and run again (an interval is
    set if the status is [active]). *)
Definition setStatus (s : session_status) (c : clock) : clock :=
  if same_status s (status c) then c
  else {| status := s; timeRemaining := timeRemaining c;
          interval := is_active s |}.

(** The interval fires, in the first version of the page: the updater
    clears the interval when no time is left. *)
Definition tick (c : clock) : clock :=
  if interval c then
    if timeRemaining c <=? 0
    then {| status := status c; timeRemaining := 0; interval := false |}
    else {| status := status c; timeRemaining := timeRemaining c - 1;
            interval := true |}
  else c.

(** The interval fires, in the second version: [Math.max(0, prev - 1)]. *)
Definition tick_max (c : clock) : clock :=
  if interval c then
    {| status := status c; timeRemaining := Z.max 0 (timeRemaining c - 1);
       interval := true |}
  else c.

Inductive clock_event : Type :=
| SetStatus (s : session_status)
| Tick.

Definition clock_step (fire : clock -> clock) (c : clock) (e : clock_event)
  : clock :=
  match e with
  | SetStatus s => setStatus s c
  | Tick => fire c
  end.

Definition clock_run (fire : clock -> clock) (tr : list clock_event)
  (c : clock) : clock :=
  fold_left (clock_step fire) tr c.

(** How the two versions of the page stand to each other: the same
    status and time, the interval of the second running exactly while the
    status is [active], and that of the first as well unless no time is
    left. *)
Definition alike (a b : clock) : Prop :=
  status a = status b /\ timeRemaining a = timeRemaining b /\
  0 <= timeRemaining a /\ interval b = is_active (status b) /\
  (interval a = interval b \/ (timeRemaining a = 0 /\ interval a = false)).

(** The seconds that were counted: the ticks that came while the status
    was [active]. *)
Fixpoint counted (s : session_status) (tr : list clock_event) : Z :=
  match tr with
  | [] => 0
  | SetStatus s' :: tr' => counted s' tr'
  | Tick :: tr' => (if is_active s then 1 else 0) + counted s tr'
  end.

End TextInterview.

(** ** hooks/useSpeechRecognition.ts (Azure): the delivery of transcripts *)
Module AzureTranscripts.

Import AzureSpeech.

Inductive ResultReason : Type := RecognizedSpeech | NoMatch | OtherResult.

(** What the hook calls on the page. *)
Inductive callback : Type :=
| onSpeakingChange (speaking : bool)
| onTranscript (text : string) (isFinal : bool).

(** [event?.result?.text?.trim?.() ?? ''] *)
Definition result_text (text : option string) : string :=
  match text with
  | Some t => JS.trim t
  | None => ""
  end.

(** [recognizer.recognizing]: an interim result. *)
Definition recognizing (text : option string) (h : hook)
  : hook * list callback :=
  let text := result_text text in
  if negb (JS.truthy text) then (h, [])
  else (set_status true (error h) h,
        [onSpeakingChange true; onTranscript text false]).

(** [recognizer.recognized]: a final result. *)
Definition recognized (reason : option ResultReason) (text : option string)
  (h : hook) : hook * list callback :=
  let text := result_text text in
  (h,
   (match reason with
    | Some RecognizedSpeech =>
        if JS.truthy text then [onTranscript text true] else []
    | _ => []
    end) ++ [onSpeakingChange false]).

Inductive result_event : Type :=
| Recognizing (text : option string)
| Recognized (reason : option ResultReason) (text : option string).

Definition deliver (e : result_event) (h : hook) : hook * list callback :=
  match e with
  | Recognizing text => recognizing text h
  | Recognized reason text => recognized reason text h
  end.

(** The callbacks of a run of results, in order. *)
Fixpoint delivered (es : list result_event) (h : hook) : list callback :=
  match es with
  | [] => []
  | e :: es' => snd (deliver e h) ++ delivered es' (fst (deliver e h))
  end.

(** A transcript with something to say and no white space at either end;
    a change of the speaking flag is fine as it is. *)
Definition tidy (c : callback) : bool :=
  match c with
  | onSpeakingChange _ => true
  | onTranscript text _ => JS.truthy text && String.eqb (JS.trim text) text
  end.

Definition final_text (c : callback) : option string :=
  match c with
  | onTranscript text true => Some text
  | _ => None
  end.

(** The final transcripts among the callbacks. *)
Fixpoint finals (cs : list callback) : list string :=
  match cs with
  | [] => []
  | c :: cs' =>
      match final_text c with
      | Some t => t :: finals cs'
      | None => finals cs'
      end
  end.

(** The text a result is expected to give: that of a recognised phrase
    with more than white space, trimmed. *)
Definition phrase (e : result_event) : option string :=
  match e with
  | Recognized (Some RecognizedSpeech) (Some t) =>
      if JS.all_white t then None else Some (JS.trim t)
  | _ => None
  end.

Fixpoint phrases (es : list result_event) : list string :=
  match es with
  | [] => []
  | e :: es' =>
      match phrase e with
      | Some t => t :: phrases es'
      | None => phrases es'
      end
  end.

End AzureTranscripts.

(** ** utils/browserCheck.ts *)
Module BrowserCheck.

(** What the page looks for in [window] and [navigator]. *)
Record platform : Type := {
  SpeechRecognition : bool;
  webkitSpeechRecognition : bool;
  mediaDevices : bool;
  getUserMedia : bool;          (* navigator.mediaDevices.getUserMedia *)
  AudioContext : bool;
  webkitAudioContext : bool;
  MediaRecorder : bool;
  userAgent : string
}.

Definition push_if (missing : bool) (issue : string) (issues : list string)
  : list string :=
  if missing then issues ++ [issue] else issues.

(** [checkBrowserSupport]: whether all is there, and the issues. *)
Definition checkBrowserSupport (w : platform) : bool * list string :=
  let issues := [] in
  let issues :=
    push_if (negb (SpeechRecognition w || webkitSpeechRecognition w))
      "Speech recognition not supported. Use Chrome or Edge." issues in
  let issues :=
    push_if (negb (mediaDevices w) || negb (getUserMedia w))
      "Camera/microphone access not supported." issues in
  let issues :=
    push_if (negb (AudioContext w || webkitAudioContext w))
      "Audio playback not supported." issues in
  let issues :=
    push_if (negb (MediaRecorder w)) "Video recording not supported."
      issues in
  (Nat.eqb (List.length issues) 0, issues).

(** [s.includes(t)] *)
Definition includes (s t : string) : bool := AzureSpeech.text_includes t s.

Definition getBrowserName (w : platform) : string :=
  let userAgent := userAgent w in
  if includes userAgent "Chrome" && negb (includes userAgent "Edg")
  then "Chrome"
  else if includes userAgent "Edg" then "Edge"
  else if includes userAgent "Firefox" then "Firefox"
  else if includes userAgent "Safari" && negb (includes userAgent "Chrome")
  then "Safari"
  else "Unknown".

(** The capabilities the interview needs, one per check. *)
Definition capabilities (w : platform) : list bool :=
  [SpeechRecognition w || webkitSpeechRecognition w;
   mediaDevices w && getUserMedia w;
   AudioContext w || webkitAudioContext w;
   MediaRecorder w].

Definition with_agent (ua : string) : platform :=
  {| SpeechRecognition := false; webkitSpeechRecognition := true;
     mediaDevices := true; getUserMedia := true; AudioContext := true;
     webkitAudioContext := false; MediaRecorder := true; userAgent := ua |}.

End BrowserCheck.

(** ** utils/audioUtils.ts: class MicrophoneRecorder *)
Module MicrophoneRecorder.

(** The recorder and, of the platform, the frame requests that are
    pending, oldest first. Requests are numbered from 1, so a request id is
    truthy. *)
Record recorder : Type := {
  audioContext : bool;          (* the context is there (not null) *)
  analyser : bool;              (* the analyser is there *)
  animationFrame : nat;
  onLevelChange : bool;         (* a handler is set *)
  pending_frames : list nat;
  next_frame : nat;
  levels : list Q;              (* the calls of onLevelChange *)
  uncaught : list error
}.

Definition new_recorder : recorder :=
  {| audioContext := false; analyser := false; animationFrame := 0;
     onLevelChange := false; pending_frames := []; next_frame := 1;
     levels := []; uncaught := [] |}.

(** [dataArray.reduce((a, b) => a + b)]: without an initial value, an
    empty array throws. *)
Definition reduce_sum (dataArray : list Z) : result Z :=
  match dataArray with
  | [] => Throw TypeError
  | a :: rest => Ok (fold_left Z.add rest a)
  end.

(** The average the monitor computes from the analyser's bytes. *)
Definition average (dataArray : list Z) : result Q :=
  s <- reduce_sum dataArray ;;
  Ok (inject_Z s / inject_Z (Z.of_nat (List.length dataArray)))%Q.

(** [update], with the bytes [getByteFrequencyData] fills in. *)
Definition update (dataArray : list Z) (r : recorder) : recorder :=
  if negb (analyser r) then r
  else
    match average dataArray with
    | Throw e =>
        {| audioContext := audioContext r; analyser := analyser r;
           animationFrame := animationFrame r;
           onLevelChange := onLevelChange r;
           pending_frames := pending_frames r; next_frame := next_frame r;
           levels := levels r; uncaught := uncaught r ++ [e] |}
    | Ok level =>
        {| audioContext := audioContext r; analyser := analyser r;
           animationFrame := next_frame r;
           onLevelChange := onLevelChange r;
           pending_frames := pending_frames r ++ [next_frame r];
           next_frame := S (next_frame r);
           levels := if onLevelChange r then levels r ++ [level]
                     else levels r;
           uncaught := uncaught r |}
    end.

(** [initialize]: the context and the analyser are made and the monitor
    takes its first reading. *)
Definition initialize (dataArray : list Z) (r : recorder) : recorder :=
  update dataArray
    {| audioContext := true; analyser := true;
       animationFrame := animationFrame r; onLevelChange := onLevelChange r;
       pending_frames := pending_frames r; next_frame := next_frame r;
       levels := levels r; uncaught := uncaught r |}.

(** The platform runs the oldest frame that was requested. *)
Definition frame (dataArray : list Z) (r : recorder) : recorder :=
  match pending_frames r with
  | _ :: others =>
      update dataArray
        {| audioContext := audioContext r; analyser := analyser r;
           animationFrame := animationFrame r;
           onLevelChange := onLevelChange r; pending_frames := others;
           next_frame := next_frame r; levels := levels r;
           uncaught := uncaught r |}
  | [] => r
  end.

(** [stop]: the frame [animationFrame] names is cancelled, the context is
    closed and forgotten. *)
Definition stop (r : recorder) : recorder :=
  {| audioContext := false; analyser := analyser r;
     animationFrame := animationFrame r; onLevelChange := onLevelChange r;
     pending_frames :=
       match animationFrame r with
       | O => pending_frames r
       | S _ =>
           filter (fun id => negb (Nat.eqb id (animationFrame r)))
             (pending_frames r)
       end;
     next_frame := next_frame r; levels := levels r;
     uncaught := uncaught r |}.

(** [recorder.onLevelChange = handler] *)
Definition set_handler (r : recorder) : recorder :=
  {| audioContext := audioContext r; analyser := analyser r;
     animationFrame := animationFrame r; onLevelChange := true;
     pending_frames := pending_frames r; next_frame := next_frame r;
     levels := levels r; uncaught := uncaught r |}.

Inductive event : Type :=
| Initialize (dataArray : list Z)
| SetHandler
| Frame (dataArray : list Z)
| Stop.

Definition step (r : recorder) (e : event) : recorder :=
  match e with
  | Initialize d => initialize d r
  | SetHandler => set_handler r
  | Frame d => frame d r
  | Stop => stop r
  end.

Definition run (tr : list event) (r : recorder) : recorder :=
  fold_left step tr r.

Definition is_byte (b : Z) : bool := (0 <=? b) && (b <=? 255).

(** The analyser has [fftSize = 256], hence 128 bins of one byte each. *)
Definition bins (dataArray : list Z) : bool :=
  Nat.eqb (List.length dataArray) 128 && forallb is_byte dataArray.

(** Frames run and the page sets its handler; the bytes are the
    analyser's. *)
Definition monitoring (e : event) : bool :=
  match e with
  | Frame d => bins d
  | SetHandler => true
  | _ => false
  end.

(** A level the meter can show. *)
Definition in_range (level : Q) : bool :=
  Qle_bool 0 level && Qle_bool level 255.

(** One loop at most: the frame that is pending, if any, is the one
    [animationFrame] names. *)
Definition one_loop (r : recorder) : Prop :=
  pending_frames r = []
  \/ (pending_frames r = [animationFrame r] /\ animationFrame r <> 0%nat).

(** *** What the meter is expected to show *)

(** The mean of the analyser's 128 bins. *)
Definition mean (dataArray : list Z) : Q :=
  inject_Z (fold_left Z.add dataArray 0) / 128.

(** The readings taken while a handler is set: [handler] says whether one
    is set at the start. *)
Fixpoint reported (handler : bool) (tr : list event) : list (list Z) :=
  match tr with
  | [] => []
  | SetHandler :: tr' => reported true tr'
  | Frame dataArray :: tr' =>
      (if handler then [dataArray] else []) ++ reported handler tr'
  | _ :: tr' => reported handler tr'
  end.

(** The loop is running: the analyser is there and one frame is
    pending. *)
Definition looping (r : recorder) : Prop :=
  analyser r = true /\ exists f, pending_frames r = [f].

Definition silence : list Z := repeat 0 128.

Definition loud : list Z := repeat 255 128.

End MicrophoneRecorder.

(** ** hooks/useVideoRecorder.ts *)
Module VideoRecorder.

Import InterviewPage.

(** The hook's refs; a chunk is known by its size in bytes. *)
Record hook : Type := {
  mediaRecorderRef : bool;      (* the ref holds a recorder *)
  chunksRef : list Z;
  timelineRef : list TimelineEvent;
  startTimeRef : Z;
  isRecording : bool
}.

Definition initial : hook :=
  {| mediaRecorderRef := false; chunksRef := []; timelineRef := [];
     startTimeRef := 0; isRecording := false |}.

(** [startRecording] at time [now], when the recorder can be made. *)
Definition startRecording (now : Z) (h : hook) : hook :=
  {| mediaRecorderRef := true; chunksRef := chunksRef h;
     timelineRef := timelineRef h; startTimeRef := now;
     isRecording := true |}.

(** [mediaRecorder.ondataavailable] *)
Definition ondataavailable (size : Z) (h : hook) : hook :=
  if 0 <? size then
    {| mediaRecorderRef := mediaRecorderRef h;
       chunksRef := chunksRef h ++ [size]; timelineRef := timelineRef h;
       startTimeRef := startTimeRef h; isRecording := isRecording h |}
  else h.

(** [logEvent] at time [now]. *)
Definition logEvent (now : Z) (type : event_type) (data : event_data)
  (severity : severity_level) (h : hook) : hook :=
  {| mediaRecorderRef := mediaRecorderRef h; chunksRef := chunksRef h;
     timelineRef :=
       timelineRef h
       ++ [{| timestamp := inject_Z (now - startTimeRef h) / 1000;
              InterviewPage.type := type; InterviewPage.data := data;
              InterviewPage.severity := severity |}];
     startTimeRef := startTimeRef h; isRecording := isRecording h |}.

(** [getDuration] at time [now]: [Math.floor((now - start) / 1000)]. *)
Definition getDuration (now : Z) (h : hook) : Z :=
  (now - startTimeRef h) / 1000.

(** The size of [new Blob(chunks)]. *)
Definition blob_size (chunks : list Z) : Z := fold_left Z.add chunks 0.

(** [stopRecording], up to the blob it resolves with: without a recorder
    an empty blob at once, otherwise the chunks gathered when the recorder
    has stopped. *)
Definition stopRecording (h : hook) : hook * Z :=
  if negb (mediaRecorderRef h) then (h, blob_size [])
  else
    ({| mediaRecorderRef := mediaRecorderRef h; chunksRef := chunksRef h;
        timelineRef := timelineRef h; startTimeRef := startTimeRef h;
        isRecording := false |},
     blob_size (chunksRef h)).

Inductive event : Type :=
| Data (size : Z)
| Log (now : Z) (type : event_type) (data : event_data)
    (severity : severity_level).

Definition step (h : hook) (e : event) : hook :=
  match e with
  | Data size => ondataavailable size h
  | Log now type data severity => logEvent now type data severity h
  end.

Definition run (tr : list event) (h : hook) : hook := fold_left step tr h.

(** The bytes the recorder delivered. *)
Fixpoint delivered (tr : list event) : Z :=
  match tr with
  | [] => 0
  | Data size :: tr' => size + delivered tr'
  | Log _ _ _ _ :: tr' => delivered tr'
  end.

(** What the platform does during a recording that runs from [start] to
    [stop]: the blobs it delivers have a size, and the clock stays between
    the two. *)
Definition during (start stop : Z) (e : event) : bool :=
  match e with
  | Data size => 0 <=? size
  | Log now _ _ _ => (start <=? now) && (now <=? stop)
  end.

(** An event stamped within a recording of [duration] whole seconds. *)
Definition within (duration : Z) (e : TimelineEvent) : bool :=
  Qle_bool 0 (timestamp e)
  && negb (Qle_bool (inject_Z (duration + 1)) (timestamp e)).

Definition a_recording : list event :=
  [Data 1200; Log 1500 filler_word (data_word "um") warning; Data 0;
   Data 800; Log 10700 filler_word (data_word "like") warning; Data 400].

End VideoRecorder.

(** ** hooks/useVoiceInterview.ts: connecting and cleaning up *)
Module VoiceConnection.

Import VoiceInterview.

(** [connect], for a page whose [localStorage] holds [token]: without a
    token it throws [Error('No token')] before anything is made ([None]);
    otherwise the hook has a new player and a socket that is connecting. *)
Definition connect (in_browser : bool) (token : option string)
  (w : hook) : option hook :=
  match token with
  | Some t =>
      if JS.truthy t then
        Some {| state := state w;
                audioPlayerRef := Some (AudioPlayer.new_player in_browser);
                net := {| readyState := CONNECTING; sent := [] |};
                console := console w; notified := notified w |}
      else None
  | None => None
  end.

(** The socket's [open] event: a connecting socket becomes open. *)
Definition onopen (w : hook) : hook :=
  {| state := state w; audioPlayerRef := audioPlayerRef w;
     net := {| readyState := match readyState (net w) with
                             | CONNECTING => OPEN
                             | s => s
                             end;
               sent := sent (net w) |};
     console := console w; notified := notified w |}.

(** [ws.close()] *)
Definition ws_close (s : WebSocket) : WebSocket :=
  {| readyState := match readyState s with
                   | CLOSED => CLOSED
                   | _ => CLOSING
                   end;
     sent := sent s |}.

(** [cleanup], as made by a render whose [ws] state is [ws]. *)
Definition cleanup (ws : option socket_ref) (w : hook) : hook :=
  {| state := state w; audioPlayerRef := None;
     net := match ws with
            | Some _ => ws_close (net w)
            | None => net w
            end;
     console := console w; notified := notified w |}.

(** The player as [cleanup] leaves it: closed, and no longer referred
    to. *)
Definition released (w : hook) : option AudioPlayer.player :=
  option_map AudioPlayer.close (audioPlayerRef w).

(** What the page may still call and what may still arrive. *)
Inductive event : Type :=
| Open
| Message (m : message)
| SendTranscript (ws : option socket_ref) (transcript : string)
| EndInterview (ws : option socket_ref)
| Cleanup (ws : option socket_ref).

Definition step (w : hook) (e : event) : hook :=
  match e with
  | Open => onopen w
  | Message m => handleMessage m w
  | SendTranscript ws transcript => sendTranscript ws transcript w
  | EndInterview ws => endInterview ws w
  | Cleanup ws => cleanup ws w
  end.

Definition run (tr : list event) (w : hook) : hook := fold_left step tr w.

(** The [ai_audio] messages among the events. *)
Definition is_audio (e : event) : bool :=
  match e with
  | Message (msg_ai_audio _) => true
  | _ => false
  end.

(** The times the hook logged "No AudioPlayer instance!". *)
Definition no_player_logs (w : hook) : nat :=
  List.length
    (filter (fun l => match l with error_no_player => true | _ => false end)
       (console w)).

(** A socket that is closing or closed. *)
Definition shut (s : WebSocket) : bool :=
  match readyState s with
  | CLOSING | CLOSED => true
  | _ => false
  end.

(** A hook before [connect], and the one [connect] makes in a browser. *)
Definition unconnected : hook :=
  {| state := initial_state; audioPlayerRef := None;
     net := {| readyState := CLOSED; sent := [] |};
     console := []; notified := [] |}.

Definition connecting : hook :=
  {| state := initial_state;
     audioPlayerRef := Some (AudioPlayer.new_player true);
     net := {| readyState := CONNECTING; sent := [] |};
     console := []; notified := [] |}.

End VoiceConnection.

(** ** lib/store.ts and lib/api.ts: the token *)
Module Auth.

Record User : Type := { id : Z; email : string; full_name : string }.

(** The auth store, the API client and the browser's storage. *)
Record world : Type := {
  user : option User;
  isAuthenticated : bool;
  token : option string;            (* ApiClient.token *)
  stored : option string            (* localStorage.getItem('token') *)
}.

(** The store as created and [new ApiClient()] in a browser whose storage
    holds [stored]. *)
Definition start (stored : option string) : world :=
  {| user := None; isAuthenticated := false; token := stored;
     stored := stored |}.

(** [setUser(user)]: [isAuthenticated] is [!!user]. *)
Definition setUser (u : option User) (w : world) : world :=
  {| user := u;
     isAuthenticated := match u with Some _ => true | None => false end;
     token := token w; stored := stored w |}.

(** [logout] of the store. *)
Definition logout (w : world) : world :=
  {| user := None; isAuthenticated := false; token := token w;
     stored := None |}.

(** [ApiClient.setToken] *)
Definition setToken (t : string) (w : world) : world :=
  {| user := user w; isAuthenticated := isAuthenticated w;
     token := Some t; stored := Some t |}.

(** [ApiClient.clearToken] *)
Definition clearToken (w : world) : world :=
  {| user := user w; isAuthenticated := isAuthenticated w;
     token := None; stored := None |}.

(** The [Authorization] header [request] adds: none without a token, and
    none for an empty one. *)
Definition authorization (w : world) : option string :=
  match token w with
  | Some t => if JS.truthy t then Some ("Bearer " ++ t)%string else None
  | None => None
  end.

Inductive event : Type :=
| SetUser (u : option User)
| Logout
| SetToken (t : string)
| ClearToken.

Definition step (w : world) (e : event) : world :=
  match e with
  | SetUser u => setUser u w
  | Logout => logout w
  | SetToken t => setToken t w
  | ClearToken => clearToken w
  end.

Definition run (tr : list event) (w : world) : world := fold_left step tr w.

Definition is_logout (e : event) : bool :=
  match e with
  | Logout => true
  | _ => false
  end.

End Auth.

(** * Facts

    The modules above are the code; what follows is proved of them, one
    module of facts per module of code. *)

Module JSFacts.

Import JS.

(** *** Facts about strings *)

Lemma append_assoc (a b c : string) :
  ((a ++ b) ++ c)%string = (a ++ (b ++ c))%string.
Proof. induction a as [|x a IH]; simpl; [reflexivity | rewrite IH; reflexivity]. Qed.

Lemma append_empty_r (a : string) : (a ++ "")%string = a.
Proof. induction a as [|x a IH]; simpl; [reflexivity | rewrite IH; reflexivity]. Qed.

Lemma all_white_append (a b : string) :
  all_white (a ++ b) = all_white a && all_white b.
Proof.
  induction a as [|x a IH]; simpl; [reflexivity|].
  rewrite IH, andb_assoc. reflexivity.
Qed.

Lemma trimStart_blank_prefix (blank s : string) :
  all_white blank = true -> trimStart (blank ++ s) = trimStart s.
Proof.
  induction blank as [|x blank IH]; simpl; [reflexivity|].
  intros H. apply andb_true_iff in H as [Hx Hb]. rewrite Hx. exact (IH Hb).
Qed.

Lemma trim_blank_prefix (blank s : string) :
  all_white blank = true -> trim (blank ++ s) = trim s.
Proof. intros H. unfold trim. rewrite trimStart_blank_prefix; auto. Qed.

Lemma trimStart_blank (s : string) :
  all_white s = true -> trimStart s = "".
Proof.
  induction s as [|x s IH]; simpl; [reflexivity|].
  intros H. apply andb_true_iff in H as [Hx Hs]. rewrite Hx. exact (IH Hs).
Qed.

Lemma trimStart_head (s : string) :
  all_white s = false ->
  exists c rest, trimStart s = String c rest /\ is_white c = false.
Proof.
  induction s as [|x s IH]; simpl; [discriminate|].
  destruct (is_white x) eqn:Hx; simpl.
  - exact IH.
  - intros _. exists x, s. split; [reflexivity | exact Hx].
Qed.

(** A string trims to nothing exactly when it is blank. *)
Lemma trim_empty (s : string) : is_empty (trim s) = all_white s.
Proof.
  unfold trim. destruct (all_white s) eqn:Hs.
  - rewrite trimStart_blank; auto.
  - destruct (trimStart_head s Hs) as (c & rest & -> & Hc).
    simpl. rewrite Hc. reflexivity.
Qed.

Lemma split_not_nil (sep : ascii) (s : string) : split sep s <> [].
Proof.
  induction s as [|c s IH]; simpl; [discriminate|].
  destruct (Ascii.eqb c sep); [discriminate|].
  destruct (split sep s); [contradiction | discriminate].
Qed.

(** No token of [s.split(sep)] holds the separator. *)
Lemma split_tokens (sep : ascii) (s : string) :
  Forall (fun w => contains_char sep w = false) (split sep s).
Proof.
  induction s as [|c s IH]; simpl.
  - repeat constructor.
  - destruct (Ascii.eqb c sep) eqn:Hc.
    + constructor; [reflexivity | exact IH].
    + destruct (split sep s) as [|w ws]; inversion IH; subst.
      * repeat constructor. simpl. rewrite Hc. reflexivity.
      * constructor; [|assumption]. simpl. rewrite Hc. assumption.
Qed.

Lemma remove_chars_contains (cls : ascii -> bool) (c : ascii) (s : string) :
  contains_char c s = false -> contains_char c (remove_chars cls s) = false.
Proof.
  induction s as [|d s IH]; simpl; [reflexivity|].
  intros H. apply orb_false_iff in H as [Hd Hs].
  destruct (cls d); simpl; [auto | rewrite Hd; auto].
Qed.

End JSFacts.

Module AudioPlayerFacts.

Import AudioPlayer.

(** *** Facts about the decoder *)

Lemma value_range (c : ascii) (v : Z) :
  Base64.value c = Some v -> 0 <= v <= 63.
Proof.
  unfold Base64.value.
  repeat match goal with
         | |- context [if ?b then _ else _] => destruct b eqn:?
         end; intros H; inversion H; subst; lia.
Qed.

Lemma sextets_range (cs : list ascii) :
  forall vs, Base64.sextets cs = Some vs -> Forall (fun v => 0 <= v <= 63) vs.
Proof.
  induction cs as [|c cs IH]; simpl; intros vs H.
  - inversion H. constructor.
  - destruct (Base64.value c) eqn:Hc; [|discriminate].
    destruct (Base64.sextets cs) eqn:Hcs; [|discriminate].
    inversion H; subst. constructor; eauto using value_range.
Qed.

Lemma div_bound (a d k : Z) : 0 < d -> 0 <= a < d * k -> 0 <= a / d < k.
Proof.
  intros Hd Ha. split.
  - apply Z.div_pos; lia.
  - apply Z.div_lt_upper_bound; lia.
Qed.

Lemma bytes_of_sextets_range (n : nat) :
  forall l, (List.length l <= n)%nat -> Forall (fun v => 0 <= v <= 63) l ->
  Forall is_byte (Base64.bytes_of_sextets l).
Proof.
  unfold is_byte.
  induction n as [|n IH]; intros l Hlen Hall.
  - destruct l; [simpl; constructor | simpl in Hlen; lia].
  - destruct l as [|a [|b [|c [|d rest]]]]; simpl.
    + constructor.
    + constructor.
    + inversion Hall as [|? ? Ha Hl]; subst. inversion Hl; subst.
      constructor; [|constructor].
      assert (0 <= b / 16 < 4) by (apply div_bound; lia).
      lia.
    + inversion Hall as [|? ? Ha Hl]; subst.
      inversion Hl as [|? ? Hb Hl2]; subst. inversion Hl2; subst.
      assert (0 <= b / 16 < 4) by (apply div_bound; lia).
      assert (0 <= c / 4 < 16) by (apply div_bound; lia).
      assert (0 <= b mod 16 < 16) by (apply Z.mod_pos_bound; lia).
      repeat constructor; lia.
    + inversion Hall as [|? ? Ha Hl]; subst.
      inversion Hl as [|? ? Hb Hl2]; subst.
      inversion Hl2 as [|? ? Hc Hl3]; subst.
      inversion Hl3 as [|? ? Hd Hrest]; subst.
      assert (0 <= b / 16 < 4) by (apply div_bound; lia).
      assert (0 <= c / 4 < 16) by (apply div_bound; lia).
      assert (0 <= b mod 16 < 16) by (apply Z.mod_pos_bound; lia).
      assert (0 <= c mod 4 < 4) by (apply Z.mod_pos_bound; lia).
      constructor; [lia|]. constructor; [lia|]. constructor; [lia|].
      apply IH; [simpl in Hlen; lia | assumption].
Qed.

Lemma base64ToArrayBuffer_bytes (s : string) (bytes : list Z) :
  base64ToArrayBuffer s = Ok bytes -> Forall is_byte bytes.
Proof.
  unfold base64ToArrayBuffer, Base64.atob.
  set (cs := Base64.strip_padding _).
  destruct (Z.of_nat (List.length cs) mod 4 =? 1); [discriminate|].
  destruct (Base64.sextets cs) as [vs|] eqn:Hs; simpl; [|discriminate].
  intros H; inversion H; subst.
  eapply bytes_of_sextets_range; [apply Nat.le_refl | eauto using sextets_range].
Qed.

Lemma to_int16_range (u : Z) : 0 <= u <= 65535 -> is_int16 (to_int16 u).
Proof.
  unfold to_int16, is_int16. intros H.
  destruct (u <? 32768) eqn:E.
  - apply Z.ltb_lt in E. lia.
  - apply Z.ltb_ge in E. lia.
Qed.

Lemma Int16Array_range (n : nat) :
  forall bytes pcm16, (List.length bytes <= n)%nat -> Forall is_byte bytes ->
  Int16Array bytes = Ok pcm16 -> Forall is_int16 pcm16.
Proof.
  unfold is_byte.
  induction n as [|n IH]; intros bytes pcm16 Hlen Hall H.
  - destruct bytes; [|simpl in Hlen; lia]. inversion H. constructor.
  - destruct bytes as [|lo [|hi rest]]; cbn [Int16Array] in H.
    + inversion H. constructor.
    + discriminate.
    + destruct (Int16Array rest) as [tl|] eqn:Hrest; unfold bind in H;
        [|discriminate].
      assert (Hp : pcm16 = to_int16 (lo + 256 * hi) :: tl) by congruence.
      subst pcm16.
      inversion Hall as [|? ? Hlo Hl]; subst.
      inversion Hl as [|? ? Hhi Hl2]; subst.
      constructor.
      * apply to_int16_range. cbv beta in Hlo, Hhi. lia.
      * eapply (IH rest); [simpl in Hlen; lia | assumption | assumption].
Qed.

(** The quotient stored for a 16-bit sample lies in [-1, 1) and is
    [m * 2^-15] with a 16-bit [m]: a float32 (24-bit significand) holds it
    without rounding. *)
Lemma normalize_exact (s : Z) :
  is_int16 s ->
  (normalize s == inject_Z s * (1 # 32768))%Q /\
  (-1 <= normalize s)%Q /\ (normalize s < 1)%Q /\ Z.abs s < 2 ^ 24.
Proof.
  unfold is_int16, normalize. intros H.
  split; [|split; [|split]].
  - unfold Qdiv. apply Qeq_refl.
  - unfold Qle, Qdiv, Qmult, Qinv, inject_Z. cbn [Qnum Qden]. lia.
  - unfold Qlt, Qdiv, Qmult, Qinv, inject_Z. cbn [Qnum Qden]. lia.
  - change (2 ^ 24) with 16777216. lia.
Qed.

(** *** The playback invariant *)

Lemma cursor_snoc (tl : list playback) (e : playback) :
  cursor (tl ++ [e]) = advance (cursor tl) e.
Proof. unfold cursor. rewrite fold_left_app. reflexivity. Qed.

Lemma started_app (a b : list playback) :
  started (a ++ b) = started a ++ started b.
Proof.
  induction a as [|[id x|id] a IH]; simpl; [reflexivity | f_equal | ]; exact IH.
Qed.

Lemma calls_app (a b : list event) : calls (a ++ b) = calls a ++ calls b.
Proof.
  induction a as [|e a IH]; simpl; [reflexivity|].
  destruct e; simpl; rewrite ?IH; reflexivity.
Qed.

Lemma decoded_app (a b : list string) :
  decoded (a ++ b) = decoded a ++ decoded b.
Proof.
  induction a as [|c a IH]; simpl; [reflexivity|].
  destruct (decode (Some Context) c); simpl; rewrite IH; reflexivity.
Qed.

Lemma run_snoc (tr : list event) (e : event) (p : player) :
  run (tr ++ [e]) p = step (run tr p) e.
Proof. unfold run. rewrite fold_left_app. reflexivity. Qed.

Lemma sound_new : sound (new_player true).
Proof. constructor; simpl; auto. Qed.

Lemma sound_playChunk_call (c : string) (p : player) :
  sound p -> sound (playChunk_call c p).
Proof.
  intros [Hc Hd Hu Hs Hcur Hf Hi]. unfold playChunk_call. rewrite Hc.
  constructor; simpl; auto.
Qed.

Lemma sound_playChunk_resume (p : player) :
  sound p -> sound (playChunk_resume (Ok tt) p).
Proof.
  intros [Hc Hd Hu Hs Hcur Hf Hi]. unfold playChunk_resume.
  destruct (awaiting p) as [|c others]; [constructor; assumption|].
  unfold playChunk_body, set_awaiting. cbn [audioContext]. rewrite Hc.
  destruct (decode (Some Context) c) as [b|e].
  - cbn [push isPlaying]. destruct (isPlaying p) eqn:Hplay.
    + constructor; simpl; auto. discriminate.
    + unfold playNext. cbn [audioQueue audioContext push]. rewrite (Hi eq_refl).
      cbn [app]. rewrite ?Hc.
      assert (Hnil : sources p = []) by (destruct (sources p); [reflexivity | discriminate]).
      unfold now_playing in *. rewrite Hnil in Hcur.
      constructor; simpl; rewrite ?Hnil, ?cursor_snoc, ?Hcur; simpl;
        auto; try discriminate.
  - constructor; simpl; auto.
Qed.

Lemma sound_source_ended (id : nat) (p : player) :
  sound p -> sound (source_ended id p).
Proof.
  intros Hp. pose proof Hp as [Hc Hd Hu Hs Hcur Hf Hi]. unfold source_ended.
  destruct (existsb (is_source id) (sources p)) eqn:Hex; [|assumption].
  destruct (sources p) as [|[id' b'] [|s rest]] eqn:Hsrc;
    [discriminate | | simpl in Hs; lia].
  unfold is_source in *. simpl in Hex. rewrite orb_false_r in Hex.
  unfold now_playing in Hcur. rewrite Hsrc in Hcur.
  unfold playNext. simpl. rewrite Hex. simpl.
  assert (Hcur' : cursor (timeline p ++ [Finished id]) = Some None).
  { rewrite cursor_snoc, Hcur. simpl. rewrite Nat.eqb_sym, Hex. reflexivity. }
  destruct (audioQueue p) as [|b rest]; [|rewrite Hc].
  - constructor; simpl; auto.
  - constructor; simpl; auto.
    + rewrite cursor_snoc, Hcur'. reflexivity.
    + discriminate.
Qed.

Lemma sound_step (p : player) (e : event) :
  playback_event e = true -> sound p -> sound (step p e).
Proof.
  destruct e as [c|[[]|err]|id| |]; simpl; try discriminate; intros _.
  - apply sound_playChunk_call.
  - apply sound_playChunk_resume.
  - apply sound_source_ended.
Qed.

Lemma accounted_step (tr : list event) (p : player) (e : event) :
  playback_event e = true -> sound p -> accounted tr p ->
  accounted (tr ++ [e]) (step p e).
Proof.
  unfold accounted. intros He [Hc Hd Hu Hs Hcur Hf Hi] H.
  rewrite calls_app, decoded_app, <- H.
  destruct e as [c|[[]|err]|id| |]; simpl in He; try discriminate; simpl.
  - unfold playChunk_call. rewrite Hc. simpl.
    rewrite decoded_app. simpl. rewrite <- !app_assoc. reflexivity.
  - rewrite app_nil_r. unfold playChunk_resume.
    destruct (awaiting p) as [|c others] eqn:Haw; [rewrite Haw; reflexivity|].
    unfold playChunk_body, set_awaiting. cbn [audioContext]. rewrite Hc.
    simpl decoded.
    destruct (decode (Some Context) c) as [b|e]; [|reflexivity].
    cbn [push isPlaying]. destruct (isPlaying p) eqn:Hplay.
    + simpl. rewrite <- !app_assoc. reflexivity.
    + unfold playNext. cbn [audioQueue]. rewrite (Hi eq_refl). simpl.
      rewrite started_app. simpl. rewrite <- app_assoc. reflexivity.
  - rewrite app_nil_r. unfold source_ended.
    destruct (existsb (is_source id) (sources p)); [|reflexivity].
    unfold playNext. cbn [audioQueue audioContext]. rewrite Hc.
    destruct (audioQueue p) as [|b rest]; simpl.
    + rewrite started_app. simpl. rewrite app_nil_r. reflexivity.
    + rewrite !started_app. simpl. rewrite ?app_nil_r, <- ?app_assoc.
      reflexivity.
Qed.

Lemma playback_invariant (tr : list event) :
  forallb playback_event tr = true ->
  sound (run tr (new_player true)) /\ accounted tr (run tr (new_player true)).
Proof.
  induction tr as [|e tr IH] using rev_ind; intros Hall.
  - split; [apply sound_new | reflexivity].
  - rewrite forallb_app in Hall. apply andb_true_iff in Hall as [Htr He].
    simpl in He. rewrite andb_true_r in He.
    destruct (IH Htr) as [Hs Ha]. rewrite run_snoc. split.
    + apply sound_step; assumption.
    + apply accounted_step; assumption.
Qed.

(** *** Decoding *)

Lemma decode_buffer (ctx : option AudioContext) (c : string) (b : AudioBuffer) :
  decode ctx c = Ok b ->
  ctx = Some Context /\
  exists bytes pcm16,
    base64ToArrayBuffer c = Ok bytes /\ Int16Array bytes = Ok pcm16 /\
    Forall is_int16 pcm16 /\
    b = {| numberOfChannels := 1; frames := Z.of_nat (List.length pcm16);
           sampleRate := 24000; channelData := map normalize pcm16 |}.
Proof.
  unfold decode, pcm16ToAudioBuffer.
  destruct (base64ToArrayBuffer c) as [bytes|e] eqn:Hb; [|discriminate].
  cbn [bind]. destruct ctx as [[]|]; [|discriminate].
  destruct (Int16Array bytes) as [pcm16|e] eqn:Hp; [|discriminate].
  cbn [bind]. unfold createBuffer. rewrite length_map.
  destruct (_ && _); [|discriminate].
  intros H. split; [reflexivity|]. exists bytes, pcm16.
  repeat split; try congruence.
  eapply Int16Array_range;
    [apply Nat.le_refl | eapply base64ToArrayBuffer_bytes; eassumption | eassumption].
Qed.

Lemma uncaught_playNext_body (r : result unit) (c : string) (p : player) :
  match playChunk_body r c p with
  | Returned p' | Threw _ p' => uncaught p' = uncaught p
  end.
Proof.
  unfold playChunk_body. destruct r as [u|e]; [|reflexivity].
  destruct (decode (audioContext p) c) as [b|e]; [|reflexivity].
  destruct (isPlaying (push b p)); [reflexivity|].
  unfold playNext. destruct (audioQueue (push b p)); [reflexivity|].
  destruct (audioContext (push b p)); reflexivity.
Qed.

(** C8. A chunk that decodes gives a one-channel buffer at 24000 Hz whose
    sample [i] is the 16-bit signed sample [i] of the chunk divided by
    32768, and that buffer joins the playback order; a chunk that does not
    decode is given up alone: its error is logged and the queue, the playing
    flag, the sources and the timeline stay as they were, so the chunks
    after it play as usual; whatever happens, no exception leaves
    [playChunk]. *)
Theorem playChunk_decoding_contract (c : string) (p : player) :
  (forall b, decode (audioContext p) c = Ok b ->
     (exists bytes pcm16,
        base64ToArrayBuffer c = Ok bytes /\ Int16Array bytes = Ok pcm16 /\
        Forall is_int16 pcm16 /\
        numberOfChannels b = 1 /\ sampleRate b = 24000 /\
        frames b = Z.of_nat (List.length pcm16) /\
        forall i s, nth_error pcm16 i = Some s ->
          nth_error (channelData b) i = Some (inject_Z s / 32768)%Q) /\
     exists p',
       playChunk_body (Ok tt) c p = Returned p' /\
       started (timeline p') ++ audioQueue p'
         = started (timeline p) ++ audioQueue p ++ [b] /\
       console p' = console p) /\
  (forall e others, decode (audioContext p) c = Throw e ->
     awaiting p = c :: others ->
     playChunk_resume (Ok tt) p
       = console_error (log_audio_error e) (set_awaiting others p)) /\
  (forall r, uncaught (playChunk_resume r p) = uncaught p) /\
  (forall e good b, decode (Some Context) c = Throw e ->
     decode (Some Context) good = Ok b ->
     let q := run [PlayChunk c; PlayChunk good; Resume (Ok tt); Resume (Ok tt)]
                  (new_player true) in
     timeline q = [Started 0 b] /\ console q = [log_audio_error e]).
Proof.
  repeat split.
  - destruct (decode_buffer _ _ _ H) as [_ (bytes & pcm16 & Hb & Hp & Hr & ->)].
    exists bytes, pcm16. repeat split; try assumption.
    intros i s Hi. simpl. apply (map_nth_error normalize _ _ Hi).
  - destruct (decode_buffer _ _ _ H) as [Hc _].
    unfold playChunk_body. rewrite H. cbn [push isPlaying].
    destruct (isPlaying p).
    + eexists. split; [reflexivity|]. simpl. split; reflexivity.
    + unfold playNext. simpl.
      destruct (audioQueue p) as [|h rest]; simpl; rewrite Hc.
      * eexists. split; [reflexivity|]. simpl.
        rewrite started_app. simpl. rewrite app_nil_r. split; reflexivity.
      * eexists. split; [reflexivity|]. simpl.
        rewrite started_app. simpl. rewrite <- app_assoc. split; reflexivity.
  - intros e others He Ha. unfold playChunk_resume. rewrite Ha.
    unfold playChunk_body. cbn [set_awaiting audioContext]. rewrite He.
    reflexivity.
  - intros r. unfold playChunk_resume.
    destruct (awaiting p) as [|c' others]; [reflexivity|].
    pose proof (uncaught_playNext_body r c' (set_awaiting others p)) as H.
    destruct (playChunk_body r c' (set_awaiting others p)); simpl; exact H.
  - unfold run. simpl. unfold playChunk_resume. simpl.
    unfold playChunk_body. simpl. rewrite H. simpl.
    unfold playChunk_resume. simpl. unfold playChunk_body. simpl.
    rewrite H0. reflexivity.
  - unfold run. simpl. unfold playChunk_resume. simpl.
    unfold playChunk_body. simpl. rewrite H. simpl.
    unfold playChunk_resume. simpl. unfold playChunk_body. simpl.
    rewrite H0. reflexivity.
Qed.

Lemma playChunk_decoding_contract_witness :
  decode (Some Context) pcm_chunk
    = Ok {| numberOfChannels := 1; frames := 2; sampleRate := 24000;
            channelData := [normalize 0; normalize 32767] |} /\
  decode (Some Context) "AAD/fw=" = Throw InvalidCharacterError /\
  decode (Some Context) "AAAA" = Throw RangeError /\
  decode (Some Context) "" = Throw NotSupportedError /\
  (forall r, uncaught (playChunk_resume r (new_player true))
             = uncaught (new_player true)).
Proof.
  do 4 (split; [reflexivity|]).
  exact (proj1 (proj2 (proj2
           (playChunk_decoding_contract pcm_chunk (new_player true))))).
Defined.

(** *** [stopAll] and [close] *)

Lemma stopAll_idempotent (p : player) : stopAll (stopAll p) = stopAll p.
Proof. reflexivity. Qed.

Lemma close_idempotent (p : player) : close (close p) = close p.
Proof. unfold close, stopAll. simpl. destruct (audioContext p); reflexivity. Qed.

Lemma close_after_stopAll (p : player) : close (stopAll p) = close p.
Proof. reflexivity. Qed.

Lemma closed_step (p : player) (e : event) :
  closed p ->
  closed (step p e) /\
  started (timeline (step p e)) = started (timeline p) /\
  uncaught (step p e) = uncaught p.
Proof.
  intros [Hc Hq Hd]. destruct e as [c|r|id| |]; simpl.
  - unfold playChunk_call. rewrite Hc. repeat split; assumption.
  - unfold playChunk_resume.
    destruct (awaiting p) as [|c others]; [repeat split; assumption|].
    unfold playChunk_body, set_awaiting, decode. cbn [audioContext].
    rewrite Hc. destruct r as [u|e]; [|repeat split; assumption].
    destruct (base64ToArrayBuffer c); simpl; repeat split; assumption.
  - unfold source_ended.
    destruct (existsb (is_source id) (sources p)); [|repeat split; assumption].
    unfold playNext. cbn [audioQueue]. rewrite Hq. simpl.
    rewrite started_app. simpl. rewrite app_nil_r.
    repeat split; assumption.
  - repeat split; assumption.
  - unfold close, stopAll. simpl. rewrite Hc. repeat split; assumption.
Qed.

(** Once closed, whatever is still called or still fires: no source is
    started, nothing is audible, no handler throws. *)
Lemma silent_once_closed (tr : list event) (p : player) :
  closed p ->
  let q := run tr p in
  closed q /\ started (timeline q) = started (timeline p) /\
  audible q = [] /\ uncaught q = uncaught p.
Proof.
  cbv zeta. induction tr as [|e tr IH] using rev_ind; intros Hp.
  - repeat split; try apply Hp. unfold audible. simpl.
    rewrite (closed_device _ Hp). reflexivity.
  - rewrite run_snoc. destruct (IH Hp) as (Hq & Hs & _ & Hu).
    destruct (closed_step (run tr p) e Hq) as (Hq' & Hs' & Hu').
    repeat split; try apply Hq'; try congruence.
    unfold audible. rewrite (closed_device _ Hq'). reflexivity.
Qed.

Lemma playNext_keeps (p : player) :
  match playNext p with
  | Returned p' | Threw _ p' =>
      audioContext p' = audioContext p /\ device_open p' = device_open p
  end.
Proof.
  unfold playNext. destruct (audioQueue p); [split; reflexivity|].
  destruct (audioContext p) eqn:Hc; simpl; auto.
Qed.

Lemma playChunk_body_keeps (r : result unit) (c : string) (p : player) :
  match playChunk_body r c p with
  | Returned p' | Threw _ p' =>
      audioContext p' = audioContext p /\ device_open p' = device_open p
  end.
Proof.
  unfold playChunk_body. destruct r as [u|e]; [|split; reflexivity].
  destruct (decode (audioContext p) c) as [b|e]; [|split; reflexivity].
  destruct (isPlaying (push b p)); [split; reflexivity|].
  apply (playNext_keeps (push b p)).
Qed.

Lemma device_follows_context (tr : list event) (in_browser : bool) :
  let p := run tr (new_player in_browser) in
  audioContext p = None -> device_open p = false.
Proof.
  cbv zeta. induction tr as [|e tr IH] using rev_ind.
  - destruct in_browser; simpl; [discriminate | reflexivity].
  - rewrite run_snoc. set (p := run tr (new_player in_browser)) in *.
    destruct e as [c|r|id| |]; simpl.
    + unfold playChunk_call. destruct (audioContext p) eqn:Hc; simpl; auto.
    + unfold playChunk_resume. destruct (awaiting p) as [|c others]; [exact IH|].
      pose proof (playChunk_body_keeps r c (set_awaiting others p)) as H.
      destruct (playChunk_body r c (set_awaiting others p)) as [p'|e p'];
        destruct H as [Hc Hd]; simpl; rewrite Hc, Hd; exact IH.
    + unfold source_ended.
      destruct (existsb (is_source id) (sources p)); [|exact IH].
      match goal with |- context [playNext ?x] =>
        pose proof (playNext_keeps x) as H; destruct (playNext x) as [p'|e p']
      end; destruct H as [Hc Hd]; simpl; rewrite Hc, Hd; exact IH.
    + exact IH.
    + unfold close, stopAll. simpl.
      destruct (audioContext p) eqn:Hc; simpl; auto.
Qed.

(** After [stopAll(); close(); close()] on any player a run can reach,
    nothing more is ever played and no handler throws, and the second
    [close] changes nothing. *)
Lemma stopAll_close_close (before after : list event) (in_browser : bool) :
  let p := run before (new_player in_browser) in
  let q := close (close (stopAll p)) in
  q = close p /\
  started (timeline (run after q)) = started (timeline p) /\
  audible (run after q) = [] /\
  uncaught (run after q) = uncaught p.
Proof.
  cbv zeta. set (p := run before (new_player in_browser)).
  rewrite close_idempotent, close_after_stopAll.
  assert (Hclosed : closed (close p)).
  { unfold close, stopAll. simpl. destruct (audioContext p) eqn:Hc.
    - constructor; reflexivity.
    - constructor; simpl; auto.
      apply (device_follows_context before in_browser). exact Hc. }
  destruct (silent_once_closed after (close p) Hclosed) as (_ & Hs & Ha & Hu).
  repeat split; try assumption.
  - rewrite Hs. unfold close, stopAll. simpl.
    destruct (audioContext p); reflexivity.
  - rewrite Hu. unfold close, stopAll. simpl.
    destruct (audioContext p); reflexivity.
Qed.

(** C9, where the code parts from it. While the buffer of the first chunk
    plays, [stopAll] empties the queue and clears [isPlaying], and the
    source goes on playing: it was never stopped. The next chunk then starts
    a second source on top of it. *)
Theorem stopAll_leaves_the_source_playing :
  let p := run [PlayChunk "AAD/fw=="; Resume (Ok tt)] (new_player true) in
  let q := stopAll p in
  let r := run [PlayChunk "AID//w=="; Resume (Ok tt)] q in
  List.length (audible p) = 1%nat /\
  isPlaying q = false /\ audioQueue q = [] /\
  audible q = audible p /\
  List.length (audible r) = 2%nat /\
  cursor (timeline r) = None.
Proof. repeat split. Qed.

End AudioPlayerFacts.

Module VoiceInterviewFacts.

Import VoiceInterview.

Lemma status_after (m : message) (w : hook) :
  status (state (handleMessage m w))
  = match m with
    | msg_ready => ready
    | msg_question _ _ => active
    | msg_ended _ => ended
    | _ => status (state w)
    end.
Proof.
  destruct m; simpl; try reflexivity.
  destruct (audioPlayerRef w); reflexivity.
Qed.

Lemma never_back_to_connecting (ms : list message) (w : hook) :
  status (state w) <> connecting ->
  status (state (handle_all ms w)) <> connecting.
Proof.
  revert w. induction ms as [|m ms IH]; intros w Hw; simpl; [exact Hw|].
  apply IH. rewrite status_after. destruct m; simpl; congruence.
Qed.

(** C4, the claim as stated fails: a [question] that arrives before
    [ready] is not ignored, it starts the interview. *)
Lemma question_before_ready_is_not_ignored :
  state connected = initial_state /\
  state (handleMessage (msg_question "Tell me about yourself" 1) connected)
  = {| status := active; currentQuestion := ""; questionIndex := 1;
       aiSpeaking := true; interviewId := None |} /\
  status (state (handleMessage (msg_error "boom") connected)) = connecting.
Proof. repeat split. Qed.

(** C4, amended. The handler looks at the kind of the message only, never
    at the status. From [connecting]: [ready] gives [ready], [ended] gives
    [ended] with the interview id, and [question] gives [active] with the
    question text cleared, the index set and the AI speaking;
    [ai_transcript_delta] appends to the question text and
    [ai_done_speaking] clears [aiSpeaking], both staying in [connecting];
    [ai_audio] hands the chunk to the player, [error] and unknown kinds are
    logged, and these three leave the session state untouched. No message
    makes the handler fail, and over any sequence of messages the status is
    still [connecting] exactly when none was [ready], [question] or
    [ended]. *)
Theorem handleMessage_while_connecting (m : message) (ms : list message)
  (w : hook) :
  status (state w) = connecting ->
  let s := state w in
  let w' := handleMessage m w in
  match m with
  | msg_ready =>
      state w' = {| status := ready; currentQuestion := currentQuestion s;
                    questionIndex := questionIndex s;
                    aiSpeaking := aiSpeaking s; interviewId := interviewId s |}
  | msg_ended id =>
      state w' = {| status := ended; currentQuestion := currentQuestion s;
                    questionIndex := questionIndex s;
                    aiSpeaking := aiSpeaking s; interviewId := Some id |}
  | msg_question _ index =>
      state w' = {| status := active; currentQuestion := "";
                    questionIndex := index; aiSpeaking := true;
                    interviewId := interviewId s |}
  | msg_ai_transcript_delta text =>
      state w' = {| status := connecting;
                    currentQuestion := (currentQuestion s ++ text)%string;
                    questionIndex := questionIndex s;
                    aiSpeaking := aiSpeaking s; interviewId := interviewId s |}
  | msg_ai_done_speaking =>
      state w' = {| status := connecting; currentQuestion := currentQuestion s;
                    questionIndex := questionIndex s; aiSpeaking := false;
                    interviewId := interviewId s |}
  | msg_ai_audio audio =>
      state w' = s /\ notified w' = notified w /\
      audioPlayerRef w'
      = option_map (AudioPlayer.playChunk_call audio) (audioPlayerRef w)
  | msg_error message =>
      w' = log (error_interview message) w
  | msg_unknown type =>
      w' = log (info_unknown type) w
  end /\
  (status (state (handle_all ms w)) = connecting
   <-> existsb leaves_connecting ms = false).
Proof.
  intros Hw. cbv zeta. split.
  - destruct m; simpl; rewrite <- ?Hw; try reflexivity.
    destruct (audioPlayerRef w) eqn:Hp; simpl; rewrite ?Hp;
      repeat split; reflexivity.
  - clear m. revert w Hw. induction ms as [|m ms IH]; intros w Hw; simpl.
    + split; [reflexivity | intros _; exact Hw].
    + destruct (leaves_connecting m) eqn:Hm; simpl.
      * split; [|discriminate]. intros H. exfalso.
        refine (never_back_to_connecting ms (handleMessage m w) _ H).
        rewrite status_after. destruct m; simpl in *; congruence.
      * apply IH. rewrite status_after.
        destruct m; simpl in *; congruence.
Qed.

Lemma handleMessage_while_connecting_witness :
  status (state connected) = connecting /\
  state (handleMessage (msg_ai_transcript_delta "Tell") connected)
  = {| status := connecting; currentQuestion := "Tell"; questionIndex := 0;
       aiSpeaking := false; interviewId := None |} /\
  (status (state (handle_all [msg_ai_audio "AAA="; msg_error "x"] connected))
   = connecting
   <-> existsb leaves_connecting [msg_ai_audio "AAA="; msg_error "x"] = false).
Proof.
  split; [reflexivity|].
  apply (handleMessage_while_connecting (msg_ai_transcript_delta "Tell")
           [msg_ai_audio "AAA="; msg_error "x"] connected).
  reflexivity.
Defined.

(** C7, the claim as stated fails: with no socket in the render's state,
    or with a socket that is not open, [sendTranscript] does nothing at
    all; nothing is sent and nothing is logged. *)
Lemma transcript_dropped_without_a_trace :
  sendTranscript None "I led a team of five" connected = connected /\
  let closing :=
    {| state := initial_state; audioPlayerRef := None;
       net := {| readyState := CLOSING; sent := [] |};
       console := []; notified := [] |} in
  sendTranscript (Some Socket) "I led a team of five" closing = closing.
Proof. split; reflexivity. Qed.

(** C7, amended. With an open socket in the render's state the transcript
    is logged (its first 50 characters) and accepted by the transport as
    one [response_complete]; otherwise the call has no effect whatsoever:
    no send, no log, no error. *)
Theorem sendTranscript_effect (ws : option socket_ref) (transcript : string)
  (w : hook) :
  let w' := sendTranscript ws transcript w in
  (is_open ws w = true ->
     sent (net w') = sent (net w) ++ [response_complete transcript] /\
     console w' = console w ++ [info_sending (substring 0 50 transcript)] /\
     readyState (net w') = readyState (net w) /\
     state w' = state w /\ audioPlayerRef w' = audioPlayerRef w /\
     notified w' = notified w) /\
  (is_open ws w = false -> w' = w) /\
  (is_open ws w = true <-> ws = Some Socket /\ readyState (net w) = OPEN).
Proof.
  cbv zeta. unfold sendTranscript. split; [|split; [|split]].
  - intros H. rewrite H. repeat split.
  - intros H. rewrite H. reflexivity.
  - unfold is_open. destruct ws as [[]|]; [|discriminate].
    destruct (readyState (net w)); try discriminate. split; reflexivity.
  - intros [-> Hr]. unfold is_open. rewrite Hr. reflexivity.
Qed.

Lemma sendTranscript_effect_witness :
  is_open (Some Socket) connected = true /\
  sent (net (sendTranscript (Some Socket) "I led a team of five" connected))
  = [response_complete "I led a team of five"].
Proof.
  split; [reflexivity|].
  apply (sendTranscript_effect (Some Socket) "I led a team of five" connected).
  reflexivity.
Defined.

End VoiceInterviewFacts.

Module InterviewPageFacts.

Import VoiceInterview.
Import InterviewPage.

(** *** Filler words *)

Lemma detect_fold (t : Q) (words : list string) (timeline : list TimelineEvent) :
  fold_left
    (fun tl word =>
       if JS.includes fillerWords (strip word)
       then logEvent (filler_event t word) tl
       else tl)
    words timeline
  = timeline
    ++ map (filler_event t)
         (filter (fun w => JS.includes fillerWords (strip w)) words).
Proof.
  revert timeline.
  induction words as [|w words IH]; intros timeline; cbn [fold_left filter].
  - simpl. rewrite app_nil_r. reflexivity.
  - rewrite IH. destruct (JS.includes fillerWords (strip w)); cbn [map].
    + unfold logEvent. rewrite <- app_assoc. reflexivity.
    + reflexivity.
Qed.

Lemma strip_token (text : string) :
  Forall (fun w => JS.contains_char JS.space (strip w) = false)
    (JS.split JS.space text).
Proof.
  eapply Forall_impl; [|apply JSFacts.split_tokens].
  intros w Hw. apply JSFacts.remove_chars_contains. exact Hw.
Qed.

(** *** The tokens and the five single words *)

Import FillerWords.

Lemma is_punctuation_class (c : ascii) :
  is_punctuation c = existsb (Ascii.eqb c) ["."; ","; "!"; "?"]%char.
Proof. destruct c as [[] [] [] [] [] [] [] []]; reflexivity. Qed.

Lemma strip_unpunctuated (w : string) : strip w = unpunctuated w.
Proof.
  unfold strip, unpunctuated.
  induction w as [|c w IH]; [reflexivity|].
  cbn [JS.remove_chars list_ascii_of_string filter].
  rewrite is_punctuation_class.
  destruct (existsb (Ascii.eqb c) ["."; ","; "!"; "?"]%char); cbn [negb].
  - exact IH.
  - cbn [string_of_list_ascii]. rewrite IH. reflexivity.
Qed.

Lemma contains_char_In (c : ascii) (w : string) :
  JS.contains_char c w = false <-> ~ In c (list_ascii_of_string w).
Proof.
  induction w as [|d w IH]; cbn [JS.contains_char list_ascii_of_string In].
  - split; [intros _ [] | reflexivity].
  - rewrite orb_false_iff, IH. split.
    + intros [Hd Hw] [Heq|Hin]; [|exact (Hw Hin)].
      subst d. rewrite Ascii.eqb_refl in Hd. discriminate.
    + intros Hno. split.
      * destruct (Ascii.eqb d c) eqn:E; [|reflexivity].
        apply Ascii.eqb_eq in E. exfalso. apply Hno. left. exact E.
      * intros Hin. apply Hno. right. exact Hin.
Qed.

Lemma join_split (s : string) : join (JS.split JS.space s) = s.
Proof.
  induction s as [|c s IH]; [reflexivity|].
  cbn [JS.split]. destruct (Ascii.eqb c JS.space) eqn:E.
  - apply Ascii.eqb_eq in E. subst c.
    destruct (JS.split JS.space s) as [|w ws] eqn:Hs.
    + exfalso. exact (JSFacts.split_not_nil _ _ Hs).
    + change (join ("" :: w :: ws)) with ("" ++ " " ++ join (w :: ws))%string.
      rewrite IH. reflexivity.
  - destruct (JS.split JS.space s) as [|w ws] eqn:Hs.
    + exfalso. exact (JSFacts.split_not_nil _ _ Hs).
    + rewrite <- IH. destruct ws; reflexivity.
Qed.

Lemma tokens_have_no_space (s : string) :
  Forall (fun w => ~ has_space w) (JS.split JS.space s).
Proof.
  eapply Forall_impl; [|apply JSFacts.split_tokens].
  intros w Hw. apply contains_char_In. exact Hw.
Qed.

(** A token is never "you know" without its punctuation, so the list of
    the code and the five single words accept the same tokens. *)
Lemma token_is_filler (s : string) :
  Forall (fun w => unpunctuated w <> "you know"
                   /\ JS.includes fillerWords (strip w) = is_filler w)
    (JS.split JS.space s).
Proof.
  eapply Forall_impl; [|apply strip_token].
  intros w Hw. cbv beta in Hw.
  assert (Hno : strip w <> "you know").
  { intros Heq. rewrite Heq in Hw. discriminate. }
  split; [rewrite <- strip_unpunctuated; exact Hno|].
  unfold JS.includes, is_filler, fillerWords, single_words.
  rewrite <- strip_unpunctuated. cbn [existsb].
  destruct (String.eqb (strip w) "you know") eqn:E; [|reflexivity].
  apply String.eqb_eq in E. contradiction.
Qed.

Lemma filter_tokens (s : string) :
  filter (fun w => JS.includes fillerWords (strip w)) (JS.split JS.space s)
  = filter is_filler (JS.split JS.space s).
Proof.
  apply filter_ext_in. intros w Hin.
  pose proof (token_is_filler s) as H. rewrite Forall_forall in H.
  exact (proj2 (H w Hin)).
Qed.

(** C10. The tokens of a fragment are the pieces of its lower-cased text
    between single spaces: put together again with a space between two
    neighbours they give the text back, and none holds a space. For each
    token, in order, that without its [. , ! ?] is one of "um", "uh",
    "like", "basically", "literally", exactly one [filler_word] event of
    severity [warning] is appended, carrying the token as it was heard, and
    nothing else is appended. No token is "you know" without its
    punctuation, so that entry of the list never gives an event. *)
Theorem filler_word_events (text : string) (t : Q)
  (timeline : list TimelineEvent) :
  let tokens := JS.split JS.space (JS.toLowerCase text) in
  join tokens = JS.toLowerCase text /\
  Forall (fun w => ~ has_space w) tokens /\
  detectFillerWords text t timeline
  = timeline
    ++ map (fun w => {| timestamp := t; type := filler_word;
                        data := data_word w; severity := warning |})
         (filter is_filler tokens) /\
  Forall (fun w => unpunctuated w <> "you know") tokens.
Proof.
  cbv zeta. split; [apply join_split|].
  split; [apply tokens_have_no_space|]. split.
  - unfold detectFillerWords. cbv zeta.
    rewrite detect_fold, filter_tokens.
    reflexivity.
  - eapply Forall_impl; [|apply token_is_filler].
    intros w [H _]. exact H.
Qed.

Lemma filler_word_events_witness :
  map data (detectFillerWords a_hesitant_sentence 0 [])
  = [data_word "um,"; data_word "like"; data_word "literally";
     data_word "basically..."; data_word "uh!"].
Proof.
  destruct (filler_word_events a_hesitant_sentence 0 []) as (_ & _ & H & _).
  rewrite H. reflexivity.
Defined.

Lemma filler_word_events_example :
  map data (detectFillerWords "Um, I like you know LITERALLY that." 0 [])
  = [data_word "um,"; data_word "like"; data_word "literally"] /\
  detectFillerWords "you know" 0 [] = [].
Proof. split; reflexivity. Qed.

(** *** The silence timer *)

Lemma spoken_snoc (group : list string) (x : string) :
  spoken (group ++ [x]) = (spoken group ++ x ++ " ")%string.
Proof.
  induction group as [|y group IH]; simpl; [reflexivity|].
  rewrite IH, !JSFacts.append_assoc. reflexivity.
Qed.

Lemma advance_idle (now : Z) (p : page) : idle p -> advance now p = p.
Proof. intros [_ Ht _]. unfold advance. rewrite Ht. reflexivity. Qed.

Lemma advance_early (ws : option socket_ref) (last now : Z)
  (group : list string) (p : page) :
  armed ws last group p -> now < last + 2500 -> advance now p = p.
Proof.
  intros [_ (h & _ & Ht) _] Hnow. unfold advance. rewrite Ht.
  cbn [List.length fire_due]. unfold Timers.next_due. rewrite Ht. cbn [find].
  unfold Timers.is_due. cbn [Timers.due].
  apply Z.leb_gt in Hnow. rewrite Hnow. reflexivity.
Qed.

(** When the timer elapses, the group is sent as one turn if it has
    something to say, and the page is idle again. *)
Lemma advance_elapsed (last now : Z) (group : list string) (p : page) :
  armed (Some Socket) last group p -> last + 2500 <= now ->
  idle (advance now p) /\
  sent (net (advance now p)) = sent (net p) ++ turns [group] /\
  uncaught (advance now p) = uncaught p.
Proof.
  intros [(blank & Hb & Hf) (h & Hr & Ht) Ho] Hnow.
  assert (Hadv : advance now p
                 = silence_elapsed (Some Socket)
                     (set_timers (Timers.clearTimeout h (timers p)) p)).
  { unfold advance. rewrite Ht. cbn [List.length fire_due].
    unfold Timers.next_due. rewrite Ht. cbn [find]. unfold Timers.is_due.
    cbn [Timers.due]. apply Z.leb_le in Hnow. rewrite Hnow. reflexivity. }
  rewrite Hadv. clear Hadv.
  assert (Hcleared : Timers.pending (Timers.clearTimeout h (timers p)) = []).
  { unfold Timers.clearTimeout. cbn [Timers.pending]. rewrite Ht.
    cbn [filter Timers.handle]. rewrite Nat.eqb_refl. reflexivity. }
  unfold silence_elapsed, turns, turn_text.
  cbn [set_timers finalTranscript net map filter].
  rewrite Hf, (JSFacts.trim_blank_prefix _ _ Hb).
  unfold JS.truthy.
  destruct (JS.is_empty (JS.trim (spoken group))) eqn:Hempty; cbn [negb].
  - cbn [map]. rewrite app_nil_r. repeat split; simpl; auto.
    rewrite Hf, JSFacts.all_white_append, Hb. simpl.
    rewrite <- JSFacts.trim_empty. exact Hempty.
  - unfold ws_send. rewrite Ho. repeat split; simpl; auto.
Qed.

(** A final fragment heard while the timer is pending joins the group and
    the timer starts again. *)
Lemma onresult_armed (ws : option socket_ref) (last now : Z)
  (group : list string) (x : string) (p : page) :
  armed ws last group p ->
  armed ws now (group ++ [x]) (onresult ws now [(x, true)] p) /\
  sent (net (onresult ws now [(x, true)] p)) = sent (net p).
Proof.
  intros [(blank & Hb & Hf) (h & Hr & Ht) Ho].
  unfold onresult. simpl. rewrite Hr, Hf. unfold Timers.clearTimeout.
  rewrite Ht. simpl. rewrite Nat.eqb_refl. simpl.
  split; [|reflexivity]. constructor; simpl.
  - exists blank. split; [exact Hb|].
    rewrite spoken_snoc, JSFacts.append_assoc. reflexivity.
  - eexists. split; reflexivity.
  - exact Ho.
Qed.

(** A final fragment heard by an idle page opens a new group. *)
Lemma onresult_idle (ws : option socket_ref) (now : Z) (x : string) (p : page) :
  idle p ->
  armed ws now [x] (onresult ws now [(x, true)] p) /\
  sent (net (onresult ws now [(x, true)] p)) = sent (net p).
Proof.
  intros [Hb Ht Ho].
  unfold onresult. simpl. unfold Timers.clearTimeout.
  destruct (silenceTimerRef p); simpl; rewrite ?Ht; simpl;
    (split; [|reflexivity]);
    constructor; simpl; try exact Ho;
    try (exists (finalTranscript p); split; [exact Hb | reflexivity]);
    eexists; split; reflexivity.
Qed.

(** An interim result leaves the buffer as it is, marks the candidate as
    speaking, and starts the timer afresh like a final one. *)
Lemma interim_result_restarts_the_timer (ws : option socket_ref)
  (last now : Z) (group : list string) (x : string) (p : page) :
  armed ws last group p ->
  armed ws now group (onresult ws now [(x, false)] p) /\
  candidateSpeaking (onresult ws now [(x, false)] p) = negb (JS.is_empty x).
Proof.
  intros [(blank & Hb & Hf) (h & Hr & Ht) Ho].
  unfold onresult. simpl. rewrite Hr. unfold Timers.clearTimeout.
  rewrite Ht. simpl. rewrite Nat.eqb_refl. simpl.
  split; [|reflexivity]. constructor; simpl.
  - exists blank. split; assumption.
  - eexists. split; reflexivity.
  - exact Ho.
Qed.

Lemma turns_cons (g : list string) (gs : list (list string)) :
  turns (g :: gs) = turns [g] ++ turns gs.
Proof.
  unfold turns. simpl. destruct (JS.truthy (turn_text g)); reflexivity.
Qed.

Lemma horizon_armed (ws : option socket_ref) (last : Z) (group : list string)
  (p : page) :
  armed ws last group p -> last + 2500 <= horizon p.
Proof.
  intros [_ (h & _ & Ht) _]. unfold horizon. rewrite Ht. simpl. lia.
Qed.

Lemma debounce_from (rest : list (Z * string)) :
  forall (last : Z) (group : list string) (p : page),
  armed (Some Socket) last group p ->
  sent (net (settle (play (Some Socket) (map final rest) p)))
  = sent (net p) ++ turns (groups_from last group rest).
Proof.
  induction rest as [|[t x] rest IH]; intros last group p Hp.
  - simpl. unfold settle.
    apply (advance_elapsed last (horizon p) group p Hp).
    eapply horizon_armed; eassumption.
  - unfold play in *. cbn [map fold_left final fst snd groups_from].
    destruct (last + 2500 <=? t) eqn:E.
    + apply Z.leb_le in E.
      destruct (advance_elapsed last t group p Hp E) as (Hidle & Hsent & _).
      destruct (onresult_idle (Some Socket) t x _ Hidle) as [Harmed Hsame].
      rewrite (IH t [x] _ Harmed), Hsame, Hsent.
      rewrite (turns_cons group (groups_from t [x] rest)), app_assoc.
      reflexivity.
    + apply Z.leb_gt in E.
      rewrite (advance_early _ last t group p Hp) by lia.
      destruct (onresult_armed (Some Socket) last t group x p Hp) as [Harmed Hsame].
      rewrite (IH t (group ++ [x]) _ Harmed), Hsame. reflexivity.
Qed.

Lemma idle_listening : idle listening.
Proof. constructor; reflexivity. Qed.

(** Without a socket in the handler's closure the timer callback does
    nothing. *)
Lemma silence_elapsed_without_socket (p : page) : silence_elapsed None p = p.
Proof. reflexivity. Qed.

Lemma fire_due_unplugged (fuel : nat) (now : Z) :
  forall p,
  Forall unplugged (Timers.pending (timers p)) ->
  Forall unplugged (Timers.pending (timers (fire_due fuel now p))) /\
  sent (net (fire_due fuel now p)) = sent (net p).
Proof.
  induction fuel as [|fuel IH]; intros p Hall; simpl; [split; auto|].
  destruct (Timers.next_due now (timers p)) as [tm|] eqn:Hdue; [|split; auto].
  apply find_some in Hdue as [Hin _].
  rewrite Forall_forall in Hall. rewrite (Hall tm Hin).
  rewrite silence_elapsed_without_socket.
  match goal with |- context [fire_due fuel now ?q] =>
    destruct (IH q) as [Hall' Hsent]
  end.
  - simpl. apply Forall_forall. intros x Hx.
    apply filter_In in Hx as [Hx _]. exact (Hall x Hx).
  - split; [exact Hall' | rewrite Hsent; reflexivity].
Qed.

(** A handler that closed over no socket never sends anything, whatever
    is said and however long the silence. The handler of this page is
    installed once, by the effect that runs after the first render, whose
    [ws] state is still null. *)
Lemma unplugged_handler_sends_nothing (events : list (Z * list speech_result)) :
  sent (net (settle (play None events listening))) = [].
Proof.
  assert (H : forall p,
            Forall unplugged (Timers.pending (timers p)) ->
            Forall unplugged (Timers.pending (timers (play None events p))) /\
            sent (net (play None events p)) = sent (net p)).
  { unfold play. induction events as [|[t rs] events IH]; intros p Hp; simpl.
    - split; auto.
    - destruct (fire_due_unplugged
                  (List.length (Timers.pending (timers p))) t p Hp)
        as [Hq Hsent].
      fold (advance t p) in Hq, Hsent.
      match goal with |- context [onresult None t rs ?q] =>
        destruct (IH (onresult None t rs q)) as [Hall' Hsent']
      end.
      + unfold onresult.
        destruct (scan_results _ rs _ _ _) as [[f i] tl]. simpl.
        apply Forall_app. split; [|repeat constructor].
        destruct (silenceTimerRef (advance t p)); simpl; [|exact Hq].
        apply Forall_forall. intros x Hx. apply filter_In in Hx as [Hx _].
        rewrite Forall_forall in Hq. exact (Hq x Hx).
      + split; [exact Hall'|]. rewrite Hsent'. rewrite <- Hsent.
        unfold onresult. destruct (scan_results _ rs _ _ _) as [[f i] tl].
        reflexivity. }
  destruct (H listening) as [Hall Hsent]; [constructor|].
  unfold settle, advance.
  destruct (fire_due_unplugged
              (List.length (Timers.pending (timers (play None events listening))))
              (horizon (play None events listening)) _ Hall) as [_ Hs].
  rewrite Hs, Hsent. reflexivity.
Qed.

(** A handler that holds the open socket: a fragment of white space alone
    leaves a buffer that is not empty, the timer elapses, and nothing is
    sent and nothing is cleared; and a handler that closed over no socket
    sends nothing and keeps the buffer. *)
Lemma blank_buffer_is_kept_unsent :
  (let p := settle (play (Some Socket) [final (0, " ")] listening) in
   finalTranscript p = "  " /\ sent (net p) = []) /\
  (let p := settle (play None [final (0, "I led a team of five")] listening) in
   finalTranscript p = "I led a team of five " /\ sent (net p) = []).
Proof. split; split; reflexivity. Qed.

(** What the turn detector does in a handler that holds the open socket.
    Every final fragment is appended to the buffer, followed by a space, and
    starts the one silence timer afresh, due 2500 ms later. When the timer
    elapses the buffer is sent, trimmed, as exactly one [response_complete]
    and cleared, provided it has more than white space; otherwise nothing
    is sent and the buffer is kept. So, over any run of final fragments,
    fragments less than 2500 ms apart coalesce, and exactly one turn goes
    out per group that is not blank, in order. *)
Theorem silence_timer_turns (fragments : list (Z * string)) :
  sent (net (settle (play (Some Socket) (map final fragments) listening)))
  = turns (groups fragments) /\
  (forall ws last group now x p,
     armed ws last group p ->
     armed ws now (group ++ [x]) (onresult ws now [(x, true)] p)) /\
  (forall ws now x p,
     idle p -> armed ws now [x] (onresult ws now [(x, true)] p)) /\
  (forall last group now p,
     armed (Some Socket) last group p -> last + 2500 <= now ->
     idle (advance now p) /\
     sent (net (advance now p))
     = sent (net p)
       ++ (if JS.all_white (spoken group) then []
           else [response_complete (JS.trim (spoken group))])).
Proof.
  split; [|split; [|split]].
  - destruct fragments as [|[t x] rest]; [reflexivity|].
    unfold play. cbn [map fold_left final fst snd groups].
    rewrite (advance_idle t listening idle_listening).
    destruct (onresult_idle (Some Socket) t x listening idle_listening)
      as [Harmed Hsame].
    change (fold_left _ (map final rest) ?q) with (play (Some Socket) (map final rest) q).
    rewrite (debounce_from rest t [x] _ Harmed), Hsame. reflexivity.
  - intros ws last group now x p Hp.
    apply (onresult_armed ws last now group x p Hp).
  - intros ws now x p Hp. apply (onresult_idle ws now x p Hp).
  - intros last group now p Hp Hnow.
    destruct (advance_elapsed last now group p Hp Hnow) as (Hidle & Hsent & _).
    split; [exact Hidle|]. rewrite Hsent. unfold turns, turn_text, JS.truthy.
    simpl. rewrite JSFacts.trim_empty.
    destruct (JS.all_white (spoken group)); reflexivity.
Qed.

Lemma silence_timer_turns_witness :
  sent (net (settle (play (Some Socket) (map final an_answer) listening)))
  = [response_complete "I led a team of five"; response_complete "um";
     response_complete "thanks"].
Proof. exact (proj1 (silence_timer_turns an_answer)). Defined.

(** *** The page as it is mounted *)

Import InterviewPageMount.

Lemma scan_results_final (t : Q) (results : list speech_result) :
  forall final interim timeline,
  fst (fst (scan_results t results final interim timeline))
  = (final ++ final_text results)%string.
Proof.
  induction results as [|[x [|]] rest IH]; intros f i tl;
    cbn [scan_results final_text fst].
  - rewrite JSFacts.append_empty_r. reflexivity.
  - rewrite IH, !JSFacts.append_assoc. reflexivity.
  - apply IH.
Qed.

Lemma fire_due_unplugged_buffer (fuel : nat) (now : Z) :
  forall p,
  Forall unplugged (Timers.pending (timers p)) ->
  finalTranscript (fire_due fuel now p) = finalTranscript p.
Proof.
  induction fuel as [|fuel IH]; intros p Hall; simpl; [reflexivity|].
  destruct (Timers.next_due now (timers p)) as [tm|] eqn:Hdue; [|reflexivity].
  apply find_some in Hdue as [Hin _].
  rewrite Forall_forall in Hall. rewrite (Hall tm Hin).
  rewrite silence_elapsed_without_socket.
  rewrite IH; [reflexivity|].
  simpl. apply Forall_forall. intros x Hx.
  apply filter_In in Hx as [Hx _]. exact (Hall x Hx).
Qed.

Lemma mounted_play_from (events : list (Z * list speech_result)) :
  forall p,
  Forall unplugged (Timers.pending (timers p)) ->
  Forall unplugged (Timers.pending (timers (mounted_play events p))) /\
  sent (net (mounted_play events p)) = sent (net p) /\
  finalTranscript (mounted_play events p)
  = (finalTranscript p ++ heard events)%string.
Proof.
  unfold mounted_play, play, first_render_ws.
  induction events as [|[t rs] events IH]; intros p Hp;
    cbn [fold_left heard fst snd].
  - rewrite JSFacts.append_empty_r. repeat split; auto.
  - destruct (fire_due_unplugged
                (List.length (Timers.pending (timers p))) t p Hp)
      as [Hq Hsent].
    pose proof (fire_due_unplugged_buffer
                  (List.length (Timers.pending (timers p))) t p Hp) as Hbuf.
    fold (advance t p) in Hq, Hsent, Hbuf.
    set (q := advance t p) in *.
    pose proof (scan_results_final (getCurrentTimestamp t q) rs
                  (finalTranscript q) "" (timelineRef q)) as Hscan.
    assert (Hon : Forall unplugged
                    (Timers.pending (timers (onresult None t rs q)))
                  /\ sent (net (onresult None t rs q)) = sent (net q)
                  /\ finalTranscript (onresult None t rs q)
                     = (finalTranscript q ++ final_text rs)%string).
    { unfold onresult.
      destruct (scan_results _ rs _ _ _) as [[f i] tl]. cbn [fst] in Hscan.
      simpl. split; [|split; [reflexivity | exact Hscan]].
      apply Forall_app. split; [|repeat constructor].
      destruct (silenceTimerRef q); simpl; [|exact Hq].
      apply Forall_forall. intros x Hx. apply filter_In in Hx as [Hx _].
      rewrite Forall_forall in Hq. exact (Hq x Hx). }
    destruct Hon as (Hall & Hs & Hf).
    destruct (IH (onresult None t rs q) Hall) as (H1 & H2 & H3).
    split; [exact H1|]. split.
    + rewrite H2, Hs, Hsent. reflexivity.
    + rewrite H3, Hf, Hbuf, JSFacts.append_assoc. reflexivity.
Qed.

(** C2. The page as it is mounted never sends a turn. The handler is
    installed once, from the effect of the first render, and it and its
    timer callbacks hold that render's [ws], which is null; so whatever the
    recogniser reports, final or interim, and however long the silence
    lasts, the guard [finalTranscript.trim() && ws] fails: nothing is ever
    put on the socket and the buffer is never cleared, it holds every final
    fragment heard since the page was mounted. For the answer "I led",
    "a team of five" the one turn that is due is not sent. *)
Theorem mounted_page_sends_no_turn
  (events : list (Z * list speech_result)) (now : Z) :
  let p := advance now (mounted_play events listening) in
  sent (net p) = [] /\
  finalTranscript p = heard events /\
  sent (net (settle (mounted_play events listening))) = [] /\
  finalTranscript (settle (mounted_play events listening)) = heard events /\
  (let said := settle (mounted_play an_answer_as_recognised listening) in
   turns (groups [(400, "I led"); (1200, "a team of five")])
   = [response_complete "I led a team of five"] /\
   sent (net said) = [] /\
   finalTranscript said = "I led a team of five ").
Proof.
  cbv zeta.
  destruct (mounted_play_from events listening) as (Hall & Hs & Hf);
    [constructor|].
  assert (Hadv : forall t,
            sent (net (advance t (mounted_play events listening))) = []
            /\ finalTranscript (advance t (mounted_play events listening))
               = heard events).
  { intros t. unfold advance.
    destruct (fire_due_unplugged
                (List.length
                   (Timers.pending (timers (mounted_play events listening))))
                t _ Hall) as [_ Hsent].
    rewrite Hsent, Hs, (fire_due_unplugged_buffer _ t _ Hall), Hf.
    split; reflexivity. }
  split; [apply Hadv|]. split; [apply Hadv|].
  unfold settle. split; [apply Hadv|]. split; [apply Hadv|].
  repeat split.
Qed.

End InterviewPageFacts.

Module InterviewLayoutFacts.

Import VoiceInterview.
Import InterviewLayout.

(** C3, where the code parts from it. The candidate's last fragment is
    heard at time 0 and the server's [ended] arrives one second later: the
    hook records [ended] and the interview id, and the silence timer stays
    pending with the buffer untouched; when it elapses at 2500 ms the
    buffered answer is sent on the socket, which is still open, although
    the session has ended. Leaving the page is the only thing that clears
    the timer: no message of the server touches the timer or the buffer. *)
Theorem ended_leaves_the_silence_timer_pending :
  let heard :=
    handleTranscript (Some Socket) 0 "I led a team of five" true interviewing in
  let over := onmessage (msg_ended 42) (advance 1000 heard) in
  let later := advance 2500 over in
  status (state (voice over)) = ended /\
  interviewId (state (voice over)) = Some 42 /\
  transcriptBufferRef over = "I led a team of five " /\
  List.length (Timers.pending (timers over)) = 1%nat /\
  sent (net (voice over)) = [] /\
  status (state (voice later)) = ended /\
  sent (net (voice later)) = [response_complete "I led a team of five"] /\
  Timers.pending (timers (cleanup over)) = [] /\
  (forall m l,
     timers (onmessage m l) = timers l /\
     silenceTimerRef (onmessage m l) = silenceTimerRef l /\
     transcriptBufferRef (onmessage m l) = transcriptBufferRef l).
Proof. repeat split. Qed.

End InterviewLayoutFacts.

Module BrowserSpeechFacts.

Import BrowserSpeech.

(** *** Restarts are counted and capped *)

Lemma try_start_frame (l : option log_entry) (h : hook) :
  enabledRef (try_start l h) = enabledRef h /\
  restartAttempts (try_start l h) = restartAttempts h /\
  timers (try_start l h) = timers h /\
  error (try_start l h) = error h /\
  onend (try_start l h) = onend h.
Proof.
  unfold try_start, start. destruct (recognition h); simpl;
    try (destruct l; simpl); repeat split; reflexivity.
Qed.

Lemma fire_due_frame (fuel : nat) (now : Z) :
  forall h,
  enabledRef (fire_due fuel now h) = enabledRef h /\
  restartAttempts (fire_due fuel now h) = restartAttempts h /\
  scheduled (fire_due fuel now h) = scheduled h /\
  error (fire_due fuel now h) = error h /\
  onend (fire_due fuel now h) = onend h.
Proof.
  induction fuel as [|fuel IH]; intros h; simpl; [repeat split; reflexivity|].
  destruct (Timers.next_due now (timers h)) as [tm|]; [|repeat split; reflexivity].
  unfold restart_elapsed.
  match goal with |- context [try_start ?l ?x] =>
    destruct (try_start_frame l x) as (He & Ha & Ht & Herr & Ho);
    destruct (IH (try_start l x)) as (He' & Ha' & Hs' & Herr' & Ho')
  end.
  rewrite He', Ha', Hs', Herr', Ho', He, Ha, Herr, Ho.
  unfold scheduled. rewrite Ht. repeat split; reflexivity.
Qed.

Lemma onend_handler_budget (now : Z) (h : hook) :
  (restartAttempts h <= MAX_RESTARTS)%nat ->
  (restartAttempts (onend_handler now h) <= MAX_RESTARTS)%nat /\
  (scheduled (onend_handler now h) + restartAttempts h
   = scheduled h + restartAttempts (onend_handler now h))%nat.
Proof.
  unfold onend_handler, scheduled, MAX_RESTARTS. simpl. intros Hle.
  destruct (enabledRef h); simpl; [|split; [exact Hle | reflexivity]].
  destruct (restartAttempts h) as [|[|[|n]]]; simpl; split; lia.
Qed.

Lemma step_budget (h : hook) (te : Z * event) :
  platform_event te = true ->
  (restartAttempts h <= MAX_RESTARTS)%nat ->
  (restartAttempts (step h te) <= MAX_RESTARTS)%nat /\
  (scheduled (step h te) + restartAttempts h
   = scheduled h + restartAttempts (step h te))%nat.
Proof.
  destruct te as [now e]. unfold platform_event, step, advance. simpl.
  destruct (fire_due_frame (List.length (Timers.pending (timers h))) now h)
    as (_ & Ha & Hs & _ & _).
  set (h0 := fire_due _ now h) in *. intros He Hle. rewrite <- Ha, <- Hs in *.
  clearbody h0. clear Ha Hs h.
  destruct e; try discriminate; simpl; try (split; [exact Hle | reflexivity]).
  unfold recognizer_ends.
  destruct (recognition h0); simpl; try (split; [exact Hle | reflexivity]);
    (destruct (onend h0); [|split; [exact Hle | reflexivity]]);
    match goal with |- context [onend_handler now ?x] =>
      apply (onend_handler_budget now x Hle)
    end.
Qed.

Lemma run_budget (tr : list (Z * event)) :
  forall h,
  forallb platform_event tr = true ->
  (restartAttempts h <= MAX_RESTARTS)%nat ->
  (restartAttempts (run tr h) <= MAX_RESTARTS)%nat /\
  (scheduled (run tr h) + restartAttempts h
   = scheduled h + restartAttempts (run tr h))%nat.
Proof.
  induction tr as [|te tr IH]; intros h Hall Hle; simpl.
  - split; [exact Hle | reflexivity].
  - simpl in Hall. apply andb_true_iff in Hall as [Hte Htr].
    destruct (step_budget h te Hte Hle) as [Hle1 Heq1].
    destruct (IH (step h te) Htr Hle1) as [Hle2 Heq2].
    split; [exact Hle2 | lia].
Qed.

(** C6, where the code parts from it. The recogniser ends on its own while
    capture is enabled, so [onend] sets a restart timer; half a second
    later [enabled] turns false (or the component is unmounted). Nothing
    clears the timer and its callback does not look at [enabledRef]: at
    1500 ms it calls [recognition.start()], and a new capture session
    begins although capture is disabled (or the component is gone). In
    general, no render, unmount or [stop] touches the timers, and the
    callback starts an idle recogniser whatever [enabledRef] holds. *)
Theorem restart_timer_fires_after_disable :
  let ended := run [(0, RecognizerEnds)] (mount true true) in
  let disabled := run [(500, Render false)] ended in
  let unmounted := run [(500, Unmount)] ended in
  List.length (Timers.pending (timers ended)) = 1%nat /\
  enabledRef disabled = false /\
  recognition disabled = Idle /\
  List.length (Timers.pending (timers disabled)) = 1%nat /\
  recognition (run [(1500, Wait)] disabled) = Listening /\
  sessions (run [(1500, Wait)] disabled) = S (sessions disabled) /\
  onend unmounted = false /\
  List.length (Timers.pending (timers unmounted)) = 1%nat /\
  recognition (run [(1500, Wait)] unmounted) = Listening /\
  sessions (run [(1500, Wait)] unmounted) = S (sessions unmounted) /\
  (forall h enabled,
     timers (render enabled h) = timers h /\
     timers (unmount h) = timers h /\ timers (stop h) = timers h) /\
  (forall h,
     recognition h = Idle ->
     recognition (restart_elapsed h) = Listening /\
     sessions (restart_elapsed h) = S (sessions h)).
Proof.
  split; [reflexivity|]. do 9 (split; [reflexivity|]). split.
  - intros h enabled. unfold render, unmount, stop, control, try_start, start,
      stop_recognition, set_enabledRef. simpl.
    destruct (recognitionRef h), enabled, (recognition h); simpl;
      repeat split; reflexivity.
  - intros h Hidle. unfold restart_elapsed, try_start, start.
    rewrite Hidle. split; reflexivity.
Qed.

End BrowserSpeechFacts.

Module AzureSpeechFacts.

Import AzureSpeech.

(** *** The restart delay *)

Lemma restart_delay_table (reason : restart_reason) (attempt : nat) :
  restart_delay reason attempt
  = match reason, attempt with
    | normal, _ => 1000
    | _, 0%nat => 1000
    | _, 1%nat => 2000
    | _, 2%nat => 4000
    | _, 3%nat => 8000
    | _, 4%nat => 16000
    | _, _ => 30000
    end.
Proof.
  destruct reason; [| |reflexivity];
    destruct attempt as [|[|[|[|[|n]]]]]; try reflexivity;
    unfold restart_delay;
    replace (Nat.min (S (S (S (S (S n))))) 5) with 5%nat by lia;
    reflexivity.
Qed.

Lemma restart_delay_bounds (reason : restart_reason) (attempt : nat) :
  1000 <= restart_delay reason attempt <= 30000 /\
  restart_delay reason attempt <= restart_delay reason (S attempt).
Proof.
  rewrite !restart_delay_table.
  destruct reason; destruct attempt as [|[|[|[|[|[|n]]]]]]; lia.
Qed.

(** Whatever the number of attempts so far, an enabled hook with no restart
    pending sets a restart timer. *)
Lemma scheduleRestart_sets_a_timer (reason : restart_reason) (now : Z)
  (h : hook) :
  enabledRef h = true -> manuallyStoppedRef h = false ->
  restartTimeoutRef h = None ->
  let h' := scheduleRestart reason now h in
  restartAttemptRef h' = S (restartAttemptRef h) /\
  restartTimeoutRef h' = Some (Timers.next_handle (timers h)) /\
  Timers.pending (timers h')
  = Timers.pending (timers h)
    ++ [{| Timers.handle := Timers.next_handle (timers h);
           Timers.due := now + restart_delay reason (S (restartAttemptRef h));
           Timers.closure := tt |}] /\
  error h' = error h.
Proof.
  intros He Hm Hr. unfold scheduleRestart. rewrite He, Hm, Hr. simpl.
  repeat split.
Qed.

(** *** Stopping *)

(** A hook that was stopped ignores its restart timer and its recogniser's
    events: nothing is scheduled and nothing is started. *)
Lemma stopped_hook_is_quiet (reason : restart_reason) (now : Z) (h : hook) :
  manuallyStoppedRef h = true ->
  scheduleRestart reason now h = h /\
  startRecognition h = h /\
  timers (restart_elapsed h) = timers h /\
  loading (restart_elapsed h) = loading h /\
  capturing (restart_elapsed h) = capturing h /\
  timers (sessionStopped now h) = timers h.
Proof.
  intros Hm.
  assert (Hs : forall k, manuallyStoppedRef k = true -> startRecognition k = k).
  { intros k Hk. unfold startRecognition. rewrite Hk, orb_true_r. reflexivity. }
  split; [unfold scheduleRestart; rewrite Hm, orb_true_r; reflexivity|].
  split; [exact (Hs h Hm)|].
  unfold restart_elapsed. rewrite Hs by exact Hm.
  unfold sessionStopped. cbn [set_status enabledRef manuallyStoppedRef].
  rewrite Hm, orb_true_r. repeat split.
Qed.

(** The scenario in which the browser hook restarts after a disable, on
    this hook: the session stops at time 0 and a restart is set for 1000
    ms; [enabled] turns false at 500 ms and the timer is gone; nothing
    starts afterwards. *)
Lemma disable_cancels_the_restart :
  let running := run [(0, SdkLoaded true); (0, StartSettled 0 true);
                      (0, SessionStarted)] (mount true true) in
  let stopped := run [(100, SessionStopped)] running in
  let disabled := run [(500, Render false)] stopped in
  let later := run [(1500, Wait); (60000, Wait)] disabled in
  capturing running = [0%nat] /\
  map Timers.due (Timers.pending (timers stopped)) = [100 + 1000] /\
  Timers.pending (timers disabled) = [] /\
  capturing disabled = [] /\
  capturing later = [] /\ loading later = 0%nat /\
  next_recognizer later = next_recognizer disabled.
Proof. vm_compute. repeat split. Qed.

(** What stopping does not reach: a [startRecognition] that is suspended
    at [await loadAzureSpeechSDK()] when [enabled] turns false (or the
    component unmounts). When the SDK has loaded the call goes on without
    looking at the refs again, and creates and starts a recogniser. *)
Lemma suspended_start_survives_disable :
  let loading_sdk := mount true true in
  let disabled := run [(100, Render false)] loading_sdk in
  let unmounted := run [(100, Unmount)] loading_sdk in
  loading loading_sdk = 1%nat /\
  manuallyStoppedRef disabled = true /\ capturing disabled = [] /\
  capturing (run [(200, SdkLoaded true)] disabled) = [0%nat] /\
  capturing (run [(200, SdkLoaded true)] unmounted) = [0%nat].
Proof. vm_compute. repeat split. Qed.

End AzureSpeechFacts.

(** ** The restart policy of the two speech hooks *)
Module RestartPolicy.

(** C5, the claim as stated fails on either hook. The browser hook waits
    the same 1500 ms before every restart: no backoff. The Azure hook backs
    off but never gives up: after ten failures in a row the eleventh
    restart is set, 30 s ahead, and the error shown is the service's, not a
    terminal one. *)
Lemma neither_hook_backs_off_and_gives_up :
  (let first := BrowserSpeech.run [(0, BrowserSpeech.RecognizerEnds)]
                  (BrowserSpeech.mount true true) in
   let second := BrowserSpeech.run [(2000, BrowserSpeech.RecognizerEnds)] first in
   map Timers.due (Timers.pending (BrowserSpeech.timers first)) = [0 + 1500] /\
   map Timers.due (Timers.pending (BrowserSpeech.timers second)) = [2000 + 1500]) /\
  (let h := AzureSpeech.run
              ((0, AzureSpeech.SdkLoaded true)
                 :: AzureSpeech.failing_service 10 1000
                 ++ [(401000, AzureSpeech.Canceled AzureSpeech.Error
                                "Service unavailable")])
              (AzureSpeech.mount true true) in
   AzureSpeech.restartAttemptRef h = 11%nat /\
   map Timers.due (Timers.pending (AzureSpeech.timers h)) = [401000 + 30000] /\
   AzureSpeech.error h = Some "Service unavailable").
Proof. vm_compute. repeat split. Qed.

(** C5, amended. The browser hook restarts after a fixed 1500 ms; it counts
    the restarts since capture was last enabled and, once three have been
    made, the next end of the recogniser sets the error "Speech recognition
    failed" and no timer, so that whatever the platform does at most
    [3 - restartAttempts] further restarts are ever set. The Azure hook
    waits 1000 ms after an ordinary end and, after a network or service
    failure, [min(30000, 1000 * 2^min(attempt, 5))] ms: 2, 4, 8 and 16
    seconds, then 30 seconds, never more; it sets the restart whatever the
    number of attempts. *)
Theorem restart_policy :
  (forall now h,
     BrowserSpeech.enabledRef h = true ->
     (BrowserSpeech.restartAttempts h < BrowserSpeech.MAX_RESTARTS)%nat ->
     let h' := BrowserSpeech.onend_handler now h in
     BrowserSpeech.restartAttempts h' = S (BrowserSpeech.restartAttempts h) /\
     Timers.pending (BrowserSpeech.timers h')
     = Timers.pending (BrowserSpeech.timers h)
       ++ [{| Timers.handle := Timers.next_handle (BrowserSpeech.timers h);
              Timers.due := now + 1500; Timers.closure := tt |}] /\
     BrowserSpeech.error h' = BrowserSpeech.error h) /\
  (forall now h,
     BrowserSpeech.enabledRef h = true ->
     (BrowserSpeech.MAX_RESTARTS <= BrowserSpeech.restartAttempts h)%nat ->
     let h' := BrowserSpeech.onend_handler now h in
     BrowserSpeech.error h' = Some "Speech recognition failed" /\
     BrowserSpeech.timers h' = BrowserSpeech.timers h /\
     BrowserSpeech.restartAttempts h' = BrowserSpeech.restartAttempts h) /\
  (forall tr h,
     forallb BrowserSpeech.platform_event tr = true ->
     (BrowserSpeech.restartAttempts h <= BrowserSpeech.MAX_RESTARTS)%nat ->
     (BrowserSpeech.scheduled (BrowserSpeech.run tr h)
      <= BrowserSpeech.scheduled h
         + (BrowserSpeech.MAX_RESTARTS - BrowserSpeech.restartAttempts h))%nat) /\
  (forall reason attempt,
     AzureSpeech.restart_delay reason attempt
     = match reason with
       | AzureSpeech.normal => 1000
       | _ => Z.min 30000 (1000 * 2 ^ Z.of_nat (Nat.min attempt 5))
       end /\
     1000 <= AzureSpeech.restart_delay reason attempt <= 30000 /\
     AzureSpeech.restart_delay reason attempt
     <= AzureSpeech.restart_delay reason (S attempt)) /\
  (forall reason now h,
     AzureSpeech.enabledRef h = true ->
     AzureSpeech.manuallyStoppedRef h = false ->
     AzureSpeech.restartTimeoutRef h = None ->
     let h' := AzureSpeech.scheduleRestart reason now h in
     AzureSpeech.restartAttemptRef h' = S (AzureSpeech.restartAttemptRef h) /\
     Timers.pending (AzureSpeech.timers h')
     = Timers.pending (AzureSpeech.timers h)
       ++ [{| Timers.handle := Timers.next_handle (AzureSpeech.timers h);
              Timers.due :=
                now + AzureSpeech.restart_delay reason
                        (S (AzureSpeech.restartAttemptRef h));
              Timers.closure := tt |}] /\
     AzureSpeech.error h' = AzureSpeech.error h).
Proof.
  split; [|split; [|split; [|split]]].
  - intros now h He Hlt. cbv zeta. unfold BrowserSpeech.onend_handler.
    cbn [BrowserSpeech.enabledRef BrowserSpeech.restartAttempts].
    rewrite He. cbn [negb]. apply Nat.leb_gt in Hlt. rewrite Hlt.
    repeat split.
  - intros now h He Hle. cbv zeta. unfold BrowserSpeech.onend_handler.
    cbn [BrowserSpeech.enabledRef BrowserSpeech.restartAttempts].
    rewrite He. cbn [negb]. apply Nat.leb_le in Hle. rewrite Hle.
    repeat split.
  - intros tr h Hall Hle.
    destruct (BrowserSpeechFacts.run_budget tr h Hall Hle) as [Hle' Heq]. lia.
  - intros reason attempt. split; [destruct reason; reflexivity|].
    apply AzureSpeechFacts.restart_delay_bounds.
  - intros reason now h He Hm Hr.
    destruct (AzureSpeechFacts.scheduleRestart_sets_a_timer reason now h He Hm Hr)
      as (Ha & _ & Hp & Herr).
    repeat split; assumption.
Qed.

Lemma restart_policy_witness :
  map Timers.due
    (Timers.pending
       (BrowserSpeech.timers
          (BrowserSpeech.onend_handler 0 (BrowserSpeech.mount true true))))
  = [1500] /\
  AzureSpeech.restart_delay AzureSpeech.service 3 = 8000.
Proof.
  split.
  - destruct restart_policy as (H & _).
    destruct (H 0 (BrowserSpeech.mount true true)) as (_ & Hp & _);
      [reflexivity | unfold BrowserSpeech.MAX_RESTARTS; simpl; lia |].
    rewrite Hp. reflexivity.
  - destruct restart_policy as (_ & _ & _ & H & _).
    destruct (H AzureSpeech.service 3%nat) as (Hd & _). rewrite Hd. reflexivity.
Defined.

End RestartPolicy.

Module TrimFacts.

Import JS.

Lemma trimEnd_idempotent (s : string) : trimEnd (trimEnd s) = trimEnd s.
Proof.
  induction s as [|c s IH]; simpl; [reflexivity|].
  destruct (is_white c && is_empty (trimEnd s)) eqn:E; simpl; [reflexivity|].
  rewrite IH, E. reflexivity.
Qed.

Lemma trimStart_trimEnd (s : string) :
  trimStart (trimEnd (trimStart s)) = trimEnd (trimStart s).
Proof.
  destruct (all_white s) eqn:Hs.
  - rewrite (JSFacts.trimStart_blank s Hs). reflexivity.
  - destruct (JSFacts.trimStart_head s Hs) as (c & rest & -> & Hc).
    simpl. rewrite Hc. simpl. rewrite Hc. reflexivity.
Qed.

(** Trimming what is trimmed changes nothing. *)
Lemma trim_idempotent (s : string) : trim (trim s) = trim s.
Proof.
  unfold trim. rewrite trimStart_trimEnd. apply trimEnd_idempotent.
Qed.

Lemma truthy_trim_is_turn (s : string) :
  truthy (trim s) = true ->
  Turns.is_turn (VoiceInterview.response_complete (trim s)) = true.
Proof.
  intros H. simpl. rewrite H, trim_idempotent, String.eqb_refl. reflexivity.
Qed.

End TrimFacts.

Module TurnsFacts.

Import VoiceInterview.
Import InterviewPage.

Lemma silence_elapsed_turns (ws : option socket_ref) (p : page) :
  forallb Turns.is_turn (sent (net p)) = true ->
  forallb Turns.is_turn (sent (net (silence_elapsed ws p))) = true.
Proof.
  intros H. unfold silence_elapsed. destruct ws as [s|]; [|exact H].
  destruct (JS.truthy (JS.trim (finalTranscript p))) eqn:Ht; [|exact H].
  unfold ws_send. destruct (readyState (net p)); simpl; try exact H.
  rewrite forallb_app, H. cbn [forallb].
  rewrite (TrimFacts.truthy_trim_is_turn _ Ht). reflexivity.
Qed.

Lemma fire_due_turns (fuel : nat) (now : Z) :
  forall p,
  forallb Turns.is_turn (sent (net p)) = true ->
  forallb Turns.is_turn (sent (net (fire_due fuel now p))) = true.
Proof.
  induction fuel as [|fuel IH]; intros p H; simpl; [exact H|].
  destruct (Timers.next_due now (timers p)) as [tm|]; [|exact H].
  apply IH. apply silence_elapsed_turns. exact H.
Qed.

Lemma onresult_net (ws : option socket_ref) (now : Z)
  (results : list speech_result) (p : page) :
  net (onresult ws now results p) = net p.
Proof.
  unfold onresult. destruct (scan_results _ results _ _ _) as [[f i] tl].
  reflexivity.
Qed.

Lemma play_turns (ws : option socket_ref)
  (events : list (Z * list speech_result)) :
  forall p,
  forallb Turns.is_turn (sent (net p)) = true ->
  forallb Turns.is_turn (sent (net (play ws events p))) = true.
Proof.
  unfold play. induction events as [|[t rs] events IH]; intros p H; simpl;
    [exact H|].
  apply IH. rewrite onresult_net. apply fire_due_turns. exact H.
Qed.

(** X1. Whatever the recogniser reports and whenever the silence timer
    elapses, everything the page has put on the socket is a turn with
    something to say and no white space at either end. *)
Theorem every_turn_sent_is_trimmed (ws : option socket_ref)
  (events : list (Z * list speech_result)) (now : Z) :
  forallb Turns.is_turn
    (sent (net (advance now (play ws events listening)))) = true /\
  forallb Turns.is_turn
    (sent (net (settle (play ws events listening)))) = true.
Proof.
  split; apply fire_due_turns; apply play_turns; reflexivity.
Qed.

End TurnsFacts.

Module PlayoutFacts.

Import AudioPlayer.
Import Playout.

Lemma run_app (a b : list event) (p : player) :
  run (a ++ b) p = run b (run a p).
Proof. unfold run. apply fold_left_app. Qed.

Lemma awaiting_playNext (p : player) :
  match playNext p with
  | Returned p' | Threw _ p' => awaiting p' = awaiting p
  end.
Proof.
  unfold playNext. destruct (audioQueue p); [reflexivity|].
  destruct (audioContext p); reflexivity.
Qed.

Lemma awaiting_resume (r : result unit) (p : player) :
  awaiting (playChunk_resume r p) = tl (awaiting p).
Proof.
  unfold playChunk_resume. destruct (awaiting p) as [|c others] eqn:Ha;
    [rewrite Ha; reflexivity|].
  unfold playChunk_body. destruct r as [u|e]; [|reflexivity].
  destruct (decode _ c) as [b|e]; [|reflexivity].
  destruct (isPlaying _); [reflexivity|].
  match goal with |- context [playNext ?x] =>
    pose proof (awaiting_playNext x) as H; destruct (playNext x)
  end; simpl; rewrite H; reflexivity.
Qed.

Lemma resumes_empty_awaiting (n : nat) :
  forall p, List.length (awaiting p) = n ->
  awaiting (run (repeat (Resume (Ok tt)) n) p) = [].
Proof.
  induction n as [|n IH]; intros p Hn; simpl.
  - destruct (awaiting p); [reflexivity | discriminate].
  - apply IH. rewrite awaiting_resume.
    destruct (awaiting p); simpl in *; [discriminate | lia].
Qed.

Lemma playback_repeat_resume (n : nat) :
  forallb playback_event (repeat (Resume (Ok tt)) n) = true.
Proof. induction n; simpl; auto. Qed.

Lemma calls_repeat_resume (n : nat) :
  calls (repeat (Resume (Ok tt)) n) = [].
Proof. induction n; simpl; auto. Qed.

(** Draining is a run of [SourceEnded] events. *)
Lemma drain_is_a_run (n : nat) :
  forall p, exists ids, drain n p = run (map SourceEnded ids) p.
Proof.
  induction n as [|n IH]; intros p; simpl; [exists []; reflexivity|].
  destruct (now_playing p) as [id|]; [|exists []; reflexivity].
  destruct (IH (source_ended id p)) as [ids Hids].
  exists (id :: ids). rewrite Hids. reflexivity.
Qed.

Lemma playback_ends (ids : list nat) :
  forallb playback_event (map SourceEnded ids) = true.
Proof. induction ids; simpl; auto. Qed.

Lemma calls_ends (ids : list nat) : calls (map SourceEnded ids) = [].
Proof. induction ids; simpl; auto. Qed.

Lemma ends_keep_awaiting (ids : list nat) :
  forall p, awaiting (run (map SourceEnded ids) p) = awaiting p.
Proof.
  induction ids as [|id ids IH]; intros p; simpl; [reflexivity|].
  unfold run in IH. rewrite IH. unfold source_ended.
  destruct (existsb _ _); [|reflexivity].
  match goal with |- context [playNext ?x] =>
    pose proof (awaiting_playNext x) as H; destruct (playNext x)
  end; simpl; rewrite H; reflexivity.
Qed.

Lemma drain_idle (n : nat) :
  forall p, sound p -> (List.length (audioQueue p) < n)%nat ->
  sources (drain n p) = [] /\ audioQueue (drain n p) = [] /\
  isPlaying (drain n p) = false.
Proof.
  induction n as [|n IH]; intros p Hp Hlen; [lia|].
  pose proof Hp as [Hc Hd Hu Hs Hcur Hf Hi]. simpl.
  unfold now_playing. destruct (sources p) as [|[id b] rest] eqn:Hsrc.
  - rewrite Hsrc. repeat split; auto.
  - destruct rest; [|simpl in Hs; lia].
    pose proof (AudioPlayerFacts.sound_source_ended id p Hp) as Hq.
    destruct (audioQueue p) as [|b' queue] eqn:Hqueue.
    + assert (Hidle : sources (source_ended id p) = []
                      /\ audioQueue (source_ended id p) = []).
      { unfold source_ended. rewrite Hsrc. unfold is_source. simpl.
        rewrite Nat.eqb_refl. simpl. unfold playNext. simpl.
        rewrite Hqueue. simpl. split; reflexivity. }
      destruct Hidle as [Hs' Hq'].
      destruct n as [|n]; simpl.
      * repeat split; auto. rewrite (sound_flag _ Hq), Hs'. reflexivity.
      * unfold now_playing. rewrite Hs'. repeat split; auto.
        rewrite (sound_flag _ Hq), Hs'. reflexivity.
    + apply IH; [exact Hq|].
      unfold source_ended. rewrite Hsrc. unfold is_source. simpl.
      rewrite Nat.eqb_refl. simpl. unfold playNext. simpl.
      rewrite Hqueue, Hc. simpl. simpl in Hlen. lia.
Qed.

Lemma playback_from (es : list event) :
  forall tr p, forallb playback_event es = true ->
  sound p -> accounted tr p ->
  sound (run es p) /\ accounted (tr ++ es) (run es p).
Proof.
  induction es as [|e es IH]; intros tr p Hall Hs Ha; simpl.
  - rewrite app_nil_r. split; assumption.
  - simpl in Hall. apply andb_true_iff in Hall as [He Hes].
    destruct (IH (tr ++ [e]) (step p e) Hes) as [Hs' Ha'].
    + apply AudioPlayerFacts.sound_step; assumption.
    + apply AudioPlayerFacts.accounted_step; assumption.
    + rewrite <- app_assoc in Ha'. split; assumption.
Qed.

(** A player that was only ever asked to play, played out. *)
Lemma played_out (tr : list event) (p : player) :
  sound p -> accounted tr p ->
  let q := play_out p in
  started (timeline q) = decoded (calls tr) /\
  audioQueue q = [] /\ awaiting q = [] /\ audible q = [] /\
  isPlaying q = false /\ no_overlap (timeline q) /\ uncaught q = [].
Proof.
  intros Hp Hacc0. cbv zeta. unfold play_out, resume_all.
  set (n := List.length (awaiting p)).
  destruct (playback_from (repeat (Resume (Ok tt)) n) tr p
              (playback_repeat_resume n) Hp Hacc0) as [Hrs Hracc].
  set (r := run (repeat (Resume (Ok tt)) n) p) in *.
  assert (Hra : awaiting r = [])
    by (apply resumes_empty_awaiting; reflexivity).
  destruct (drain_is_a_run (S (List.length (audioQueue r))) r) as [ids Hids].
  destruct (playback_from (map SourceEnded ids) _ r (playback_ends ids)
              Hrs Hracc) as [Hsound Hacc].
  rewrite <- Hids in Hsound, Hacc.
  destruct (drain_idle (S (List.length (audioQueue r))) r Hrs
              (Nat.lt_succ_diag_r _)) as (Hsrc & Hqueue & Hflag).
  assert (Haw : awaiting (drain (S (List.length (audioQueue r))) r) = []).
  { rewrite Hids, ends_keep_awaiting. exact Hra. }
  unfold accounted in Hacc.
  rewrite Hqueue, Haw in Hacc. simpl in Hacc. rewrite app_nil_r in Hacc.
  rewrite !AudioPlayerFacts.calls_app, calls_repeat_resume, calls_ends,
    !app_nil_r in Hacc.
  repeat split; try assumption.
  - unfold audible. rewrite Hsrc.
    destruct (device_open _); reflexivity.
  - unfold no_overlap. rewrite (sound_cursor _ Hsound). discriminate.
  - exact (sound_uncaught _ Hsound).
Qed.

(** When the source that plays ends, the head of the queue is started at
    once and is the one source audible. *)
Lemma source_ended_starts_the_next (p : player) (id : nat) (b : AudioBuffer)
  (rest : list AudioBuffer) :
  sound p -> now_playing p = Some id -> audioQueue p = b :: rest ->
  started (timeline (source_ended id p)) = started (timeline p) ++ [b] /\
  audioQueue (source_ended id p) = rest /\
  audible (source_ended id p) = [(next_source p, b)].
Proof.
  intros Hs Hnow Hq. destruct Hs as [Hc Hd Hu Hsingle Hcur Hf Hi].
  unfold now_playing in Hnow.
  destruct (sources p) as [|[id0 b0] [|s l]] eqn:Hsrc;
    [discriminate | | simpl in Hsingle; lia].
  injection Hnow as ->.
  unfold source_ended. rewrite Hsrc. cbn [existsb filter is_source fst].
  assert (His : is_source id (id, b0) = true)
    by (unfold is_source; apply Nat.eqb_refl).
  rewrite His. cbn [orb negb].
  unfold playNext. cbn [audioQueue audioContext]. rewrite Hq, Hc.
  unfold audible. cbn [timeline audioQueue device_open sources next_source].
  rewrite Hd, !AudioPlayerFacts.started_app. simpl. rewrite app_nil_r.
  repeat split.
Qed.

(** C1. Whatever chunks are passed to [playChunk], in whatever rhythm the
    suspended calls resume and the sources finish. At every moment of the
    run: at most one source is audible, the timeline never has a source
    start while another plays, every decoded buffer is started or queued or
    still waiting in call order (none is lost), a buffer waits in the queue
    only while a source is playing, no handler throws, and the end of the
    playing source starts the buffer at the head of the queue. And the
    buffers are played: once the suspended calls have resumed and the
    sources have finished one after the other, the buffers that were
    started are the decoded chunks of the run, each once, in call order,
    with nothing left queued, waiting or audible and no two of them ever
    overlapping. *)
Theorem playback_in_arrival_order (tr : list event) :
  forallb playback_event tr = true ->
  let p := run tr (new_player true) in
  let q := play_out p in
  (List.length (audible p) <= 1)%nat /\
  no_overlap (timeline p) /\
  started (timeline p) ++ audioQueue p ++ decoded (awaiting p)
    = decoded (calls tr) /\
  (audioQueue p = [] \/ List.length (audible p) = 1%nat) /\
  uncaught p = [] /\
  (forall id b rest,
     now_playing p = Some id -> audioQueue p = b :: rest ->
     started (timeline (source_ended id p)) = started (timeline p) ++ [b] /\
     audioQueue (source_ended id p) = rest /\
     audible (source_ended id p) = [(next_source p, b)]) /\
  started (timeline q) = decoded (calls tr) /\
  audioQueue q = [] /\ awaiting q = [] /\ audible q = [] /\
  no_overlap (timeline q) /\ uncaught q = [].
Proof.
  intros Hall. destruct (AudioPlayerFacts.playback_invariant tr Hall) as [Hs Ha].
  destruct (played_out tr _ Hs Ha)
    as (Q1 & Q2 & Q3 & Q4 & _ & Q6 & Q7).
  pose proof (source_ended_starts_the_next (run tr (new_player true))) as Hnext.
  destruct Hs as [Hc Hd Hu Hsingle Hcur Hf Hi]. cbv zeta.
  split; [|split; [|split; [|split; [|split; [|split]]]]].
  - unfold audible. rewrite Hd. exact Hsingle.
  - unfold no_overlap. rewrite Hcur. discriminate.
  - exact Ha.
  - unfold audible. rewrite Hd.
    destruct (isPlaying (run tr (new_player true))) eqn:Hplay.
    + right. destruct (sources (run tr (new_player true))) as [|s [|s' l]];
        [discriminate | reflexivity | simpl in Hsingle; lia].
    + left. exact (Hi eq_refl).
  - exact Hu.
  - intros id b rest. apply Hnext. constructor; assumption.
  - repeat split; assumption.
Qed.

Lemma playback_in_arrival_order_witness :
  forallb playback_event two_chunks = true /\
  List.length (decoded (calls two_chunks)) = 3%nat /\
  started (timeline (run two_chunks (new_player true)))
  ++ audioQueue (run two_chunks (new_player true))
  = decoded (calls two_chunks) /\
  List.length (audioQueue (run two_chunks (new_player true))) = 1%nat /\
  started (timeline (play_out (run two_chunks (new_player true))))
  = decoded (calls two_chunks).
Proof.
  split; [reflexivity|]. split; [reflexivity|]. split; [reflexivity|].
  split; [reflexivity|].
  destruct (playback_in_arrival_order two_chunks eq_refl)
    as (_ & _ & _ & _ & _ & _ & H & _).
  exact H.
Defined.

(** X2. Every chunk that decodes is played, once, in the order of the
    calls: when the suspended calls have resumed and the sources have
    finished one after the other, the buffers that were started are the
    decoded chunks of the run in call order, nothing waits any more, nothing
    is audible, no two sources ever overlapped and no handler threw. *)
Theorem every_decoded_chunk_is_played (tr : list event) :
  forallb playback_event tr = true ->
  let q := play_out (run tr (new_player true)) in
  started (timeline q) = decoded (calls tr) /\
  audioQueue q = [] /\ awaiting q = [] /\ audible q = [] /\
  isPlaying q = false /\ no_overlap (timeline q) /\ uncaught q = [].
Proof.
  intros Htr.
  destruct (AudioPlayerFacts.playback_invariant tr Htr) as [Hsound Hacc].
  apply (played_out tr _ Hsound Hacc).
Qed.

Lemma every_decoded_chunk_is_played_witness :
  forallb playback_event two_chunks = true /\
  List.length (started (timeline (play_out (run two_chunks (new_player true)))))
  = 3%nat.
Proof.
  split; [reflexivity|].
  rewrite (proj1 (every_decoded_chunk_is_played two_chunks eq_refl)).
  reflexivity.
Defined.

(** *** [stopAll] *)

Lemma step_without_queue (p : player) (e : event) :
  no_resume e = true -> audioQueue p = [] ->
  audioQueue (step p e) = [] /\
  started (timeline (step p e)) = started (timeline p).
Proof.
  intros He Hq. destruct e as [c|r|id| |]; simpl in *; try discriminate.
  - unfold playChunk_call. destruct (audioContext p); simpl; auto.
  - unfold source_ended. destruct (existsb _ _); [|auto].
    unfold playNext. cbn [audioQueue]. rewrite Hq. simpl.
    rewrite AudioPlayerFacts.started_app. simpl. rewrite app_nil_r. auto.
  - auto.
  - unfold close, stopAll. simpl. destruct (audioContext p); simpl; auto.
Qed.

(** X3. [stopAll] cancels what is queued: the buffers that were waiting
    are never started, and nothing at all is started afterwards for as long
    as no suspended call of [playChunk] resumes, whatever else happens
    (chunks arrive, the playing source finishes, the player is stopped or
    closed again). *)
Theorem nothing_starts_after_stopAll (p : player) (after : list event) :
  forallb no_resume after = true ->
  let q := run (StopAll :: after) p in
  started (timeline q) = started (timeline p) /\ audioQueue q = [].
Proof.
  intros Hall. cbv zeta. simpl.
  assert (H : forall p0, audioQueue p0 = [] ->
              started (timeline (fold_left step after p0))
              = started (timeline p0)
              /\ audioQueue (fold_left step after p0) = []).
  { induction after as [|e after IH]; intros p0 Hq; simpl; [auto|].
    simpl in Hall. apply andb_true_iff in Hall as [He Hafter].
    destruct (step_without_queue p0 e He Hq) as [Hq' Hs'].
    destruct (IH Hafter (step p0 e) Hq') as [Hs'' Hq''].
    split; [congruence | exact Hq'']. }
  apply (H (stopAll p)). reflexivity.
Qed.

Lemma nothing_starts_after_stopAll_witness :
  let p := run [PlayChunk "AAD/fw=="; PlayChunk "AID//w=="; Resume (Ok tt);
                Resume (Ok tt)] (new_player true) in
  List.length (audioQueue p) = 1%nat /\
  started (timeline (run [StopAll; SourceEnded 0; PlayChunk "AAA="] p))
  = started (timeline p).
Proof.
  split; [reflexivity|].
  apply (nothing_starts_after_stopAll
           (run [PlayChunk "AAD/fw=="; PlayChunk "AID//w=="; Resume (Ok tt);
                 Resume (Ok tt)] (new_player true))
           [SourceEnded 0; PlayChunk "AAA="]).
  reflexivity.
Defined.

(** *** A player without its context *)

Lemma step_without_context (p : player) (e : event) :
  audioContext p = None -> audioQueue p = [] -> awaiting p = [] ->
  audioContext (step p e) = None /\ audioQueue (step p e) = [] /\
  awaiting (step p e) = [] /\ started (timeline (step p e)) = started (timeline p) /\
  uncaught (step p e) = uncaught p /\ device_open (step p e) = device_open p /\
  console (step p e)
  = console p ++ match e with
                 | PlayChunk _ => [log_no_audio_context]
                 | _ => []
                 end.
Proof.
  intros Hc Hq Ha. destruct e as [c|r|id| |]; simpl.
  - unfold playChunk_call. rewrite Hc. simpl. repeat split; assumption.
  - unfold playChunk_resume. rewrite Ha, app_nil_r. repeat split; assumption.
  - unfold source_ended. destruct (existsb _ _).
    + unfold playNext. cbn [audioQueue]. rewrite Hq. simpl.
      rewrite AudioPlayerFacts.started_app, ?app_nil_r. simpl.
      rewrite ?app_nil_r. repeat split; assumption.
    + rewrite app_nil_r. repeat split; assumption.
  - rewrite app_nil_r. repeat split; assumption.
  - unfold close, stopAll. simpl. rewrite Hc, app_nil_r.
    repeat split; assumption.
Qed.

(** X4. A player made where there is no [window] has no audio context,
    and stays so: every call of [playChunk] is refused at once with the log
    "No audio context", one log per call, nothing is queued, suspended or
    started, the device is never opened and no handler throws, whatever is
    called on it. *)
Theorem player_without_context_refuses (tr : list event) :
  let p := run tr (new_player false) in
  console p = repeat log_no_audio_context (List.length (calls tr)) /\
  started (timeline p) = [] /\ audioQueue p = [] /\ awaiting p = [] /\
  audioContext p = None /\ device_open p = false /\ uncaught p = [].
Proof.
  cbv zeta. induction tr as [|e tr IH] using rev_ind; [repeat split|].
  destruct IH as (Hlog & Hs & Hq & Ha & Hc & Hd & Hu).
  rewrite AudioPlayerFacts.run_snoc.
  destruct (step_without_context (run tr (new_player false)) e Hc Hq Ha)
    as (Hc' & Hq' & Ha' & Hs' & Hu' & Hd' & Hlog').
  rewrite Hlog', Hlog, AudioPlayerFacts.calls_app, length_app.
  repeat split; try congruence.
  destruct e; simpl; rewrite ?app_nil_r, ?Nat.add_0_r; try reflexivity.
  rewrite Nat.add_1_r. change [log_no_audio_context] with (repeat log_no_audio_context 1).
  rewrite <- repeat_app. rewrite Nat.add_1_r. reflexivity.
Qed.

End PlayoutFacts.

Module VoiceMessagesFacts.

Import VoiceInterview.
Import VoiceMessages.

Lemma handle_all_app (a b : list message) (w : hook) :
  handle_all (a ++ b) w = handle_all b (handle_all a w).
Proof. unfold handle_all. apply fold_left_app. Qed.

Lemma status_kept (ms : list message) :
  forall w, existsb leaves_connecting ms = false ->
  status (state (handle_all ms w)) = status (state w).
Proof.
  induction ms as [|m ms IH]; intros w H; [reflexivity|].
  cbn [existsb] in H. apply orb_false_iff in H as [Hm Hms].
  change (handle_all (m :: ms) w) with (handle_all ms (handleMessage m w)).
  rewrite (IH _ Hms), VoiceInterviewFacts.status_after.
  destruct m; simpl in Hm; try discriminate; reflexivity.
Qed.

(** X5. The status is that of the last message of kind [ready],
    [question] or [ended], whatever the status was before and in whatever
    order the messages come: [ready] gives [ready], [question] gives
    [active], [ended] gives [ended], also after the session has ended; the
    messages of every other kind leave the status as it is. *)
Theorem status_follows_the_last_status_message
  (before rest : list message) (m : message) (w : hook) :
  existsb leaves_connecting rest = false ->
  status (state (handle_all (before ++ m :: rest) w))
  = match m with
    | msg_ready => ready
    | msg_question _ _ => active
    | msg_ended _ => ended
    | _ => status (state (handle_all before w))
    end.
Proof.
  intros Hrest. rewrite handle_all_app.
  change (handle_all (m :: rest) ?x) with (handle_all rest (handleMessage m x)).
  rewrite (status_kept rest _ Hrest). apply VoiceInterviewFacts.status_after.
Qed.

Lemma status_follows_the_last_status_message_witness :
  existsb leaves_connecting [msg_ai_audio "AAA="; msg_ai_done_speaking] = false /\
  status (state (handle_all
                   ([msg_ended 7] ++ msg_question "Again?" 2
                      :: [msg_ai_audio "AAA="; msg_ai_done_speaking])
                   connected))
  = active.
Proof.
  split; [reflexivity|].
  apply (status_follows_the_last_status_message [msg_ended 7]
           [msg_ai_audio "AAA="; msg_ai_done_speaking]
           (msg_question "Again?" 2) connected).
  reflexivity.
Defined.

Lemma question_kept (ms : list message) :
  forall w, existsb is_question ms = false ->
  currentQuestion (state (handle_all ms w))
  = (currentQuestion (state w) ++ streamed ms)%string /\
  questionIndex (state (handle_all ms w)) = questionIndex (state w).
Proof.
  induction ms as [|m ms IH]; intros w H.
  - simpl. rewrite JSFacts.append_empty_r. split; reflexivity.
  - cbn [existsb] in H. apply orb_false_iff in H as [Hm Hms].
    change (handle_all (m :: ms) w) with (handle_all ms (handleMessage m w)).
    destruct (IH (handleMessage m w) Hms) as [Hq Hi]. rewrite Hq, Hi.
    destruct m; simpl in Hm; try discriminate; simpl;
      try (split; reflexivity).
    + destruct (audioPlayerRef w); split; reflexivity.
    + rewrite JSFacts.append_assoc. split; reflexivity.
Qed.

(** X6. The question shown is the text streamed since the last
    [question] message: that message clears the text (its own [text] is not
    used) and sets the index, and from then on the text is the texts of the
    [ai_transcript_delta] messages put end to end in the order they came,
    whatever other messages come between them. *)
Theorem question_text_is_streamed (text : string) (index : Z)
  (ms : list message) (w : hook) :
  existsb is_question ms = false ->
  let w' := handle_all (msg_question text index :: ms) w in
  currentQuestion (state w') = streamed ms /\
  questionIndex (state w') = index.
Proof.
  intros Hms. cbv zeta.
  change (handle_all (msg_question text index :: ms) w)
    with (handle_all ms (handleMessage (msg_question text index) w)).
  destruct (question_kept ms (handleMessage (msg_question text index) w) Hms)
    as [Hq Hi].
  rewrite Hq, Hi. split; reflexivity.
Qed.

Lemma question_text_is_streamed_witness :
  existsb is_question (tl (tl an_exchange)) = false /\
  currentQuestion (state (handle_all (tl an_exchange) connected))
  = "Tell me about yourself".
Proof.
  split; [reflexivity|].
  apply (question_text_is_streamed "Tell me about yourself" 1
           (tl (tl an_exchange)) connected).
  reflexivity.
Defined.

Lemma last_cons {A : Type} (l : list A) :
  forall a d : A, last (a :: l) d = last l a.
Proof.
  induction l as [|b l IH]; intros a d; [reflexivity|].
  change (last (a :: b :: l) d) with (last (b :: l) d).
  rewrite (IH b d), (IH b a). reflexivity.
Qed.

Lemma handleMessage_notifies (m : message) (w : hook) :
  net (handleMessage m w) = net w /\
  if updates m
  then notified (handleMessage m w)
       = notified w ++ [state (handleMessage m w)]
  else notified (handleMessage m w) = notified w
       /\ state (handleMessage m w) = state w.
Proof.
  destruct m; simpl; try (split; reflexivity);
    destruct (audioPlayerRef w); repeat split; reflexivity.
Qed.

(** X7. The page hears of every change of the state: [onStateChange] is
    called once, with the new state, for every message of kind [ready],
    [question], [ai_transcript_delta], [ai_done_speaking] or [ended], and
    not at all for the others, which do not change the state; so the last
    state it was given is the state the hook holds. Handling messages sends
    nothing. *)
Theorem state_changes_are_notified (ms : list message) (w : hook) :
  exists news,
    notified (handle_all ms w) = notified w ++ news /\
    List.length news = List.length (filter updates ms) /\
    state (handle_all ms w) = last news (state w) /\
    net (handle_all ms w) = net w.
Proof.
  revert w. induction ms as [|m ms IH]; intros w.
  - exists []. simpl. rewrite app_nil_r. repeat split.
  - change (handle_all (m :: ms) w) with (handle_all ms (handleMessage m w)).
    destruct (IH (handleMessage m w)) as (news & Hn & Hl & Hs & Hnet).
    destruct (handleMessage_notifies m w) as [Hnet' Hm].
    cbn [filter]. destruct (updates m).
    + exists (state (handleMessage m w) :: news).
      rewrite Hn, Hm, <- app_assoc, last_cons, Hs, Hnet, Hnet'.
      simpl. rewrite Hl. repeat split.
    + destruct Hm as [Hm Hst]. exists news.
      rewrite Hn, Hm, Hs, Hst, Hnet, Hnet'. repeat split. exact Hl.
Qed.

Lemma player_after (ms : list message) :
  forall w,
  audioPlayerRef (handle_all ms w)
  = option_map
      (AudioPlayer.run (map AudioPlayer.PlayChunk (audio_chunks ms)))
      (audioPlayerRef w).
Proof.
  induction ms as [|m ms IH]; intros w.
  - simpl. destruct (audioPlayerRef w); reflexivity.
  - change (handle_all (m :: ms) w) with (handle_all ms (handleMessage m w)).
    rewrite IH.
    destruct m; simpl; try reflexivity.
    destruct (audioPlayerRef w) eqn:Hp; simpl; rewrite ?Hp; reflexivity.
Qed.

Lemma playback_chunks (cs : list string) :
  forallb AudioPlayer.playback_event (map AudioPlayer.PlayChunk cs) = true
  /\ AudioPlayer.calls (map AudioPlayer.PlayChunk cs) = cs.
Proof.
  induction cs as [|c cs [IH1 IH2]]; simpl; [split; reflexivity|].
  rewrite IH1, IH2. split; reflexivity.
Qed.

(** X8. The hook hands every [ai_audio] chunk to its one player, in the
    order the messages arrive, and nothing else of what it handles touches
    the player. So for a connected hook, whatever the messages: once the
    player has played out, the buffers that were started are the chunks
    that decode, in arrival order, with no two of them overlapping. *)
Theorem audio_reaches_the_player_in_order (ms : list message) :
  (forall w,
     audioPlayerRef (handle_all ms w)
     = option_map
         (AudioPlayer.run (map AudioPlayer.PlayChunk (audio_chunks ms)))
         (audioPlayerRef w)) /\
  exists pl,
    audioPlayerRef (handle_all ms connected) = Some pl /\
    AudioPlayer.awaiting pl = audio_chunks ms /\
    AudioPlayer.started (AudioPlayer.timeline (Playout.play_out pl))
    = AudioPlayer.decoded (audio_chunks ms) /\
    AudioPlayer.no_overlap (AudioPlayer.timeline (Playout.play_out pl)) /\
    AudioPlayer.audible (Playout.play_out pl) = [].
Proof.
  split; [apply player_after|].
  rewrite player_after. simpl. eexists. split; [reflexivity|].
  destruct (playback_chunks (audio_chunks ms)) as [Hall Hcalls].
  destruct (AudioPlayerFacts.playback_invariant _ Hall) as [Hsound Hacc].
  destruct (PlayoutFacts.played_out _ _ Hsound Hacc)
    as (Hst & _ & _ & Haud & _ & Hno & _).
  rewrite Hcalls in Hst. repeat split; try assumption.
  clear. induction (audio_chunks ms) as [|c cs IH] using rev_ind;
    [reflexivity|].
  rewrite map_app. simpl. rewrite AudioPlayerFacts.run_snoc. simpl.
  unfold AudioPlayer.playChunk_call.
  destruct (AudioPlayerFacts.playback_invariant _
              (proj1 (playback_chunks cs))) as [Hs _].
  rewrite (AudioPlayer.sound_context _ Hs). simpl. rewrite IH. reflexivity.
Qed.

End VoiceMessagesFacts.

Module ChronologyFacts.

Import VoiceInterview.
Import InterviewPage.
Import Chronology.

(** *** One silence timer *)

Lemma single_fire_due (ws : option socket_ref) (fuel : nat) (now : Z) :
  forall p, single ws p -> single ws (fire_due fuel now p).
Proof.
  induction fuel as [|fuel IH]; intros p Hp; simpl; [exact Hp|].
  destruct (Timers.next_due now (timers p)) as [tm|]; [|exact Hp].
  apply IH. destruct Hp as [Hlen Hin].
  assert (Hkeep : forall q, timers (silence_elapsed (Timers.closure tm) q) = timers q
                            /\ silenceTimerRef (silence_elapsed (Timers.closure tm) q)
                               = silenceTimerRef q).
  { intros q. unfold silence_elapsed. destruct (Timers.closure tm); [|auto].
    destruct (JS.truthy _); [|auto]. destruct (ws_send _ _); auto. }
  destruct (Hkeep (set_timers (Timers.clearTimeout (Timers.handle tm) (timers p)) p))
    as [Ht Hr].
  unfold single. rewrite Ht, Hr. simpl. split.
  - eapply Nat.le_trans; [apply filter_length_le | exact Hlen].
  - intros x Hx. apply filter_In in Hx as [Hx _]. exact (Hin x Hx).
Qed.

Lemma single_onresult (ws : option socket_ref) (now : Z)
  (results : list speech_result) (p : page) :
  single ws p -> single ws (onresult ws now results p).
Proof.
  intros [Hlen Hin]. unfold onresult.
  destruct (scan_results _ results _ _ _) as [[f i] tl].
  assert (Hcleared :
            Timers.pending
              match silenceTimerRef p with
              | Some h => Timers.clearTimeout h (timers p)
              | None => timers p
              end = []).
  { destruct (Timers.pending (timers p)) as [|tm rest] eqn:Hp.
    - destruct (silenceTimerRef p); simpl; rewrite ?Hp; reflexivity.
    - destruct rest; [|simpl in Hlen; lia].
      destruct (Hin tm (or_introl eq_refl)) as [Hr _]. rewrite Hr.
      simpl. rewrite Hp. simpl. rewrite Nat.eqb_refl. reflexivity. }
  unfold single. simpl. rewrite Hcleared. simpl. split; [lia|].
  intros tm [<-|[]]. split; reflexivity.
Qed.

(** X9. At no moment of a run is more than one silence timer pending:
    whatever results the recogniser reports (final or interim, one or many
    at a time) and whenever time passes, the timers the page has pending
    are none, or the one [silenceTimerRef] names, whose callback closes over
    the handler's socket. *)
Theorem one_silence_timer (ws : option socket_ref)
  (events : list (Z * list speech_result)) (now : Z) :
  let p := advance now (play ws events listening) in
  (List.length (Timers.pending (timers p)) <= 1)%nat /\
  (forall tm, In tm (Timers.pending (timers p)) ->
     silenceTimerRef p = Some (Timers.handle tm) /\ Timers.closure tm = ws) /\
  (List.length (Timers.pending (timers (play ws events listening))) <= 1)%nat.
Proof.
  cbv zeta.
  assert (H : forall p, single ws p -> single ws (play ws events p)).
  { unfold play. induction events as [|[t rs] events IH]; intros p Hp; simpl;
      [exact Hp|].
    apply IH. apply single_onresult. apply single_fire_due. exact Hp. }
  assert (H0 : single ws listening) by (split; simpl; [lia | intros tm []]).
  destruct (single_fire_due ws
              (List.length (Timers.pending (timers (play ws events listening))))
              now _ (H _ H0)) as [Hlen Hin].
  split; [exact Hlen|]. split; [exact Hin|]. apply (H _ H0).
Qed.

(** *** The timeline *)

Lemma scan_results_timeline (t : Q) (results : list speech_result) :
  forall final interim timeline,
  exists evs,
    snd (scan_results t results final interim timeline) = timeline ++ evs /\
    Forall (stamped t) evs.
Proof.
  induction results as [|[x [|]] results IH]; intros final interim timeline;
    cbn [scan_results].
  - exists []. rewrite app_nil_r. split; [reflexivity | constructor].
  - assert (Hd : detectFillerWords x t timeline
                 = timeline
                   ++ map (filler_event t)
                        (filter (fun w => JS.includes fillerWords (strip w))
                           (JS.split JS.space (JS.toLowerCase x))))
      by apply InterviewPageFacts.detect_fold.
    rewrite Hd.
    match goal with |- context [scan_results t results ?f ?i ?tl] =>
      destruct (IH f i tl) as (evs & Hevs & Hall)
    end.
    eexists. rewrite Hevs, <- app_assoc. split; [reflexivity|].
    apply Forall_app. split; [|exact Hall].
    apply Forall_forall. intros e He. apply in_map_iff in He as (w & <- & _).
    split; reflexivity.
  - apply IH.
Qed.

Lemma fire_due_timeline (fuel : nat) (now : Z) :
  forall p,
  timelineRef (fire_due fuel now p) = timelineRef p /\
  interviewStartTimeRef (fire_due fuel now p) = interviewStartTimeRef p.
Proof.
  induction fuel as [|fuel IH]; intros p; simpl; [split; reflexivity|].
  destruct (Timers.next_due now (timers p)) as [tm|]; [|split; reflexivity].
  match goal with |- context [fire_due fuel now ?q] =>
    destruct (IH q) as [Ht Hs]
  end.
  rewrite Ht, Hs. unfold silence_elapsed. destruct (Timers.closure tm); [|auto].
  destruct (JS.truthy _); [|auto]. destruct (ws_send _ _); auto.
Qed.

Lemma stamp_monotone (a b start : Z) :
  a <= b ->
  (inject_Z (a - start) / 1000 <= inject_Z (b - start) / 1000)%Q.
Proof.
  intros H. unfold Qle, Qdiv, Qmult, Qinv, inject_Z. simpl. lia.
Qed.

Lemma chronological_step (a b : TimelineEvent) (l : list TimelineEvent) :
  chronological (a :: b :: l)
  = Qle_bool (timestamp a) (timestamp b) && chronological (b :: l).
Proof. reflexivity. Qed.

Lemma chronological_same (t : Q) (evs : list TimelineEvent) :
  Forall (stamped t) evs -> chronological evs = true.
Proof.
  induction evs as [|a evs IH]; intros Hevs; [reflexivity|].
  inversion Hevs as [|? ? [Ha _] Hrest]; subst.
  destruct evs as [|b evs]; [reflexivity|].
  inversion Hrest as [|? ? [Hb _] _]; subst.
  rewrite chronological_step, (IH Hrest), andb_true_r.
  apply Qle_bool_iff. rewrite Hb. apply Qle_refl.
Qed.

Lemma chronological_app (t : Q) (old evs : list TimelineEvent) :
  chronological old = true ->
  Forall (fun e => (timestamp e <= t)%Q) old ->
  Forall (stamped t) evs ->
  chronological (old ++ evs) = true /\
  Forall (fun e => (timestamp e <= t)%Q) (old ++ evs).
Proof.
  intros Hc Hold Hevs.
  assert (Hevs' : Forall (fun e => (timestamp e <= t)%Q) evs).
  { eapply Forall_impl; [|exact Hevs]. intros e [-> _]. apply Qle_refl. }
  split; [|apply Forall_app; split; assumption].
  induction old as [|a old IH]; [exact (chronological_same t evs Hevs)|].
  inversion Hold as [|? ? Ha Hold']; subst.
  destruct old as [|b old].
  - destruct evs as [|e evs]; [reflexivity|].
    change (chronological (a :: e :: evs) = true).
    rewrite chronological_step. apply andb_true_iff. split.
    + apply Qle_bool_iff.
      inversion Hevs as [|? ? [He _] _]; subst. exact Ha.
    + exact (chronological_same _ _ Hevs).
  - rewrite chronological_step in Hc. apply andb_true_iff in Hc as [Hab Hc].
    change (chronological (a :: b :: old ++ evs) = true).
    rewrite chronological_step, Hab. apply (IH Hc Hold').
Qed.

Lemma Forall_stamped_filler (t : Q) (evs : list TimelineEvent) :
  Forall (stamped t) evs -> forallb is_filler_warning evs = true.
Proof.
  induction 1 as [|e evs [_ He] _ IH]; simpl; [reflexivity|].
  rewrite He, IH. reflexivity.
Qed.

Lemma play_timeline (ws : option socket_ref)
  (events : list (Z * list speech_result)) :
  forall (last : Z) (p : page),
  ascending (last :: map fst events) = true ->
  chronological (timelineRef p) = true ->
  forallb is_filler_warning (timelineRef p) = true ->
  Forall (fun e => (timestamp e <= getCurrentTimestamp last p)%Q)
    (timelineRef p) ->
  chronological (timelineRef (play ws events p)) = true /\
  forallb is_filler_warning (timelineRef (play ws events p)) = true.
Proof.
  unfold play. induction events as [|[t rs] events IH];
    intros last p Hasc Hc Hf Hb; [split; assumption|].
  cbn [map fst ascending] in Hasc. apply andb_true_iff in Hasc as [Hle Hasc].
  apply Z.leb_le in Hle. cbn [fold_left fst snd].
  destruct (fire_due_timeline (List.length (Timers.pending (timers p))) t p)
    as [Htl Hst].
  fold (advance t p) in Htl, Hst.
  set (q := advance t p) in *.
  destruct (scan_results_timeline (getCurrentTimestamp t q) rs
              (finalTranscript q) "" (timelineRef q)) as (evs & Hevs & Hall).
  assert (Hq : timelineRef (onresult ws t rs q) = timelineRef q ++ evs
               /\ interviewStartTimeRef (onresult ws t rs q)
                  = interviewStartTimeRef p).
  { unfold onresult.
    destruct (scan_results _ rs _ _ _) as [[f i] tl]. simpl in *.
    split; [exact Hevs | exact Hst]. }
  destruct Hq as [Hq Hstart].
  assert (Hold : Forall (fun e => (timestamp e <= getCurrentTimestamp t q)%Q)
                   (timelineRef q)).
  { rewrite Htl. eapply Forall_impl; [|exact Hb]. intros e He.
    eapply Qle_trans; [exact He|].
    unfold getCurrentTimestamp. rewrite Hst. apply stamp_monotone. exact Hle. }
  rewrite <- Htl in Hc, Hf.
  destruct (chronological_app _ _ _ Hc Hold Hall) as [Hc' Hb'].
  apply (IH t).
  - exact Hasc.
  - rewrite Hq. exact Hc'.
  - rewrite Hq, forallb_app, Hf, (Forall_stamped_filler _ _ Hall). reflexivity.
  - rewrite Hq. unfold getCurrentTimestamp in *. rewrite Hstart, <- Hst.
    exact Hb'.
Qed.

End ChronologyFacts.

Module SessionFacts.

Import VoiceInterview.
Import InterviewPage.
Import Chronology.
Import Session.

Lemma chronological_prefix (t : Q) (evs rest : list TimelineEvent) :
  Forall (fun e => timestamp e = t) evs ->
  chronological rest = true ->
  Forall (fun e => (t <= timestamp e)%Q) rest ->
  chronological (evs ++ rest) = true.
Proof.
  intros Hevs Hc Hrest. induction evs as [|a evs IH]; [exact Hc|].
  inversion Hevs as [|? ? Ha Hevs']; subst.
  specialize (IH Hevs').
  destruct evs as [|b evs].
  - destruct rest as [|r rest]; [reflexivity|].
    change (chronological (a :: r :: rest) = true).
    rewrite ChronologyFacts.chronological_step, Hc, andb_true_r.
    apply Qle_bool_iff. inversion Hrest; subst. assumption.
  - change (chronological (a :: b :: evs ++ rest) = true).
    rewrite ChronologyFacts.chronological_step.
    change (b :: evs ++ rest) with ((b :: evs) ++ rest). rewrite IH, andb_true_r.
    apply Qle_bool_iff. inversion Hevs' as [|? ? Hb _]; subst.
    rewrite Hb. apply Qle_refl.
Qed.

Lemma stamped_from_cons (origin t : Z) (times : list Z) (e : TimelineEvent) :
  stamped_from origin times e = true ->
  stamped_from origin (t :: times) e = true.
Proof.
  unfold stamped_from. cbn [existsb]. intros ->. apply orb_true_r.
Qed.

Lemma stamped_from_head (origin t : Z) (times : list Z) (e : TimelineEvent) :
  timestamp e = (inject_Z (t - origin) / 1000)%Q ->
  stamped_from origin (t :: times) e = true.
Proof.
  unfold stamped_from. cbn [existsb]. intros ->.
  rewrite (proj2 (Qeq_bool_iff _ _) (Qeq_refl _)). reflexivity.
Qed.

(** What one event adds to the timeline. *)
Lemma page_step_logs (ws : option socket_ref) (p : page) (ev : Z * page_event) :
  no_start ev = true ->
  exists evs,
    timelineRef (page_step ws p ev) = timelineRef p ++ evs /\
    interviewStartTimeRef (page_step ws p ev) = interviewStartTimeRef p /\
    Forall (fun e => timestamp e
                     = (inject_Z (fst ev - interviewStartTimeRef p) / 1000)%Q)
      evs /\
    forallb (fun e => is_filler_warning e || is_question_info e) evs = true.
Proof.
  destruct ev as [t e]. intros Hno. unfold page_step. cbn [fst snd].
  destruct (ChronologyFacts.fire_due_timeline
              (List.length (Timers.pending (timers p))) t p) as [Htl Hst].
  fold (advance t p) in Htl, Hst. set (q := advance t p) in *.
  destruct e as [rs|text index|]; [| |discriminate].
  - destruct (ChronologyFacts.scan_results_timeline (getCurrentTimestamp t q)
                rs (finalTranscript q) "" (timelineRef q))
      as (evs & Hevs & Hall).
    exists evs. unfold onresult.
    destruct (scan_results _ rs _ _ _) as [[f i] tl]. cbn [snd] in Hevs.
    cbn [timelineRef interviewStartTimeRef].
    destruct (Timers.setTimeout _ _ _ _) as [h table].
    cbn [timelineRef interviewStartTimeRef].
    rewrite Hevs, Htl, Hst. split; [reflexivity|]. split; [reflexivity|].
    split.
    + eapply Forall_impl; [|exact Hall]. intros e [He _]. rewrite He.
      unfold getCurrentTimestamp. rewrite Hst. reflexivity.
    + apply forallb_forall. intros e He.
      rewrite Forall_forall in Hall. destruct (Hall e He) as [_ Hf].
      rewrite Hf. reflexivity.
  - eexists. unfold question, set_timeline, logEvent.
    cbn [timelineRef interviewStartTimeRef]. rewrite Htl, Hst.
    split; [reflexivity|]. split; [reflexivity|]. split.
    + constructor; [|constructor]. cbn [timestamp].
      unfold getCurrentTimestamp. rewrite Hst. reflexivity.
    + reflexivity.
Qed.

Lemma session_logs (ws : option socket_ref) (events : list (Z * page_event)) :
  forall (last : Z) (p : page),
  forallb no_start events = true ->
  ascending (last :: map fst events) = true ->
  exists new,
    timelineRef (session ws events p) = timelineRef p ++ new /\
    interviewStartTimeRef (session ws events p) = interviewStartTimeRef p /\
    chronological new = true /\
    forallb (stamped_from (interviewStartTimeRef p) (map fst events)) new
    = true /\
    forallb (fun e => is_filler_warning e || is_question_info e) new = true /\
    Forall (fun e => (inject_Z (last - interviewStartTimeRef p) / 1000
                      <= timestamp e)%Q) new.
Proof.
  unfold session. induction events as [|ev events IH]; intros last p Hno Hasc.
  - exists []. rewrite app_nil_r. repeat split; constructor.
  - cbn [forallb] in Hno. apply andb_true_iff in Hno as [Hev Hno].
    cbn [map ascending] in Hasc.
    assert (Hle : last <= fst ev /\ ascending (fst ev :: map fst events) = true).
    { destruct (map fst events); cbn [ascending] in *;
        apply andb_true_iff in Hasc as [H1 H2]; apply Z.leb_le in H1;
        split; assumption. }
    destruct Hle as [Hle Hasc'].
    destruct (page_step_logs ws p ev Hev) as (evs & Htl & Hst & Hstamp & Hkind).
    cbn [fold_left].
    destruct (IH (fst ev) (page_step ws p ev) Hno Hasc')
      as (new & Htl' & Hst' & Hc & Hfrom & Hkinds & Hlow).
    rewrite Hst in Hfrom, Hlow.
    exists (evs ++ new). rewrite Htl', Htl, Hst', Hst, app_assoc.
    split; [reflexivity|]. split; [reflexivity|]. split; [|split; [|split]].
    + exact (chronological_prefix _ evs new Hstamp Hc Hlow).
    + rewrite forallb_app. apply andb_true_iff. split.
      * apply forallb_forall. intros e He. cbn [map].
        apply stamped_from_head. rewrite Forall_forall in Hstamp.
        exact (Hstamp e He).
      * apply forallb_forall. intros e He. cbn [map].
        apply stamped_from_cons.
        rewrite forallb_forall in Hfrom. exact (Hfrom e He).
    + rewrite forallb_app, Hkind, Hkinds. reflexivity.
    + apply Forall_app. split.
      * eapply Forall_impl; [|exact Hstamp]. intros e He. cbv beta in He.
        rewrite He. apply ChronologyFacts.stamp_monotone. exact Hle.
      * eapply Forall_impl; [|exact Hlow]. intros e He. cbv beta in He.
        eapply Qle_trans; [|exact He].
        apply ChronologyFacts.stamp_monotone. exact Hle.
Qed.

Lemma ascending_app (a : list Z) (t : Z) (b : list Z) :
  ascending (a ++ t :: b) = true ->
  ascending a = true /\ ascending (t :: b) = true.
Proof.
  induction a as [|x a IH]; intros H; [split; [reflexivity | exact H]|].
  destruct a as [|y a].
  - cbn [app] in H. change (ascending (x :: t :: b) = true) in H.
    cbn [ascending] in H. apply andb_true_iff in H as [_ H].
    split; [reflexivity | exact H].
  - change (ascending (x :: (y :: a) ++ t :: b) = true) in H.
    cbn [app ascending] in H. apply andb_true_iff in H as [Hxy H].
    destruct (IH H) as [Ha Hb]. split; [|exact Hb].
    cbn [ascending]. rewrite Hxy. exact Ha.
Qed.

Lemma session_app (ws : option socket_ref) (a b : list (Z * page_event))
  (p : page) :
  session ws (a ++ b) p = session ws b (session ws a p).
Proof. unfold session. apply fold_left_app. Qed.

(** X10. The timeline is in the order of time from the moment the
    recording starts, and not before. Over a run of speech results and
    questions at times that never go back, in which [startRecording] runs
    once: the events logged before it are stamped against zero, with the
    clock's own seconds, in order; the events logged after it are stamped
    with the seconds since it ran, never negative, in order; every event is
    a [filler_word] warning or a [question_asked] info. The timeline as a
    whole is the first part followed by the second, and need not be in
    order where they meet. *)
Theorem timeline_in_order_once_recording (ws : option socket_ref)
  (before after : list (Z * page_event)) (start : Z) :
  forallb no_start before = true -> forallb no_start after = true ->
  ascending (map fst (before ++ (start, RecordingStarts) :: after)) = true ->
  let early := timelineRef (session ws before listening) in
  let whole :=
    timelineRef
      (session ws (before ++ (start, RecordingStarts) :: after) listening) in
  let late := skipn (List.length early) whole in
  whole = early ++ late /\
  chronological early = true /\
  forallb (stamped_from 0 (map fst before)) early = true /\
  chronological late = true /\
  forallb (stamped_from start (map fst after)) late = true /\
  forallb not_negative late = true /\
  forallb (fun e => is_filler_warning e || is_question_info e) whole = true.
Proof.
  intros Hb Ha Hasc. cbv zeta.
  rewrite map_app in Hasc. cbn [map fst] in Hasc.
  destruct (ascending_app _ _ _ Hasc) as [Hasc1 Hasc2].
  destruct before as [|[t0 e0] before'] eqn:Hbefore.
  - (* nothing before the recording starts *)
    cbn [app session fold_left]. change (session ws [] listening) with listening.
    cbn [timelineRef listening List.length skipn app].
    destruct (session_logs ws after start
                (page_step ws listening (start, RecordingStarts)) Ha Hasc2)
      as (new & Htl & Hst & Hc & Hfrom & Hkinds & Hlow).
    change (fold_left (page_step ws) after
              (page_step ws listening (start, RecordingStarts)))
      with (session ws after (page_step ws listening (start, RecordingStarts))).
    rewrite Htl. cbn. repeat split; try assumption.
    apply forallb_forall. intros e He. unfold not_negative.
    apply Qle_bool_iff. rewrite Forall_forall in Hlow.
    eapply Qle_trans; [|exact (Hlow e He)]. cbn.
    unfold Qle. simpl. lia.
  - rewrite <- Hbefore in *.
    assert (Hasc0 : ascending (t0 :: map fst before) = true).
    { rewrite Hbefore. cbn [map fst]. rewrite Hbefore in Hasc1.
      cbn [map fst] in Hasc1. destruct (map fst before');
        cbn [ascending] in *; rewrite ?Z.leb_refl; auto. }
    destruct (session_logs ws before t0 listening Hb Hasc0)
      as (early & Htl1 & Hst1 & Hc1 & Hfrom1 & Hkinds1 & _).
    cbn [timelineRef listening app interviewStartTimeRef] in Htl1, Hst1, Hfrom1.
    rewrite session_app. cbn [session fold_left].
    change (fold_left (page_step ws) after ?q) with (session ws after q).
    change (fold_left (page_step ws) before listening)
      with (session ws before listening).
    set (p1 := session ws before listening) in *.
    destruct (session_logs ws after start
                (page_step ws p1 (start, RecordingStarts)) Ha Hasc2)
      as (late & Htl2 & Hst2 & Hc2 & Hfrom2 & Hkinds2 & Hlow2).
    assert (Hstep : timelineRef (page_step ws p1 (start, RecordingStarts))
                    = timelineRef p1
                    /\ interviewStartTimeRef
                         (page_step ws p1 (start, RecordingStarts)) = start).
    { unfold page_step, startRecording. cbn [fst snd timelineRef
        interviewStartTimeRef]. split; [|reflexivity].
      apply ChronologyFacts.fire_due_timeline. }
    destruct Hstep as [Hs1 Hs2].
    rewrite Hs1 in Htl2. rewrite Hs2 in Hfrom2, Hlow2.
    rewrite Htl2, Htl1.
    replace (skipn (List.length early) (early ++ late)) with late
      by (rewrite skipn_app, skipn_all, Nat.sub_diag; reflexivity).
    repeat split; try assumption.
    + apply forallb_forall. intros e He. unfold not_negative.
      apply Qle_bool_iff. rewrite Forall_forall in Hlow2.
      eapply Qle_trans; [|exact (Hlow2 e He)].
      rewrite Z.sub_diag. unfold Qle. simpl. lia.
    + rewrite forallb_app, Hkinds1, Hkinds2. reflexivity.
Qed.

Lemma timeline_in_order_once_recording_witness :
  let whole :=
    timelineRef
      (session None
         (before_the_camera ++ (1500, RecordingStarts) :: after_the_camera)
         listening) in
  map (fun e => Qred (timestamp e)) whole = [1; 1 # 2; 11 # 10; 15 # 2]%Q /\
  chronological whole = false /\
  chronological (skipn 1 whole) = true.
Proof.
  split; [reflexivity|]. split; [reflexivity|].
  destruct (timeline_in_order_once_recording None before_the_camera after_the_camera
              1500 eq_refl eq_refl eq_refl) as (_ & _ & _ & H & _).
  exact H.
Defined.

End SessionFacts.

Module LayoutRunFacts.

Import VoiceInterview.
Import InterviewLayout.
Import LayoutRun.
Import FillerWords.

(** *** The filler words of a transcript *)

Lemma detect_layout (now : Z) (words : list string) :
  forall l,
  let l' :=
    fold_left
      (fun l word =>
         let clean := InterviewPage.strip word in
         if JS.includes InterviewPage.fillerWords clean
         then set_timeline (logEvent now clean l) l
         else l)
      words l in
  voice l' = voice l /\ transcriptBufferRef l' = transcriptBufferRef l /\
  silenceTimerRef l' = silenceTimerRef l /\ timers l' = timers l /\
  candidateSpeaking l' = candidateSpeaking l /\
  startTimeRef l' = startTimeRef l /\ sending l' = sending l /\
  timelineRef l'
  = timelineRef l
    ++ map (fun w => filler_event now l (InterviewPage.strip w))
         (filter (fun w => JS.includes InterviewPage.fillerWords
                             (InterviewPage.strip w)) words).
Proof.
  cbv zeta. induction words as [|w words IH]; intros l; cbn [fold_left filter].
  - simpl. rewrite app_nil_r. repeat split.
  - destruct (JS.includes InterviewPage.fillerWords (InterviewPage.strip w)).
    + match goal with |- context [fold_left ?f words ?q] =>
        destruct (IH q) as (Hv & Hb & Hr & Ht & Hc & Hs & Hsd & Htl)
      end.
      rewrite Hv, Hb, Hr, Ht, Hc, Hs, Hsd, Htl. cbn [map].
      unfold logEvent, filler_event. simpl. rewrite <- app_assoc.
      repeat split.
    + apply IH.
Qed.

Lemma detect_frame (now : Z) (text : string) (l : layout) :
  voice (detect now text l) = voice l /\
  transcriptBufferRef (detect now text l) = transcriptBufferRef l /\
  silenceTimerRef (detect now text l) = silenceTimerRef l /\
  timers (detect now text l) = timers l.
Proof.
  destruct (detect_layout now (JS.split JS.space (JS.toLowerCase text)) l)
    as (Hv & Hb & Hr & Ht & _).
  unfold detect. repeat split; assumption.
Qed.

(** X11. For a final transcript the page logs, for each token of the
    lower-cased text between single spaces, in order, that without its
    [. , ! ?] is one of "um", "uh", "like", "basically", "literally",
    exactly one [filler_word] event of severity [warning], stamped by the
    recorder and carrying the word without its punctuation; nothing else is
    logged, and "you know" never is. An interim transcript logs nothing and
    changes nothing. *)
Theorem layout_filler_events (ws : option socket_ref) (now : Z)
  (text : string) (l : layout) :
  let tokens := JS.split JS.space (JS.toLowerCase text) in
  join tokens = JS.toLowerCase text /\
  Forall (fun w => ~ has_space w) tokens /\
  timelineRef (handleTranscript ws now text true l)
  = timelineRef l
    ++ map (fun w =>
              {| InterviewPage.timestamp :=
                   inject_Z (now - startTimeRef l) / 1000;
                 InterviewPage.type := InterviewPage.filler_word;
                 InterviewPage.data :=
                   InterviewPage.data_word (unpunctuated w);
                 InterviewPage.severity := InterviewPage.warning |})
         (filter is_filler tokens) /\
  Forall (fun w => In (unpunctuated w) single_words)
    (filter is_filler tokens) /\
  handleTranscript ws now text false l = l.
Proof.
  cbv zeta. split; [apply InterviewPageFacts.join_split|].
  split; [apply InterviewPageFacts.tokens_have_no_space|].
  split; [|split; [|reflexivity]].
  - unfold handleTranscript. cbn [timelineRef]. unfold detect.
    match goal with |- context [fold_left ?f ?ws ?q] =>
      destruct (detect_layout now ws q)
        as (_ & _ & _ & _ & _ & _ & _ & Htl)
    end.
    refine (eq_trans Htl _).
    rewrite InterviewPageFacts.filter_tokens. cbn [timelineRef startTimeRef].
    f_equal. apply map_ext. intros w.
    unfold filler_event. rewrite InterviewPageFacts.strip_unpunctuated.
    reflexivity.
  - apply Forall_forall. intros w Hin. apply filter_In in Hin as [_ Hm].
    unfold is_filler in Hm. apply existsb_exists in Hm as (f & Hf & Heq).
    apply String.eqb_eq in Heq. subst f. exact Hf.
Qed.

Lemma layout_filler_events_witness :
  map InterviewPage.data
    (timelineRef
       (handleTranscript (Some Socket) 1500 a_hesitant_sentence true
          interviewing))
  = [InterviewPage.data_word "um"; InterviewPage.data_word "like";
     InterviewPage.data_word "literally"; InterviewPage.data_word "basically";
     InterviewPage.data_word "uh"].
Proof.
  destruct (layout_filler_events (Some Socket) 1500 a_hesitant_sentence
              interviewing) as (_ & _ & H & _).
  rewrite H. reflexivity.
Defined.

(** *** The silence timer *)

Lemma layout_advance_idle (now : Z) (l : layout) :
  idle l -> advance now l = l.
Proof. intros [_ Ht _]. unfold advance. rewrite Ht. reflexivity. Qed.

Lemma layout_advance_early (ws : option socket_ref) (last now : Z)
  (group : list string) (l : layout) :
  armed ws last group l -> now < last + 2500 -> advance now l = l.
Proof.
  intros [_ (h & _ & Ht) _] Hnow. unfold advance. rewrite Ht.
  cbn [List.length fire_due]. unfold Timers.next_due. rewrite Ht. cbn [find].
  unfold Timers.is_due. cbn [Timers.due].
  apply Z.leb_gt in Hnow. rewrite Hnow. reflexivity.
Qed.

Lemma layout_advance_elapsed (last now : Z) (group : list string)
  (l : layout) :
  armed (Some Socket) last group l -> last + 2500 <= now ->
  idle (advance now l) /\
  sent (net (voice (advance now l)))
  = sent (net (voice l)) ++ InterviewPage.turns [group] /\
  (JS.all_white (InterviewPage.spoken group) = false ->
   transcriptBufferRef (advance now l) = "").
Proof.
  intros [(blank & Hb & Hf) (h & Hr & Ht) Ho] Hnow.
  assert (Hadv : advance now l
                 = silence_elapsed (Some Socket)
                     (set_timers (Timers.clearTimeout h (timers l)) l)).
  { unfold advance. rewrite Ht. cbn [List.length fire_due].
    unfold Timers.next_due. rewrite Ht. cbn [find]. unfold Timers.is_due.
    cbn [Timers.due]. apply Z.leb_le in Hnow. rewrite Hnow. reflexivity. }
  rewrite Hadv. clear Hadv.
  assert (Hcleared : Timers.pending (Timers.clearTimeout h (timers l)) = []).
  { unfold Timers.clearTimeout. cbn [Timers.pending]. rewrite Ht.
    cbn [filter Timers.handle]. rewrite Nat.eqb_refl. reflexivity. }
  unfold silence_elapsed, InterviewPage.turns, InterviewPage.turn_text.
  cbn [set_timers transcriptBufferRef voice map filter].
  rewrite Hf, (JSFacts.trim_blank_prefix _ _ Hb).
  unfold JS.truthy.
  destruct (JS.is_empty (JS.trim (InterviewPage.spoken group))) eqn:Hempty;
    cbn [negb].
  - cbn [map]. rewrite app_nil_r. split; [|split].
    + constructor; simpl; auto.
      rewrite Hf, JSFacts.all_white_append, Hb. simpl.
      rewrite <- JSFacts.trim_empty. exact Hempty.
    + reflexivity.
    + rewrite <- JSFacts.trim_empty, Hempty. discriminate.
  - unfold sendTranscript, is_open. rewrite Ho.
    split; [|split]; [constructor; simpl; auto | reflexivity | reflexivity].
Qed.

Lemma handleTranscript_final (ws : option socket_ref) (now : Z)
  (text : string) (l : layout) :
  let l' := handleTranscript ws now text true l in
  voice l' = voice l /\
  transcriptBufferRef l' = (transcriptBufferRef l ++ text ++ " ")%string /\
  silenceTimerRef l'
  = Some (Timers.next_handle (timers l)) /\
  Timers.pending (timers l')
  = Timers.pending
      match silenceTimerRef l with
      | Some h => Timers.clearTimeout h (timers l)
      | None => timers l
      end
    ++ [{| Timers.handle := Timers.next_handle (timers l);
           Timers.due := now + 2500; Timers.closure := ws |}].
Proof.
  cbv zeta. unfold handleTranscript.
  match goal with |- context [detect now text ?q] =>
    destruct (detect_frame now text q) as (Hv & Hb & Hr & Ht)
  end.
  rewrite Hr, Ht. cbn [silenceTimerRef timers] in *.
  destruct (silenceTimerRef l); simpl; rewrite Hv, Hb; repeat split.
Qed.

Lemma handleTranscript_armed (ws : option socket_ref) (last now : Z)
  (group : list string) (x : string) (l : layout) :
  armed ws last group l ->
  armed ws now (group ++ [x]) (handleTranscript ws now x true l) /\
  voice (handleTranscript ws now x true l) = voice l.
Proof.
  intros [(blank & Hb & Hf) (h & Hr & Ht) Ho].
  destruct (handleTranscript_final ws now x l) as (Hv & Hbuf & Href & Hp).
  split; [|exact Hv]. constructor.
  - exists blank. split; [exact Hb|].
    rewrite Hbuf, Hf, InterviewPageFacts.spoken_snoc, JSFacts.append_assoc.
    reflexivity.
  - eexists. split; [exact Href|]. rewrite Hp, Hr.
    unfold Timers.clearTimeout. cbn [Timers.pending]. rewrite Ht.
    cbn [filter Timers.handle]. rewrite Nat.eqb_refl. reflexivity.
  - rewrite Hv. exact Ho.
Qed.

Lemma handleTranscript_idle (ws : option socket_ref) (now : Z) (x : string)
  (l : layout) :
  idle l ->
  armed ws now [x] (handleTranscript ws now x true l) /\
  voice (handleTranscript ws now x true l) = voice l.
Proof.
  intros [Hb Ht Ho].
  destruct (handleTranscript_final ws now x l) as (Hv & Hbuf & Href & Hp).
  split; [|exact Hv]. constructor.
  - exists (transcriptBufferRef l). split; [exact Hb|].
    rewrite Hbuf. reflexivity.
  - eexists. split; [exact Href|]. rewrite Hp.
    destruct (silenceTimerRef l); unfold Timers.clearTimeout;
      cbn [Timers.pending]; rewrite Ht; reflexivity.
  - rewrite Hv. exact Ho.
Qed.

Lemma layout_horizon_armed (ws : option socket_ref) (last : Z)
  (group : list string) (l : layout) :
  armed ws last group l -> last + 2500 <= horizon l.
Proof.
  intros [_ (h & _ & Ht) _]. unfold horizon. rewrite Ht. simpl. lia.
Qed.

Lemma layout_debounce_from (rest : list (Z * string)) :
  forall (last : Z) (group : list string) (l : layout),
  armed (Some Socket) last group l ->
  sent (net (voice (settle (hear (Some Socket) rest l))))
  = sent (net (voice l))
    ++ InterviewPage.turns (InterviewPage.groups_from last group rest).
Proof.
  induction rest as [|[t x] rest IH]; intros last group l Hl.
  - simpl. unfold settle.
    apply (layout_advance_elapsed last (horizon l) group l Hl).
    eapply layout_horizon_armed; eassumption.
  - unfold hear in *. cbn [fold_left fst snd InterviewPage.groups_from].
    destruct (last + 2500 <=? t) eqn:E.
    + apply Z.leb_le in E.
      destruct (layout_advance_elapsed last t group l Hl E)
        as (Hidle & Hsent & _).
      destruct (handleTranscript_idle (Some Socket) t x _ Hidle)
        as [Harmed Hsame].
      rewrite (IH t [x] _ Harmed), Hsame, Hsent.
      rewrite (InterviewPageFacts.turns_cons group
                 (InterviewPage.groups_from t [x] rest)), app_assoc.
      reflexivity.
    + apply Z.leb_gt in E.
      rewrite (layout_advance_early _ last t group l Hl) by lia.
      destruct (handleTranscript_armed (Some Socket) last t group x l Hl)
        as [Harmed Hsame].
      rewrite (IH t (group ++ [x]) _ Harmed), Hsame. reflexivity.
Qed.

Lemma idle_interviewing : idle interviewing.
Proof. constructor; reflexivity. Qed.

(** X12. The page built on the hooks cuts the candidate's speech into
    turns at every silence of 2500 ms: over any run of final transcripts,
    heard by a handler that holds the open socket, those less than 2500 ms
    apart are gathered, and what [sendTranscript] puts on the socket is one
    [response_complete] per group that has more than white space, in order,
    carrying the group's text trimmed. When such a turn goes out the buffer
    is emptied. *)
Theorem layout_turns (fragments : list (Z * string)) :
  sent (net (voice (settle (hear (Some Socket) fragments interviewing))))
  = InterviewPage.turns (InterviewPage.groups fragments) /\
  (forall last group now l,
     armed (Some Socket) last group l -> last + 2500 <= now ->
     JS.all_white (InterviewPage.spoken group) = false ->
     transcriptBufferRef (advance now l) = "" /\
     sent (net (voice (advance now l)))
     = sent (net (voice l))
       ++ [response_complete (JS.trim (InterviewPage.spoken group))]).
Proof.
  split.
  - destruct fragments as [|[t x] rest]; [reflexivity|].
    unfold hear. cbn [fold_left fst snd InterviewPage.groups].
    rewrite (layout_advance_idle t interviewing idle_interviewing).
    destruct (handleTranscript_idle (Some Socket) t x interviewing
                idle_interviewing) as [Harmed Hsame].
    change (fold_left _ rest ?q) with (hear (Some Socket) rest q).
    rewrite (layout_debounce_from rest t [x] _ Harmed), Hsame. reflexivity.
  - intros last group now l Hl Hnow Hg.
    destruct (layout_advance_elapsed last now group l Hl Hnow)
      as (_ & Hsent & Hbuf).
    split; [exact (Hbuf Hg)|]. rewrite Hsent.
    unfold InterviewPage.turns, InterviewPage.turn_text, JS.truthy. simpl.
    rewrite JSFacts.trim_empty, Hg. reflexivity.
Qed.

Lemma layout_turns_witness :
  sent (net (voice (settle (hear (Some Socket) InterviewPage.an_answer
                              interviewing))))
  = [response_complete "I led a team of five"; response_complete "um";
     response_complete "thanks"].
Proof. exact (proj1 (layout_turns InterviewPage.an_answer)). Defined.

(** *** Leaving the page *)

Lemma single_layout_fire_due (fuel : nat) (now : Z) :
  forall l, single l -> single (fire_due fuel now l).
Proof.
  induction fuel as [|fuel IH]; intros l Hl; simpl; [exact Hl|].
  destruct (Timers.next_due now (timers l)) as [tm|]; [|exact Hl].
  apply IH. destruct Hl as [Hlen Hin].
  unfold single, silence_elapsed.
  destruct (JS.truthy _); simpl.
  - split.
    + eapply Nat.le_trans; [apply filter_length_le | exact Hlen].
    + intros x Hx. apply filter_In in Hx as [Hx _]. exact (Hin x Hx).
  - split.
    + eapply Nat.le_trans; [apply filter_length_le | exact Hlen].
    + intros x Hx. apply filter_In in Hx as [Hx _]. exact (Hin x Hx).
Qed.

Lemma single_handleTranscript (ws : option socket_ref) (now : Z)
  (text : string) (isFinal : bool) (l : layout) :
  single l -> single (handleTranscript ws now text isFinal l).
Proof.
  intros Hl. destruct isFinal; [|exact Hl]. destruct Hl as [Hlen Hin].
  destruct (handleTranscript_final ws now text l) as (_ & _ & Href & Hp).
  assert (Hcleared :
            Timers.pending
              match silenceTimerRef l with
              | Some h => Timers.clearTimeout h (timers l)
              | None => timers l
              end = []).
  { destruct (Timers.pending (timers l)) as [|tm rest] eqn:Hl.
    - destruct (silenceTimerRef l); simpl; rewrite ?Hl; reflexivity.
    - destruct rest; [|simpl in Hlen; lia].
      rewrite (Hin tm (or_introl eq_refl)).
      simpl. rewrite Hl. simpl. rewrite Nat.eqb_refl. reflexivity. }
  rewrite Hcleared in Hp. unfold single. rewrite Hp, Href. simpl.
  split; [lia|]. intros tm [<-|[]]. reflexivity.
Qed.

Lemma single_onmessage (m : message) (l : layout) :
  single l -> single (onmessage m l).
Proof. intros Hl. exact Hl. Qed.

Lemma single_hear (ws : option socket_ref) (fragments : list (Z * string)) :
  forall l, single l -> single (hear ws fragments l).
Proof.
  unfold hear. induction fragments as [|[t x] rest IH]; intros l Hl;
    cbn [fold_left fst snd]; [exact Hl|].
  apply IH. apply single_handleTranscript. apply single_layout_fire_due.
  exact Hl.
Qed.

(** X13. Leaving the page withdraws the answer that is waiting: whatever
    was heard before, [cleanup] leaves no timer pending, so however long
    one waits afterwards the turn detector sends nothing more and the
    buffer stays as it was. *)
Theorem cleanup_withdraws_the_pending_turn (ws : option socket_ref)
  (fragments : list (Z * string)) (now later : Z) :
  let l := advance now (hear ws fragments interviewing) in
  Timers.pending (timers (cleanup l)) = [] /\
  advance later (cleanup l) = cleanup l /\
  sent (net (voice (advance later (cleanup l)))) = sent (net (voice l)) /\
  transcriptBufferRef (advance later (cleanup l)) = transcriptBufferRef l.
Proof.
  cbv zeta.
  assert (Hs : single (advance now (hear ws fragments interviewing))).
  { apply single_layout_fire_due. apply single_hear.
    split; simpl; [lia | intros tm []]. }
  set (l := advance now (hear ws fragments interviewing)) in *.
  assert (Hp : Timers.pending (timers (cleanup l)) = []).
  { destruct Hs as [Hlen Hin]. unfold cleanup.
    destruct (Timers.pending (timers l)) as [|tm rest] eqn:Hl.
    - destruct (silenceTimerRef l); simpl; rewrite ?Hl; reflexivity.
    - destruct rest; [|simpl in Hlen; lia].
      rewrite (Hin tm (or_introl eq_refl)).
      simpl. rewrite Hl. simpl. rewrite Nat.eqb_refl. reflexivity. }
  assert (Ha : advance later (cleanup l) = cleanup l).
  { unfold advance. rewrite Hp. reflexivity. }
  rewrite Ha. repeat split; try assumption;
    unfold cleanup; destruct (silenceTimerRef l); reflexivity.
Qed.

End LayoutRunFacts.

Module BrowserSpeechRunsFacts.

Import BrowserSpeech.
Import BrowserSpeechRuns.

Lemma spent_onend (now : Z) (h : hook) :
  (MAX_RESTARTS <= restartAttempts h)%nat ->
  sessions (onend_handler now h) = sessions h /\
  timers (onend_handler now h) = timers h /\
  restartAttempts (onend_handler now h) = restartAttempts h /\
  recognition (onend_handler now h) = recognition h /\
  (enabledRef h = true ->
   error (onend_handler now h) = Some "Speech recognition failed").
Proof.
  intros Hle. apply Nat.leb_le in Hle. unfold onend_handler.
  cbn [enabledRef restartAttempts]. destruct (enabledRef h); cbn [negb].
  - rewrite Hle. repeat split.
  - repeat split. discriminate.
Qed.

Lemma spent_step (h : hook) (te : Z * event) :
  platform_event te = true ->
  (MAX_RESTARTS <= restartAttempts h)%nat ->
  Timers.pending (timers h) = [] ->
  sessions (step h te) = sessions h /\ timers (step h te) = timers h /\
  restartAttempts (step h te) = restartAttempts h.
Proof.
  destruct te as [now e]. unfold platform_event, step. cbn [fst snd].
  intros He Hle Hp.
  assert (Ha : advance now h = h) by (unfold advance; rewrite Hp; reflexivity).
  rewrite Ha.
  destruct e; try discriminate; try (repeat split; reflexivity).
  unfold recognizer_ends.
  destruct (recognition h); [repeat split| |];
    cbn [onend]; (destruct (onend h); [|repeat split]);
    match goal with |- context [onend_handler now ?x] =>
      destruct (spent_onend now x Hle) as (Hs & Ht & Hat & _)
    end; rewrite Hs, Ht, Hat; repeat split.
Qed.

Lemma onend_gives_up (now : Z) (h : hook) :
  enabledRef h = true -> (MAX_RESTARTS <= restartAttempts h)%nat ->
  recognition h <> Idle -> onend h = true ->
  error (recognizer_ends now h) = Some "Speech recognition failed" /\
  recognition (recognizer_ends now h) = Idle.
Proof.
  intros He Hle Hr Ho. unfold recognizer_ends.
  destruct (recognition h); [contradiction| |]; cbn [onend]; rewrite Ho;
    match goal with |- context [onend_handler now ?x] =>
      destruct (spent_onend now x Hle) as (_ & _ & _ & Hrec & Herr)
    end; rewrite Hrec, (Herr He); split; reflexivity.
Qed.

(** X14. Once the three restarts are spent the hook has given up for
    good: with no restart pending, whatever the recogniser does from then
    on (it starts, fails, ends, time passes), no restart is set and no
    capture session is begun; a session that ends while capture is enabled
    leaves the recogniser idle with the error "Speech recognition failed".
    Only a render that turns [enabled] on gives the three restarts back. *)
Theorem gives_up_for_good (tr : list (Z * event)) (h : hook) :
  forallb platform_event tr = true ->
  (MAX_RESTARTS <= restartAttempts h)%nat ->
  Timers.pending (timers h) = [] ->
  sessions (run tr h) = sessions h /\
  timers (run tr h) = timers h /\
  restartAttempts (run tr h) = restartAttempts h /\
  (forall now, enabledRef h = true -> recognition h <> Idle ->
               onend h = true ->
     error (recognizer_ends now h) = Some "Speech recognition failed" /\
     recognition (recognizer_ends now h) = Idle) /\
  (recognitionRef h = true -> restartAttempts (render true h) = 0%nat).
Proof.
  intros Hall Hle Hp. split; [|split; [|split; [|split]]].
  1-3: revert h Hle Hp; induction tr as [|te tr IH]; intros h Hle Hp;
    [reflexivity|];
    simpl in Hall; apply andb_true_iff in Hall as [Hte Htr];
    destruct (spent_step h te Hte Hle Hp) as (Hs & Ht & Ha);
    change (run (te :: tr) h) with (run tr (step h te));
    rewrite (IH Htr (step h te)) by (rewrite ?Ha, ?Ht; assumption);
    assumption.
  - intros now He Hr Ho.
    exact (onend_gives_up now h He Hle Hr Ho).
  - intros Href. unfold render, control. cbn [set_enabledRef recognitionRef].
    rewrite Href. cbn [negb].
    match goal with |- context [try_start ?l ?x] =>
      destruct (BrowserSpeechFacts.try_start_frame l x) as (_ & Ha & _)
    end.
    rewrite Ha. reflexivity.
Qed.

Lemma gives_up_for_good_witness :
  let spent := run three_restarts (mount true true) in
  restartAttempts spent = 3%nat /\ sessions spent = 4%nat /\
  Timers.pending (timers spent) = [] /\
  sessions (run [(7000, RecognizerEnds); (100000, Wait);
                 (200000, RecognizerStarted)] spent) = sessions spent /\
  error (run [(7000, RecognizerEnds)] spent)
  = Some "Speech recognition failed".
Proof.
  cbv zeta. split; [reflexivity|]. split; [reflexivity|].
  split; [reflexivity|]. split; [|reflexivity].
  apply (gives_up_for_good
           [(7000, RecognizerEnds); (100000, Wait); (200000, RecognizerStarted)]
           (run three_restarts (mount true true))).
  - reflexivity.
  - vm_compute. lia.
  - reflexivity.
Defined.

End BrowserSpeechRunsFacts.

Module AzureSpeechRunsFacts.

Import AzureSpeech.
Import AzureSpeechRuns.

(** *** One restart timer *)

Lemma in_step_clearRestartTimer (h : hook) :
  in_step h ->
  restartTimeoutRef (clearRestartTimer h) = None /\
  Timers.pending (timers (clearRestartTimer h)) = [].
Proof.
  unfold in_step, clearRestartTimer.
  destruct (restartTimeoutRef h) as [t|] eqn:Hr.
  - intros [due Hp]. simpl. rewrite Hp. simpl. rewrite Nat.eqb_refl.
    split; reflexivity.
  - intros Hp. rewrite Hr. split; [reflexivity | exact Hp].
Qed.

Lemma in_step_scheduleRestart (reason : restart_reason) (now : Z) (h : hook) :
  in_step h -> in_step (scheduleRestart reason now h).
Proof.
  unfold scheduleRestart. intros Hh.
  destruct (negb (enabledRef h) || manuallyStoppedRef h); [exact Hh|].
  destruct (restartTimeoutRef h) eqn:Hr; [exact Hh|].
  unfold in_step in *. rewrite Hr in Hh. simpl. rewrite Hh. simpl.
  eexists. reflexivity.
Qed.

Lemma in_step_frame (h k : hook) :
  restartTimeoutRef k = restartTimeoutRef h -> timers k = timers h ->
  in_step h -> in_step k.
Proof. unfold in_step. intros -> ->. auto. Qed.

Lemma in_step_startRecognition (h : hook) :
  in_step h -> in_step (startRecognition h).
Proof.
  intros Hh. unfold startRecognition.
  destruct (negb (enabledRef h) || manuallyStoppedRef h); [exact Hh|].
  destruct (in_step_clearRestartTimer h Hh) as [Hr Hp].
  destruct (negb (config_present _)); unfold in_step; simpl;
    rewrite Hr; exact Hp.
Qed.

Lemma in_step_start_failed (now : Z) (h : hook) :
  in_step h -> in_step (start_failed now h).
Proof.
  intros Hh. unfold start_failed. apply in_step_scheduleRestart.
  exact Hh.
Qed.

Lemma in_step_cleanup (h : hook) :
  in_step h -> in_step (cleanup h).
Proof.
  intros Hh. unfold cleanup.
  destruct (in_step_clearRestartTimer (set_refs (enabledRef h) true h) Hh)
    as [Hr Hp].
  unfold in_step. simpl. rewrite Hr. exact Hp.
Qed.

Lemma in_step_effect (enabled : bool) (h : hook) :
  in_step h -> in_step (effect enabled h).
Proof.
  intros Hh. unfold effect. destruct enabled.
  - apply in_step_startRecognition. exact Hh.
  - destruct (in_step_clearRestartTimer
                (set_refs (enabledRef h) (negb false) h) Hh) as [Hr Hp].
    unfold in_step.
    cbn [restartTimeoutRef timers set_status stopAndDisposeRecognizer].
    rewrite Hr. exact Hp.
Qed.

Lemma in_step_fire_due (fuel : nat) (now : Z) :
  forall h, in_step h -> in_step (fire_due fuel now h).
Proof.
  induction fuel as [|fuel IH]; intros h Hh; simpl; [exact Hh|].
  destruct (Timers.next_due now (timers h)) as [tm|] eqn:Hdue; [|exact Hh].
  apply IH. unfold restart_elapsed. apply in_step_startRecognition.
  unfold in_step in *. simpl.
  destruct (restartTimeoutRef h) as [t|].
  - destruct Hh as [due Hp]. unfold Timers.next_due in Hdue.
    rewrite Hp in *. simpl in Hdue.
    destruct (Timers.is_due now _); [|discriminate].
    inversion Hdue; subst. simpl. rewrite Nat.eqb_refl. reflexivity.
  - rewrite Hh. reflexivity.
Qed.

Lemma in_step_canceled (reason : CancellationReason) (details : string)
  (now : Z) (h : hook) :
  in_step h -> in_step (canceled reason details now h).
Proof.
  intros Hh. unfold canceled. cbv zeta.
  set (h1 := set_status false (error h) h).
  assert (H1 : in_step h1) by exact Hh.
  set (h2 := set_status false _ h1).
  assert (H2 : in_step h2) by exact Hh.
  clearbody h2. clearbody h1.
  destruct reason; destruct (manuallyStoppedRef h1);
    try (apply in_step_scheduleRestart; assumption);
    destruct (negb _ || _); try assumption;
    destruct (_ || _); apply in_step_scheduleRestart; assumption.
Qed.

Lemma in_step_step (h : hook) (te : Z * event) :
  in_step h -> in_step (step h te).
Proof.
  intros Hh. destruct te as [now e]. unfold step. cbn [fst snd].
  pose proof (in_step_fire_due (List.length (Timers.pending (timers h)))
                now h Hh) as H0.
  fold (advance now h) in H0. set (h0 := advance now h) in *. clearbody h0.
  destruct e.
  - unfold render. apply in_step_effect.
    exact (in_step_cleanup h0 H0).
  - exact (in_step_cleanup h0 H0).
  - exact (in_step_cleanup h0 H0).
  - unfold sdk_loaded. destruct (loading h0); [exact H0|].
    destruct ok; [exact H0|]. apply in_step_start_failed. exact H0.
  - unfold start_settled. destruct (existsb _ _); [|exact H0].
    destruct ok; [exact H0|]. apply in_step_start_failed. exact H0.
  - exact H0.
  - unfold sessionStopped.
    destruct (negb _ || _); [exact H0|].
    apply in_step_scheduleRestart. exact H0.
  - apply in_step_canceled. exact H0.
  - exact H0.
Qed.

(** X15. Restart timers never pile up: at every moment of every run of
    the hook, whatever the page and the platform do, [restartTimeoutRef] is
    null and no timer is pending, or it names the one timer that is
    pending. *)
Theorem one_restart_timer (tr : list (Z * event)) (configured enabled : bool) :
  let h := run tr (mount configured enabled) in
  match restartTimeoutRef h with
  | None => Timers.pending (timers h) = []
  | Some t =>
      exists due,
        Timers.pending (timers h)
        = [{| Timers.handle := t; Timers.due := due; Timers.closure := tt |}]
  end.
Proof.
  cbv zeta. change (in_step (run tr (mount configured enabled))).
  assert (H0 : in_step (mount configured enabled)).
  { unfold mount. apply in_step_effect. reflexivity. }
  revert H0. generalize (mount configured enabled).
  induction tr as [|te tr IH]; intros h Hh; [exact Hh|].
  apply (IH (step h te)). apply in_step_step. exact Hh.
Qed.

(** *** A stopped hook *)

Lemma stopped_step (h : hook) (te : Z * event) :
  platform_event te = true ->
  manuallyStoppedRef h = true -> Timers.pending (timers h) = [] ->
  loading h = 0%nat ->
  manuallyStoppedRef (step h te) = true /\
  Timers.pending (timers (step h te)) = [] /\
  loading (step h te) = 0%nat /\
  next_recognizer (step h te) = next_recognizer h /\
  incl (capturing (step h te)) (capturing h).
Proof.
  destruct te as [now e]. unfold platform_event, step. cbn [fst snd].
  intros He Hm Hp Hl.
  assert (Ha : advance now h = h) by (unfold advance; rewrite Hp; reflexivity).
  rewrite Ha.
  assert (Hs : forall reason k, manuallyStoppedRef k = true ->
                 scheduleRestart reason now k = k).
  { intros reason k Hk. unfold scheduleRestart. rewrite Hk, orb_true_r.
    reflexivity. }
  destruct e; try discriminate.
  - unfold sdk_loaded. rewrite Hl. repeat split; auto. apply incl_refl.
  - unfold start_settled. destruct (existsb _ _);
      [|repeat split; auto; apply incl_refl].
    destruct ok.
    + simpl. repeat split; auto. apply incl_refl.
    + unfold start_failed. rewrite Hs by exact Hm. simpl.
      repeat split; auto. unfold without. intros x Hx.
      apply filter_In in Hx as [Hx _]. exact Hx.
  - simpl. repeat split; auto. apply incl_refl.
  - unfold sessionStopped. cbn [set_status enabledRef manuallyStoppedRef].
    rewrite Hm, orb_true_r. simpl. repeat split; auto. apply incl_refl.
  - unfold canceled. cbn [set_status enabledRef manuallyStoppedRef].
    rewrite Hm, orb_true_r.
    destruct reason; simpl; repeat split; auto; apply incl_refl.
  - repeat split; auto. apply incl_refl.
Qed.

(** X16. A hook that was stopped stays stopped: with [manuallyStoppedRef]
    set, no restart pending and no start in flight, whatever its
    recognisers and the clock do afterwards, no restart timer is ever set,
    no recogniser is created and none starts capturing. *)
Theorem stopped_hook_stays_stopped (tr : list (Z * event)) (h : hook) :
  forallb platform_event tr = true ->
  manuallyStoppedRef h = true -> Timers.pending (timers h) = [] ->
  loading h = 0%nat ->
  Timers.pending (timers (run tr h)) = [] /\
  manuallyStoppedRef (run tr h) = true /\
  next_recognizer (run tr h) = next_recognizer h /\
  incl (capturing (run tr h)) (capturing h).
Proof.
  revert h. induction tr as [|te tr IH]; intros h Hall Hm Hp Hl.
  - repeat split; auto. apply incl_refl.
  - simpl in Hall. apply andb_true_iff in Hall as [Hte Htr].
    destruct (stopped_step h te Hte Hm Hp Hl) as (Hm' & Hp' & Hl' & Hn' & Hc').
    change (run (te :: tr) h) with (run tr (step h te)).
    destruct (IH (step h te) Htr Hm' Hp' Hl') as (Hp2 & Hm2 & Hn2 & Hc2).
    repeat split; try assumption; try congruence.
    eapply incl_tran; eassumption.
Qed.

Lemma stopped_hook_stays_stopped_witness :
  let stopped := run [(100, SessionStopped); (500, Stop)] in_session in
  manuallyStoppedRef stopped = true /\ capturing stopped = [] /\
  capturing (run [(600, SessionStopped);
                  (700, Canceled Error "Connection lost"); (60000, Wait)]
               stopped) = [] /\
  Timers.pending
    (timers (run [(600, SessionStopped);
                  (700, Canceled Error "Connection lost"); (60000, Wait)]
               stopped)) = [].
Proof.
  cbv zeta. split; [reflexivity|]. split; [reflexivity|].
  destruct (stopped_hook_stays_stopped
              [(600, SessionStopped);
               (700, Canceled Error "Connection lost"); (60000, Wait)]
              (run [(100, SessionStopped); (500, Stop)] in_session))
    as (Hp & _ & _ & Hc); try reflexivity.
  split; [|exact Hp].
  destruct (capturing (run _ (run _ in_session))) as [|x rest];
    [reflexivity|].
  destruct (Hc x (or_introl eq_refl)).
Defined.

(** *** Retrying *)

Lemma startRecognition_running (k : hook) :
  enabledRef k = true -> manuallyStoppedRef k = false ->
  config_present k = true -> restartTimeoutRef k = None ->
  enabledRef (startRecognition k) = true /\
  manuallyStoppedRef (startRecognition k) = false /\
  config_present (startRecognition k) = true /\
  restartTimeoutRef (startRecognition k) = None /\
  timers (startRecognition k) = timers k /\
  loading (startRecognition k) = S (loading k) /\
  restartAttemptRef (startRecognition k) = restartAttemptRef k /\
  next_recognizer (startRecognition k) = next_recognizer k /\
  error (startRecognition k) = error k.
Proof.
  intros He Hm Hc Hr. unfold startRecognition. rewrite He, Hm. cbn [negb orb].
  unfold clearRestartTimer. rewrite Hr. unfold stopAndDisposeRecognizer.
  cbn [config_present]. rewrite Hc. cbn [negb]. simpl.
  repeat split; assumption.
Qed.

Lemma sdk_loaded_ok (now : Z) (k : hook) (n : nat) :
  loading k = S n ->
  enabledRef (sdk_loaded true now k) = enabledRef k /\
  manuallyStoppedRef (sdk_loaded true now k) = manuallyStoppedRef k /\
  config_present (sdk_loaded true now k) = config_present k /\
  restartTimeoutRef (sdk_loaded true now k) = restartTimeoutRef k /\
  timers (sdk_loaded true now k) = timers k /\
  loading (sdk_loaded true now k) = n /\
  restartAttemptRef (sdk_loaded true now k) = restartAttemptRef k /\
  next_recognizer (sdk_loaded true now k) = S (next_recognizer k) /\
  error (sdk_loaded true now k) = error k.
Proof.
  intros Hl. unfold sdk_loaded. rewrite Hl. simpl. repeat split.
Qed.

Lemma failing_round (t : Z) (h : hook) :
  running h ->
  let h' := run [(t, Canceled Error "Service unavailable");
                 (t + 30000, SdkLoaded true)] h in
  running h' /\
  restartAttemptRef h' = S (restartAttemptRef h) /\
  next_recognizer h' = S (next_recognizer h) /\
  error h' = Some "Service unavailable".
Proof.
  intros [He Hm Hc Hr Hp Hl]. cbv zeta.
  assert (Heq : run [(t, Canceled Error "Service unavailable");
                     (t + 30000, SdkLoaded true)] h
                = sdk_loaded true (t + 30000)
                    (advance (t + 30000)
                       (canceled Error "Service unavailable" t (advance t h))))
    by reflexivity.
  rewrite Heq. clear Heq.
  assert (Ha : advance t h = h) by (unfold advance; rewrite Hp; reflexivity).
  rewrite Ha.
  set (h1 := canceled Error "Service unavailable" t h).
  assert (H1 : h1 = scheduleRestart service t
                      (set_status false (Some "Service unavailable")
                         (set_status false (error h) h))).
  { unfold h1, canceled. cbn [set_status manuallyStoppedRef enabledRef].
    rewrite Hm, He. reflexivity. }
  assert (Hdelay : 1000 <= restart_delay service (S (restartAttemptRef h))
                   <= 30000)
    by apply AzureSpeechFacts.restart_delay_bounds.
  assert (H1' : enabledRef h1 = true /\ manuallyStoppedRef h1 = false /\
                config_present h1 = true /\ loading h1 = 0%nat /\
                restartAttemptRef h1 = S (restartAttemptRef h) /\
                next_recognizer h1 = next_recognizer h /\
                error h1 = Some "Service unavailable" /\
                restartTimeoutRef h1 = Some (Timers.next_handle (timers h)) /\
                Timers.pending (timers h1)
                = [{| Timers.handle := Timers.next_handle (timers h);
                      Timers.due := t + restart_delay service
                                          (S (restartAttemptRef h));
                      Timers.closure := tt |}]).
  { rewrite H1. unfold scheduleRestart.
    cbn [set_status manuallyStoppedRef enabledRef restartTimeoutRef].
    rewrite He, Hm, Hr. simpl. rewrite Hp. repeat split; assumption. }
  clearbody h1. clear H1.
  destruct H1' as (He1 & Hm1 & Hc1 & Hl1 & Ha1 & Hn1 & Herr1 & Hr1 & Hp1).
  assert (Hadv : advance (t + 30000) h1
                 = restart_elapsed
                     (set_timers
                        (Timers.clearTimeout (Timers.next_handle (timers h))
                           (timers h1)) h1)).
  { unfold advance. rewrite Hp1. cbn [List.length fire_due].
    unfold Timers.next_due. rewrite Hp1. cbn [find]. unfold Timers.is_due.
    cbn [Timers.due].
    assert (Hd : (t + restart_delay service (S (restartAttemptRef h))
                  <=? t + 30000) = true) by (apply Z.leb_le; lia).
    rewrite Hd. reflexivity. }
  rewrite Hadv. unfold restart_elapsed.
  match goal with |- context [startRecognition ?x] => set (k := x) end.
  destruct (startRecognition_running k) as
    (He2 & Hm2 & Hc2 & Hr2 & Ht2 & Hl2 & Ha2 & Hn2 & Herr2);
    try assumption; try reflexivity.
  destruct (sdk_loaded_ok (t + 30000) (startRecognition k) (loading k) Hl2)
    as (He3 & Hm3 & Hc3 & Hr3 & Ht3 & Hl3 & Ha3 & Hn3 & Herr3).
  split; [constructor|]; try congruence.
  - rewrite Ht3, Ht2. unfold k. cbn [timers set_timers]. unfold Timers.clearTimeout.
    cbn [Timers.pending]. rewrite Hp1. cbn [filter Timers.handle].
    rewrite Nat.eqb_refl. reflexivity.
  - rewrite Hl3. unfold k. cbn [loading set_timers]. exact Hl1.
  - rewrite Ha3, Ha2, Hn3, Hn2, Herr3, Herr2. unfold k.
    cbn [restartAttemptRef next_recognizer error set_timers].
    repeat split; congruence.
Qed.

(** X17. The hook never gives up on a service that keeps failing: from a
    hook that is running, after [n] rounds in which the recogniser is
    cancelled with a service error and the restart timer elapses, the hook
    has made [n] more attempts and created [n] more recognisers, and it is
    running again, ready for the next round; the error it shows is the
    service's. There is no [n] after which it stops. *)
Theorem retries_without_end (n : nat) (t : Z) (h : hook) :
  running h ->
  let h' := run (failing_service n t) h in
  running h' /\
  restartAttemptRef h' = (restartAttemptRef h + n)%nat /\
  next_recognizer h' = (next_recognizer h + n)%nat.
Proof.
  cbv zeta. revert t h. induction n as [|n IH]; intros t h Hh.
  - simpl. rewrite !Nat.add_0_r. repeat split; try apply Hh.
  - cbn [failing_service].
    change (run (?a :: ?b :: ?rest) h) with (run rest (run [a; b] h)).
    destruct (failing_round t h Hh) as (Hh1 & Ha1 & Hn1 & _).
    destruct (IH (t + 40000) _ Hh1) as (Hh2 & Ha2 & Hn2).
    split; [exact Hh2|]. rewrite Ha2, Hn2, Ha1, Hn1. split; lia.
Qed.

Lemma running_in_session : running in_session.
Proof. constructor; reflexivity. Qed.

Lemma retries_without_end_witness :
  restartAttemptRef (run (failing_service 25 1000) in_session) = 25%nat /\
  next_recognizer (run (failing_service 25 1000) in_session) = 26%nat.
Proof.
  destruct (retries_without_end 25 1000 in_session running_in_session)
    as (_ & Ha & Hn).
  split; [exact Ha | exact Hn].
Defined.

(** X18. The backoff starts over with every session that begins:
    [sessionStarted] puts the attempt counter back to zero, so the first
    failure after it, whatever its details and however many failures came
    before, is retried after exactly 2000 ms, and an ordinary end of the
    session after 1000 ms. *)
Theorem backoff_starts_over (details : string) (now : Z) (h : hook) :
  running h ->
  Timers.pending (timers (canceled Error details now (sessionStarted h)))
  = [{| Timers.handle := Timers.next_handle (timers h);
        Timers.due := now + 2000; Timers.closure := tt |}] /\
  Timers.pending (timers (sessionStopped now (sessionStarted h)))
  = [{| Timers.handle := Timers.next_handle (timers h);
        Timers.due := now + 1000; Timers.closure := tt |}] /\
  restartAttemptRef (canceled Error details now (sessionStarted h)) = 1%nat.
Proof.
  intros [He Hm Hc Hr Hp Hl].
  unfold canceled, sessionStopped, sessionStarted.
  cbn [set_status manuallyStoppedRef enabledRef].
  rewrite Hm, He. cbn [negb orb].
  unfold scheduleRestart.
  cbn [set_status manuallyStoppedRef enabledRef restartTimeoutRef].
  destruct (text_includes _ _ || text_includes _ _);
    rewrite ?He, ?Hm, ?Hr; simpl; rewrite Hp; repeat split.
Qed.

Lemma backoff_starts_over_witness :
  let failed_often := run (failing_service 6 1000) in_session in
  restartAttemptRef failed_often = 6%nat /\
  map Timers.due
    (Timers.pending
       (timers (canceled Error "Connection lost" 500000
                  (sessionStarted failed_often))))
  = [502000].
Proof.
  cbv zeta. split; [reflexivity|].
  destruct (backoff_starts_over "Connection lost" 500000
              (run (failing_service 6 1000) in_session)) as (H & _).
  - constructor; reflexivity.
  - rewrite H. reflexivity.
Defined.

End AzureSpeechRunsFacts.

Module TextInterviewFacts.

Import VoiceInterview.
Import TextInterview.

(** *** The clock display *)

Lemma two_digits (r : nat) :
  (r < 60)%nat ->
  option_map (padStart 2 "0") (toString (Z.of_nat r))
  = Some (String (digit (Z.of_nat r / 10))
            (String (digit (Z.of_nat r mod 10)) "")).
Proof.
  intros H.
  do 60 (destruct r as [|r]; [vm_compute; reflexivity|]).
  lia.
Qed.

(** X19. For every whole number of seconds from zero up to the largest
    safe integer, the clock shows the minutes as they are written in
    decimal (not padded, and not wrapped at sixty), a colon, and the
    seconds of the minute as exactly two digits: 480 is shown as 8:00. *)
Theorem formatTime_minutes_and_seconds (seconds : Z) :
  0 <= seconds <= MAX_SAFE_INTEGER ->
  formatTime seconds
  = Some (NilZero.string_of_int (Z.to_int (seconds / 60)) ++ ":"
          ++ String (digit (seconds mod 60 / 10))
               (String (digit (seconds mod 60 mod 10)) ""))%string /\
  0 <= seconds mod 60 / 10 <= 5 /\ 0 <= seconds mod 60 mod 10 <= 9.
Proof.
  intros H. unfold formatTime.
  assert (Hmax : MAX_SAFE_INTEGER = 9007199254740991) by reflexivity.
  assert (Hsafe : forall n, 0 <= n <= seconds -> is_safe n = true).
  { intros n Hn. unfold is_safe. apply andb_true_iff.
    split; apply Z.leb_le; lia. }
  rewrite (Hsafe seconds) by lia.
  rewrite Z.rem_mod_nonneg by lia.
  assert (Hr : 0 <= seconds mod 60 < 60) by (apply Z.mod_pos_bound; lia).
  assert (Hq : 0 <= seconds / 60 <= seconds).
  { split; [apply Z.div_pos; lia|].
    apply Z.div_le_upper_bound; lia. }
  split.
  - unfold toString at 1. rewrite (Hsafe (seconds / 60) Hq).
    pose proof (two_digits (Z.to_nat (seconds mod 60))) as Htwo.
    rewrite Z2Nat.id in Htwo by lia.
    destruct (toString (seconds mod 60)) as [secs|]; cbn [option_map] in Htwo.
    + injection Htwo as ->; [|lia]. reflexivity.
    + assert (Hlt : (Z.to_nat (seconds mod 60) < 60)%nat) by lia.
      specialize (Htwo Hlt). discriminate.
  - split.
    + split; [apply Z.div_pos; lia|].
      apply Z.lt_succ_r. apply Z.div_lt_upper_bound; lia.
    + pose proof (Z.mod_pos_bound (seconds mod 60) 10). lia.
Qed.

Lemma formatTime_minutes_and_seconds_witness :
  formatTime 480 = Some "8:00" /\ formatTime 59 = Some "0:59" /\
  formatTime 3725 = Some "62:05" /\
  formatTime 0
  = Some (NilZero.string_of_int (Z.to_int (0 / 60)) ++ ":"
          ++ String (digit (0 mod 60 / 10))
               (String (digit (0 mod 60 mod 10)) ""))%string.
Proof.
  do 3 (split; [reflexivity|]).
  apply (formatTime_minutes_and_seconds 0). split; [lia | discriminate].
Defined.

(** *** The word counter *)

Lemma split_runs (s : string) :
  exists w ws,
    JS.split JS.space s = w :: ws /\
    runs true s = List.length (filter JS.truthy ws) /\
    runs false s = List.length (filter JS.truthy (w :: ws)).
Proof.
  induction s as [|c s (w & ws & Hs & Ht & Hf)]; cbn [JS.split runs].
  - exists "", []. repeat split.
  - destruct (Ascii.eqb c JS.space) eqn:Hc.
    + exists "", (JS.split JS.space s). rewrite Hs, Hf. repeat split.
    + rewrite Hs. exists (String c w), ws. rewrite Ht. repeat split.
Qed.

(** X20. The word counter under the answer box counts the runs of
    characters other than the space: spaces in a row, or at either end, add
    nothing, an answer of spaces alone counts zero words; only the space
    separates words, so a tab or a line break inside a run does not start a
    new word. *)
Theorem word_count_counts_runs (answer : string) :
  word_count answer = runs false answer /\
  (forall a b, word_count (a ++ " " ++ b) = (word_count a + word_count b)%nat) /\
  word_count "" = 0%nat.
Proof.
  assert (H : forall s, word_count s = runs false s).
  { intros s. destruct (split_runs s) as (w & ws & Hs & _ & Hf).
    unfold word_count. rewrite Hs, Hf. reflexivity. }
  split; [apply H|]. split; [|reflexivity].
  intros a b. rewrite !H. clear H.
  assert (Hgen : forall i,
            runs i (a ++ " " ++ b) = (runs i a + runs false b)%nat).
  { induction a as [|c a IH]; intros i.
    - reflexivity.
    - change (String c a ++ " " ++ b)%string
        with (String c (a ++ " " ++ b)%string).
      cbn [runs]. destruct (Ascii.eqb c JS.space); rewrite IH;
        destruct i; lia. }
  apply Hgen.
Qed.

(** *** The answer box *)

(** X21. [sendAnswer] sends nothing for an answer of white space alone or
    without a socket, and leaves the box as it is. Otherwise, on an open
    socket it sends one [text] message carrying the answer trimmed, and
    empties the box; on a socket that is still connecting [send] throws,
    the exception leaves the handler and the answer stays in the box; on a
    socket that is closing or closed nothing is sent and the box is emptied
    all the same. Whatever is typed and submitted, everything on the socket
    is an answer with something to say and no white space at either end. *)
Theorem sendAnswer_effect (f : form) (tr : list form_event) :
  (JS.all_white (answer f) = true \/ ws f = None -> sendAnswer f = f) /\
  (JS.all_white (answer f) = false -> ws f = Some Socket ->
   match readyState (net f) with
   | OPEN =>
       sent (net (sendAnswer f))
       = sent (net f) ++ [text_answer (JS.trim (answer f))]
       /\ answer (sendAnswer f) = "" /\ uncaught (sendAnswer f) = uncaught f
   | CONNECTING =>
       sent (net (sendAnswer f)) = sent (net f)
       /\ answer (sendAnswer f) = answer f
       /\ uncaught (sendAnswer f) = uncaught f ++ [InvalidStateError]
   | _ =>
       sent (net (sendAnswer f)) = sent (net f)
       /\ answer (sendAnswer f) = "" /\ uncaught (sendAnswer f) = uncaught f
   end) /\
  (forallb is_answer (sent (net f)) = true ->
   forallb is_answer (sent (net (fold_left form_step tr f))) = true).
Proof.
  split; [|split].
  - unfold sendAnswer, JS.truthy. rewrite JSFacts.trim_empty.
    intros [H|H]; [rewrite H; reflexivity|].
    rewrite H. destruct (negb _); reflexivity.
  - intros Hw Hs. unfold sendAnswer, JS.truthy.
    rewrite JSFacts.trim_empty, Hw, Hs. cbn [negb]. unfold ws_send.
    destruct (readyState (net f)); simpl; repeat split.
  - revert f. induction tr as [|e tr IH]; intros f Hf; [exact Hf|].
    cbn [fold_left]. apply IH. destruct e; simpl; [exact Hf|].
    unfold sendAnswer.
    destruct (JS.truthy (JS.trim (answer f))) eqn:Ht; [|exact Hf].
    destruct (ws f); [|exact Hf]. unfold ws_send.
    destruct (readyState (net f)); simpl; try exact Hf.
    rewrite forallb_app, Hf. simpl.
    rewrite Ht, TrimFacts.trim_idempotent, String.eqb_refl. reflexivity.
Qed.

Lemma sendAnswer_effect_witness :
  let f := {| answer := "  I led a team of five.  "; ws := Some Socket;
              net := {| readyState := OPEN; sent := [] |}; uncaught := [] |} in
  sent (net (sendAnswer f)) = [text_answer "I led a team of five."] /\
  forallb is_answer
    (sent (net (fold_left form_step [Submit; Typing "   "; Submit; Typing " ok ";
                                     Submit] f))) = true.
Proof.
  cbv zeta. split; [reflexivity|].
  apply (sendAnswer_effect
           {| answer := "  I led a team of five.  "; ws := Some Socket;
              net := {| readyState := OPEN; sent := [] |}; uncaught := [] |}).
  reflexivity.
Defined.

(** *** The countdown *)

Lemma counted_nonneg (tr : list clock_event) :
  forall s, 0 <= counted s tr.
Proof.
  induction tr as [|[s'|] tr IH]; intros s; simpl; [lia | apply IH |].
  specialize (IH s). destruct (is_active s); lia.
Qed.

Lemma alike_step (a b : clock) (e : clock_event) :
  alike a b ->
  alike (clock_step tick a e) (clock_step tick_max b e) /\
  match e with
  | SetStatus s =>
      status (clock_step tick a e) = s /\
      timeRemaining (clock_step tick a e) = timeRemaining a
  | Tick =>
      status (clock_step tick a e) = status a /\
      timeRemaining (clock_step tick a e)
      = Z.max 0 (timeRemaining a - (if is_active (status a) then 1 else 0))
  end.
Proof.
  destruct a as [sa ta ia], b as [sb tb ib]. unfold alike. simpl.
  intros (Hs & Ht & Hpos & Hib & Hia). subst sb tb ib.
  destruct e as [s|]; simpl.
  - unfold setStatus. simpl.
    destruct s, sa; simpl in *; repeat split; auto; try lia;
      destruct Hia as [->|[-> ->]]; auto.
  - unfold tick, tick_max. simpl.
    destruct Hia as [->|[-> ->]]; destruct sa; simpl;
      try (destruct (ta <=? 0) eqn:E;
           [apply Z.leb_le in E | apply Z.leb_gt in E]); simpl;
      repeat split; auto; try lia.
Qed.

Lemma countdown_from (tr : list clock_event) :
  forall a b : clock,
  alike a b ->
  timeRemaining (clock_run tick tr a)
  = Z.max 0 (timeRemaining a - counted (status a) tr) /\
  alike (clock_run tick tr a) (clock_run tick_max tr b).
Proof.
  induction tr as [|e tr IH]; intros a b Hab.
  - simpl. split; [|exact Hab].
    destruct Hab as (_ & _ & Hpos & _). lia.
  - change (clock_run tick (e :: tr) a)
      with (clock_run tick tr (clock_step tick a e)).
    change (clock_run tick_max (e :: tr) b)
      with (clock_run tick_max tr (clock_step tick_max b e)).
    destruct (alike_step a b e Hab) as [Hab' He].
    destruct (IH _ _ Hab') as [Ht Hal]. split; [|exact Hal].
    rewrite Ht. destruct e as [s|]; destruct He as [Hs' Ht'];
      rewrite Hs', Ht'; cbn [counted]; [reflexivity|].
    pose proof (counted_nonneg tr (status a)).
    destruct (is_active (status a)); lia.
Qed.

(** X22. The countdown of the typed interview starts at 480 seconds and
    loses one second for every tick of the interval that comes while the
    status is [active], and none otherwise; it stops at zero and is never
    negative. The two versions of the page ([if (prev <= 0) ... clearInterval]
    and [Math.max(0, prev - 1)]) show the same time after the same events. *)
Theorem countdown_stops_at_zero (tr : list clock_event) :
  let first := clock_run tick tr initial_clock in
  let second := clock_run tick_max tr initial_clock in
  timeRemaining first = Z.max 0 (480 - counted connecting tr) /\
  timeRemaining second = timeRemaining first /\
  status second = status first /\
  0 <= timeRemaining first <= 480.
Proof.
  cbv zeta.
  destruct (countdown_from tr initial_clock initial_clock)
    as (H1 & H2 & H3 & _).
  { unfold alike. simpl. repeat split; auto. lia. }
  change (timeRemaining initial_clock) with 480 in H1.
  change (status initial_clock) with connecting in H1.
  pose proof (counted_nonneg tr connecting).
  rewrite <- H3, <- H2, H1. repeat split; try reflexivity; lia.
Qed.

End TextInterviewFacts.

Module AzureTranscriptsFacts.

Import AzureSpeech.
Import AzureTranscripts.

Lemma result_text_tidy (text : option string) :
  JS.truthy (result_text text) = true ->
  JS.truthy (result_text text)
  && String.eqb (JS.trim (result_text text)) (result_text text) = true.
Proof.
  intros H. rewrite H. destruct text as [t|]; simpl in *; [|discriminate].
  rewrite TrimFacts.trim_idempotent, String.eqb_refl. reflexivity.
Qed.

Lemma deliver_tidy (e : result_event) (h : hook) :
  forallb tidy (snd (deliver e h)) = true /\
  finals (snd (deliver e h))
  = match phrase e with Some t => [t] | None => [] end.
Proof.
  destruct e as [text|reason text]; simpl.
  - unfold recognizing.
    destruct (JS.truthy (result_text text)) eqn:Ht; simpl;
      [|split; reflexivity].
    rewrite (result_text_tidy text Ht). split; reflexivity.
  - unfold recognized, result_text. cbn [snd phrase].
    destruct reason as [[| |]|]; try (split; reflexivity).
    destruct text as [t|]; [|split; reflexivity].
    assert (Hw : JS.all_white t = negb (JS.truthy (JS.trim t))).
    { unfold JS.truthy. rewrite JSFacts.trim_empty, negb_involutive.
      reflexivity. }
    rewrite Hw. destruct (JS.truthy (JS.trim t)) eqn:Ht;
      [|split; reflexivity].
    cbn [negb app forallb tidy finals final_text].
    rewrite Ht, TrimFacts.trim_idempotent, String.eqb_refl.
    split; reflexivity.
Qed.

Lemma finals_app (a b : list callback) :
  finals (a ++ b) = finals a ++ finals b.
Proof.
  induction a as [|c a IH]; simpl; [reflexivity|].
  destruct (final_text c); simpl; rewrite IH; reflexivity.
Qed.

(** X23. The page never receives a blank transcript from this hook:
    whatever the recogniser reports, every transcript handed to
    [onTranscript], interim or final, has something to say and no white
    space at either end; the final transcripts are the recognised phrases
    that have more than white space, trimmed, in the order they were
    recognised, each handed over once; results with another reason or
    without text hand over nothing. *)
Theorem transcripts_are_tidy (es : list result_event) (h : hook) :
  forallb tidy (delivered es h) = true /\
  finals (delivered es h) = phrases es.
Proof.
  revert h. induction es as [|e es IH]; intros h; [split; reflexivity|].
  cbn [delivered phrases].
  destruct (deliver_tidy e h) as [Ht Hf].
  destruct (IH (fst (deliver e h))) as [Ht' Hf'].
  rewrite forallb_app, Ht, Ht', finals_app, Hf, Hf'.
  split; [reflexivity|]. destruct (phrase e); reflexivity.
Qed.

End AzureTranscriptsFacts.

Module BrowserCheckFacts.

Import BrowserCheck.

(** X24. [checkBrowserSupport] says the browser is supported exactly
    when all four capabilities are there (speech recognition and the audio
    context under either name, the media devices with [getUserMedia], the
    media recorder), and lists one issue per capability that is missing.
    [getBrowserName] looks for "Edg" before anything else, then for
    "Chrome", "Firefox" and "Safari" in this order: a user agent that names
    several is called by the first of these it names. *)
Theorem browser_check (w : platform) :
  fst (checkBrowserSupport w) = forallb (fun c => c) (capabilities w) /\
  List.length (snd (checkBrowserSupport w))
  = List.length (filter negb (capabilities w)) /\
  getBrowserName w
  = (if includes (userAgent w) "Edg" then "Edge"
     else if includes (userAgent w) "Chrome" then "Chrome"
     else if includes (userAgent w) "Firefox" then "Firefox"
     else if includes (userAgent w) "Safari" then "Safari"
     else "Unknown").
Proof.
  split; [|split].
  - unfold checkBrowserSupport, capabilities, push_if. cbv zeta. simpl.
    destruct (SpeechRecognition w), (webkitSpeechRecognition w),
      (mediaDevices w), (getUserMedia w), (AudioContext w),
      (webkitAudioContext w), (MediaRecorder w); reflexivity.
  - unfold checkBrowserSupport, capabilities, push_if. cbv zeta. simpl.
    destruct (SpeechRecognition w), (webkitSpeechRecognition w),
      (mediaDevices w), (getUserMedia w), (AudioContext w),
      (webkitAudioContext w), (MediaRecorder w); reflexivity.
  - unfold getBrowserName. cbv zeta.
    destruct (includes (userAgent w) "Edg"),
      (includes (userAgent w) "Chrome"),
      (includes (userAgent w) "Firefox"),
      (includes (userAgent w) "Safari"); reflexivity.
Qed.

Lemma browser_names_of_real_agents :
  getBrowserName
    (with_agent "Mozilla/5.0 (Windows NT 10.0; Win64; x64) AppleWebKit/537.36 (KHTML, like Gecko) Chrome/120.0.0.0 Safari/537.36")
  = "Chrome" /\
  getBrowserName
    (with_agent "Mozilla/5.0 (Windows NT 10.0; Win64; x64) AppleWebKit/537.36 (KHTML, like Gecko) Chrome/120.0.0.0 Safari/537.36 Edg/120.0.0.0")
  = "Edge" /\
  getBrowserName
    (with_agent "Mozilla/5.0 (Windows NT 10.0; Win64; x64; rv:121.0) Gecko/20100101 Firefox/121.0")
  = "Firefox" /\
  getBrowserName
    (with_agent "Mozilla/5.0 (Macintosh; Intel Mac OS X 10_15_7) AppleWebKit/605.1.15 (KHTML, like Gecko) Version/17.1 Safari/605.1.15")
  = "Safari".
Proof. vm_compute. repeat split. Qed.

End BrowserCheckFacts.

Module MicrophoneRecorderFacts.

Import MicrophoneRecorder.

Lemma sum_bounds (d : list Z) :
  forallb is_byte d = true ->
  forall acc, acc <= fold_left Z.add d acc
              <= acc + 255 * Z.of_nat (List.length d).
Proof.
  induction d as [|b d IH]; intros Hd acc; simpl fold_left.
  - simpl. lia.
  - simpl in Hd. apply andb_true_iff in Hd as [Hb Hd].
    unfold is_byte in Hb. apply andb_true_iff in Hb as [H0 H255].
    apply Z.leb_le in H0, H255.
    specialize (IH Hd (acc + b)).
    change (List.length (b :: d)) with (S (List.length d)).
    rewrite Nat2Z.inj_succ. lia.
Qed.

Lemma average_in_range (d : list Z) :
  bins d = true ->
  exists level, average d = Ok level /\ in_range level = true /\
    (level == inject_Z (fold_left Z.add d 0%Z) / 128)%Q.
Proof.
  unfold bins. intros H. apply andb_true_iff in H as [Hlen Hd].
  apply Nat.eqb_eq in Hlen.
  destruct d as [|a rest]; [discriminate|].
  unfold average, reduce_sum. cbn [bind]. eexists. split; [reflexivity|].
  rewrite Hlen.
  pose proof (sum_bounds (a :: rest) Hd 0) as Hs. rewrite Hlen in Hs.
  cbn [fold_left] in Hs. rewrite Z.add_0_l in Hs.
  cbn [fold_left]. rewrite Z.add_0_l.
  set (s := fold_left Z.add rest a) in *.
  split; [|apply Qeq_refl].
  unfold in_range. apply andb_true_iff. split; apply Qle_bool_iff;
    unfold Qle, Qdiv, Qmult, Qinv, inject_Z; simpl; lia.
Qed.

Lemma update_levels (d : list Z) (r : recorder) :
  bins d = true -> forallb in_range (levels r) = true ->
  forallb in_range (levels (update d r)) = true.
Proof.
  intros Hd Hr. unfold update. destruct (negb (analyser r)); [exact Hr|].
  destruct (average_in_range d Hd) as (level & -> & Hl & _). simpl.
  destruct (onLevelChange r); [|exact Hr].
  rewrite forallb_app, Hr. simpl. rewrite Hl. reflexivity.
Qed.

Lemma one_loop_update (d : list Z) (r : recorder) :
  bins d = true -> pending_frames r = [] -> next_frame r <> 0%nat ->
  one_loop (update d r) /\ next_frame (update d r) <> 0%nat.
Proof.
  intros Hd Hp Hn. unfold update, one_loop.
  destruct (negb (analyser r)); [split; [left; exact Hp | exact Hn]|].
  destruct (average_in_range d Hd) as (level & -> & _). simpl.
  rewrite Hp. split; [right; split; [reflexivity | exact Hn] | discriminate].
Qed.

Lemma monitoring_step (r : recorder) (e : event) :
  monitoring e = true ->
  one_loop r -> next_frame r <> 0%nat ->
  forallb in_range (levels r) = true ->
  one_loop (step r e) /\ next_frame (step r e) <> 0%nat /\
  forallb in_range (levels (step r e)) = true /\
  (pending_frames r = [] -> levels (step r e) = levels r
                            /\ pending_frames (step r e) = []).
Proof.
  intros He Hr Hn Hl. destruct e as [d| |d|]; simpl in He; try discriminate.
  - simpl. repeat split; auto.
  - simpl. unfold frame.
    destruct Hr as [Hp|[Hp Ha]]; rewrite Hp.
    + repeat split; auto. left. exact Hp.
    + match goal with |- context [update d ?x] =>
        destruct (one_loop_update d x He eq_refl Hn) as [H1 H2];
        pose proof (update_levels d x He Hl) as H3
      end.
      repeat split; auto; discriminate.
Qed.

Lemma monitoring_run (tr : list event) :
  forall r,
  forallb monitoring tr = true ->
  one_loop r -> next_frame r <> 0%nat ->
  forallb in_range (levels r) = true ->
  one_loop (run tr r) /\ next_frame (run tr r) <> 0%nat /\
  forallb in_range (levels (run tr r)) = true /\
  (pending_frames r = [] -> levels (run tr r) = levels r
                            /\ pending_frames (run tr r) = []).
Proof.
  induction tr as [|e tr IH]; intros r Hall Hr Hn Hl.
  - repeat split; auto.
  - simpl in Hall. apply andb_true_iff in Hall as [He Htr].
    destruct (monitoring_step r e He Hr Hn Hl) as (H1 & H2 & H3 & H4).
    change (run (e :: tr) r) with (run tr (step r e)).
    destruct (IH (step r e) Htr H1 H2 H3) as (H5 & H6 & H7 & H8).
    split; [exact H5|]. split; [exact H6|]. split; [exact H7|].
    intros Hp. destruct (H4 Hp) as [Hlev Hpend].
    destruct (H8 Hpend) as [Hlev' Hpend']. split; congruence.
Qed.

Lemma initialize_loop (d : list Z) :
  bins d = true ->
  one_loop (initialize d new_recorder) /\
  next_frame (initialize d new_recorder) <> 0%nat /\
  forallb in_range (levels (initialize d new_recorder)) = true.
Proof.
  intros Hd. unfold initialize, new_recorder.
  cbn [animationFrame onLevelChange pending_frames next_frame levels uncaught].
  match goal with |- context [update d ?x] =>
    destruct (one_loop_update d x Hd eq_refl) as [H1 H2];
    [discriminate|];
    pose proof (update_levels d x Hd eq_refl) as H3
  end.
  repeat split; assumption.
Qed.

Lemma average_mean (d : list Z) :
  bins d = true -> average d = Ok (mean d).
Proof.
  unfold bins. intros H. apply andb_true_iff in H as [Hlen _].
  apply Nat.eqb_eq in Hlen.
  destruct d as [|a rest]; [discriminate|].
  unfold average, reduce_sum, mean. cbn [bind]. rewrite Hlen. reflexivity.
Qed.

Lemma looping_step (r : recorder) (e : event) :
  monitoring e = true -> looping r ->
  looping (step r e) /\
  onLevelChange (step r e)
  = match e with SetHandler => true | _ => onLevelChange r end /\
  levels (step r e)
  = levels r ++ map mean (match e with
                          | Frame d => if onLevelChange r then [d] else []
                          | _ => []
                          end).
Proof.
  intros He [Ha (f & Hp)]. destruct e as [d| |d|]; simpl in He;
    try discriminate.
  - simpl. rewrite app_nil_r. repeat split; try assumption.
    exists f. exact Hp.
  - cbn [step]. unfold frame. rewrite Hp. unfold update.
    cbn [analyser]. rewrite Ha. cbn [negb].
    rewrite (average_mean d He).
    cbn [analyser pending_frames onLevelChange levels app].
    split; [split; [reflexivity | eexists; reflexivity]|].
    split; [reflexivity|].
    cbn [levels]. destruct (onLevelChange r); [reflexivity|].
    cbn [map]. rewrite app_nil_r. reflexivity.
Qed.

Lemma looping_run (tr : list event) :
  forall r,
  forallb monitoring tr = true -> looping r ->
  looping (run tr r) /\
  levels (run tr r) = levels r ++ map mean (reported (onLevelChange r) tr).
Proof.
  induction tr as [|e tr IH]; intros r Hall Hr.
  - simpl. rewrite app_nil_r. split; [exact Hr | reflexivity].
  - cbn [forallb] in Hall. apply andb_true_iff in Hall as [He Htr].
    destruct (looping_step r e He Hr) as (H1 & H2 & H3).
    change (run (e :: tr) r) with (run tr (step r e)).
    destruct (IH (step r e) Htr H1) as [H4 H5].
    split; [exact H4|]. rewrite H5, H3, H2.
    destruct e as [d| |d|]; simpl in He; try discriminate.
    + cbn [reported map]. rewrite app_nil_r. reflexivity.
    + cbn [reported]. rewrite map_app, app_assoc. reflexivity.
Qed.

Lemma initialize_looping (d : list Z) :
  bins d = true ->
  looping (initialize d new_recorder) /\
  levels (initialize d new_recorder) = [] /\
  onLevelChange (initialize d new_recorder) = false.
Proof.
  intros Hd. unfold initialize, update, new_recorder. cbn [analyser negb].
  rewrite (average_mean d Hd).
  cbn [analyser pending_frames onLevelChange levels app].
  split; [split; [reflexivity | eexists; reflexivity]|].
  split; reflexivity.
Qed.

Lemma meter_run_app (a b : list event) (r : recorder) :
  run (a ++ b) r = run b (run a r).
Proof. unfold run. apply fold_left_app. Qed.

(** X25. The microphone meter: once initialised, with the analyser's 128
    bins of one byte each, the levels the recorder reports are exactly the
    means of the bins of the frames that ran while a handler was set, one
    level per frame and in their order, each between 0 and 255; the
    reading [initialize] takes itself comes before the page has set its
    handler and is not reported. One frame at most is pending at any time;
    [stop] cancels it, so that after [stop] no level is ever reported
    again, whatever frames the platform still runs. *)
Theorem meter_stops (d : list Z) (before after : list event) :
  bins d = true ->
  forallb monitoring before = true -> forallb monitoring after = true ->
  let r := run before (initialize d new_recorder) in
  levels (run after r) = map mean (reported false (before ++ after)) /\
  forallb in_range (levels (run after r)) = true /\
  (List.length (pending_frames r) <= 1)%nat /\
  levels (run after (stop r)) = levels r /\
  pending_frames (run after (stop r)) = [].
Proof.
  intros Hd Hb Ha. cbv zeta.
  destruct (initialize_looping d Hd) as (Hloop & Hlev0 & Hh0).
  assert (Hba : forallb monitoring (before ++ after) = true)
    by (rewrite forallb_app, Hb, Ha; reflexivity).
  destruct (looping_run (before ++ after) _ Hba Hloop) as [_ Hlevels].
  rewrite meter_run_app, Hlev0, Hh0 in Hlevels. cbn [app] in Hlevels.
  split; [exact Hlevels|].
  destruct (initialize_loop d Hd) as (H1 & H2 & H3).
  destruct (monitoring_run before _ Hb H1 H2 H3)
    as (H4 & H5 & H6 & _).
  set (r := run before (initialize d new_recorder)) in *.
  destruct (monitoring_run after r Ha H4 H5 H6)
    as (_ & _ & H7 & _).
  assert (Hstop : pending_frames (stop r) = []).
  { unfold stop. simpl. destruct H4 as [Hp|[Hp Hne]]; rewrite Hp.
    - destruct (animationFrame r); reflexivity.
    - destruct (animationFrame r) as [|n] eqn:Hn; [contradiction|].
      simpl. rewrite Nat.eqb_refl. reflexivity. }
  destruct (monitoring_run after (stop r) Ha
              (or_introl Hstop) H5 H6) as (_ & _ & _ & Hlev).
  destruct (Hlev Hstop) as [Hlevels' Hpending].
  split; [exact H7|]. split.
  - destruct H4 as [Hp|[Hp _]]; rewrite Hp; simpl; lia.
  - split; [exact Hlevels' | exact Hpending].
Qed.

Lemma meter_stops_witness :
  bins loud = true /\
  map Qred
    (levels (run [Frame silence; SetHandler; Frame loud; Frame silence]
               (initialize loud new_recorder)))
  = [255; 0]%Q /\
  levels (run [Frame silence; SetHandler; Frame loud; Frame silence]
            (initialize loud new_recorder))
  = levels (run [Frame silence; SetHandler; Frame loud; Frame silence; Stop;
                 Frame loud; Frame loud] (initialize loud new_recorder)).
Proof.
  split; [reflexivity|]. split; [vm_compute; reflexivity|].
  destruct (meter_stops loud [Frame silence; SetHandler; Frame loud; Frame silence]
              [Frame loud; Frame loud] eq_refl eq_refl eq_refl)
    as (_ & _ & _ & H & _).
  symmetry. exact H.
Defined.

End MicrophoneRecorderFacts.

Module VideoRecorderFacts.

Import InterviewPage.
Import VideoRecorder.

Lemma blob_size_app (a : list Z) (x : Z) :
  blob_size (a ++ [x]) = blob_size a + x.
Proof. unfold blob_size. rewrite fold_left_app. reflexivity. Qed.

Lemma stamp_within (start now stop : Z) (e : TimelineEvent) :
  start <= now <= stop ->
  timestamp e = (inject_Z (now - start) / 1000)%Q ->
  within ((stop - start) / 1000) e = true.
Proof.
  intros H He. unfold within. rewrite He.
  apply andb_true_iff. split.
  - apply Qle_bool_iff. unfold Qle, Qdiv, Qmult, Qinv, inject_Z. simpl. lia.
  - apply negb_true_iff. apply not_true_iff_false. intros Hle.
    apply Qle_bool_iff in Hle.
    unfold Qle, Qdiv, Qmult, Qinv, inject_Z in Hle. simpl in Hle.
    pose proof (Z.mul_succ_div_gt (stop - start) 1000). lia.
Qed.

Lemma recording_run (start stop : Z) (tr : list event) :
  forall h,
  forallb (during start stop) tr = true -> startTimeRef h = start ->
  forallb (within ((stop - start) / 1000)) (timelineRef h) = true ->
  startTimeRef (run tr h) = start /\
  mediaRecorderRef (run tr h) = mediaRecorderRef h /\
  forallb (within ((stop - start) / 1000)) (timelineRef (run tr h)) = true /\
  blob_size (chunksRef (run tr h)) = blob_size (chunksRef h) + delivered tr.
Proof.
  induction tr as [|e tr IH]; intros h Hall Hs Hw.
  - simpl. repeat split; auto. lia.
  - simpl in Hall. apply andb_true_iff in Hall as [He Htr].
    change (run (e :: tr) h) with (run tr (step h e)).
    destruct e as [size|now type data severity]; cbn [step delivered].
    + unfold ondataavailable. simpl in He. apply Z.leb_le in He.
      destruct (0 <? size) eqn:E; cbv iota.
      * match goal with |- context [run tr ?x] =>
          destruct (IH x Htr Hs Hw) as (H1 & H2 & H3 & H4)
        end.
        rewrite H4. cbn [chunksRef]. rewrite blob_size_app.
        repeat split; auto. lia.
      * apply Z.ltb_ge in E. assert (size = 0) by lia. subst size.
        destruct (IH h Htr Hs Hw) as (H1 & H2 & H3 & H4).
        rewrite H4. repeat split; auto.
    + simpl in He. apply andb_true_iff in He as [Hlo Hhi].
      apply Z.leb_le in Hlo, Hhi.
      destruct (IH (logEvent now type data severity h) Htr Hs)
        as (H1 & H2 & H3 & H4).
      * cbn [logEvent timelineRef]. rewrite forallb_app, Hw. cbn [forallb].
        rewrite (stamp_within start now stop); auto.
        cbn [timestamp]. rewrite Hs. reflexivity.
      * repeat split; auto.
Qed.

(** X26. What a recording hands to the upload: for a recording started at
    [start] and read at [stop], whatever the recorder delivers and whatever
    is logged in between, the blob [stopRecording] resolves with has the
    size of all that was delivered (empty blobs are left out, which changes
    nothing), and every event of the timeline is stamped at or after zero
    and less than one second past the whole seconds [getDuration] reports.
    Without a recorder [stopRecording] resolves with an empty blob. *)
Theorem recording_is_complete (start stop : Z) (tr : list event) :
  forallb (during start stop) tr = true ->
  let h := run tr (startRecording start initial) in
  snd (stopRecording h) = delivered tr /\
  isRecording (fst (stopRecording h)) = false /\
  forallb (within (getDuration stop h)) (timelineRef h) = true /\
  stopRecording initial = (initial, 0).
Proof.
  intros Hall. cbv zeta.
  destruct (recording_run start stop tr (startRecording start initial) Hall
              eq_refl eq_refl) as (H1 & H2 & H3 & H4).
  unfold stopRecording, getDuration. rewrite H2, H1. cbn [negb snd fst].
  rewrite H4. repeat split. exact H3.
Qed.

Lemma recording_is_complete_witness :
  forallb (during 1000 11900) a_recording = true /\
  snd (stopRecording (run a_recording (startRecording 1000 initial))) = 2400 /\
  getDuration 11900 (run a_recording (startRecording 1000 initial)) = 10 /\
  map timestamp
    (timelineRef (run a_recording (startRecording 1000 initial)))
  = [inject_Z 500 / 1000; inject_Z 9700 / 1000]%Q.
Proof.
  split; [reflexivity|]. split; [|split; reflexivity].
  apply (recording_is_complete 1000 11900 a_recording). reflexivity.
Defined.

End VideoRecorderFacts.

Module VoiceConnectionFacts.

Import VoiceInterview.
Import VoiceConnection.

Lemma no_player_logs_log (l : log_entry) (w : hook) :
  no_player_logs (log l w)
  = (no_player_logs w
     + match l with error_no_player => 1 | _ => 0 end)%nat.
Proof.
  unfold no_player_logs, log. cbn [console]. rewrite filter_app, length_app.
  destruct l; reflexivity.
Qed.

Lemma step_after_cleanup (w : hook) (e : event) :
  audioPlayerRef w = None -> shut (net w) = true ->
  audioPlayerRef (step w e) = None /\
  shut (net (step w e)) = true /\
  sent (net (step w e)) = sent (net w) /\
  no_player_logs (step w e)
  = (no_player_logs w + if is_audio e then 1 else 0)%nat.
Proof.
  intros Hp Ho.
  assert (Hclosed : forall ws, is_open ws w = false).
  { intros ws. unfold is_open. destruct ws; [|reflexivity].
    unfold shut in Ho. destruct (readyState (net w)); try reflexivity.
    discriminate. }
  destruct e as [|m|ws t|ws|ws]; cbn [step is_audio].
  - unfold onopen, shut in *. cbn [audioPlayerRef net readyState sent].
    rewrite Nat.add_0_r.
    destruct (readyState (net w)); try discriminate; repeat split;
      assumption.
  - destruct m; cbn [handleMessage];
      try (unfold updateState; cbn [audioPlayerRef net log];
           rewrite ?Nat.add_0_r; repeat split; try assumption;
           unfold no_player_logs; cbn [console log];
           rewrite ?filter_app, ?length_app; simpl; lia).
    cbn [audioPlayerRef log]. rewrite Hp.
    rewrite !no_player_logs_log. cbn [audioPlayerRef net log].
    repeat split; try assumption. lia.
  - unfold sendTranscript. rewrite Hclosed, Nat.add_0_r.
    repeat split; assumption.
  - unfold endInterview. rewrite Hclosed, Nat.add_0_r.
    repeat split; assumption.
  - unfold cleanup, ws_close, shut in *. cbn [audioPlayerRef net].
    rewrite Nat.add_0_r. destruct ws; cbn [readyState sent];
      repeat split; try assumption; try reflexivity.
    destruct (readyState (net w)); reflexivity || discriminate.
Qed.

Lemma run_after_cleanup (tr : list event) (w : hook) :
  audioPlayerRef w = None -> shut (net w) = true ->
  audioPlayerRef (run tr w) = None /\
  shut (net (run tr w)) = true /\
  sent (net (run tr w)) = sent (net w) /\
  no_player_logs (run tr w)
  = (no_player_logs w + List.length (filter is_audio tr))%nat.
Proof.
  revert w. induction tr as [|e tr IH]; intros w Hp Ho.
  - simpl. rewrite Nat.add_0_r. repeat split; assumption.
  - destruct (step_after_cleanup w e Hp Ho) as (H1 & H2 & H3 & H4).
    change (run (e :: tr) w) with (run tr (step w e)).
    destruct (IH (step w e) H1 H2) as (K1 & K2 & K3 & K4).
    rewrite K3, K4, H3, H4. repeat split; try assumption.
    cbn [filter]. destruct (is_audio e); simpl; lia.
Qed.

Lemma close_releases (played : list AudioPlayer.event) (in_browser : bool) :
  let p := AudioPlayer.run played (AudioPlayer.new_player in_browser) in
  AudioPlayer.closed (AudioPlayer.close p).
Proof.
  cbv zeta.
  set (p := AudioPlayer.run played (AudioPlayer.new_player in_browser)).
  unfold AudioPlayer.close, AudioPlayer.stopAll. simpl.
  destruct (AudioPlayer.audioContext p) eqn:Hc.
  - constructor; reflexivity.
  - constructor; simpl; auto.
    apply (AudioPlayerFacts.device_follows_context played in_browser).
    exact Hc.
Qed.

(** X27. [cleanup] is final. The player the hook held is closed (its
    audio device released, nothing audible) and forgotten, and the socket
    is closed when the closure of [cleanup] holds it. From then on, whatever
    arrives and whatever the page calls short of a new [connect], nothing is
    sent, no audio chunk reaches a player (each is answered by the log
    "No AudioPlayer instance!") and the socket is never open again. A
    [cleanup] whose closure holds no socket, as the one [onclose] calls,
    leaves the connection as it is. *)
Theorem cleanup_is_final (played : list AudioPlayer.event)
  (in_browser : bool) (w : hook) (tr : list event) :
  audioPlayerRef w
  = Some (AudioPlayer.run played (AudioPlayer.new_player in_browser)) ->
  let w' := run tr (cleanup (Some Socket) w) in
  (exists pl, released w = Some pl /\ AudioPlayer.closed pl
              /\ AudioPlayer.audible pl = []) /\
  audioPlayerRef w' = None /\
  sent (net w') = sent (net w) /\
  readyState (net w') <> OPEN /\
  no_player_logs w'
  = (no_player_logs w + List.length (filter is_audio tr))%nat /\
  net (cleanup None w) = net w.
Proof.
  intros Hpl. cbv zeta.
  destruct (run_after_cleanup tr (cleanup (Some Socket) w))
    as (H1 & H2 & H3 & H4).
  { reflexivity. }
  { unfold cleanup, ws_close, shut. simpl.
    destruct (readyState (net w)); reflexivity. }
  split; [|split; [|split; [|split; [|split]]]].
  - unfold released. rewrite Hpl. simpl. eexists. split; [reflexivity|].
    pose proof (close_releases played in_browser) as Hc. cbv zeta in Hc.
    split; [exact Hc|]. unfold AudioPlayer.audible.
    rewrite (AudioPlayer.closed_device _ Hc). reflexivity.
  - exact H1.
  - exact H3.
  - unfold shut in H2. intros Heq. rewrite Heq in H2. discriminate.
  - exact H4.
  - reflexivity.
Qed.

Lemma cleanup_is_final_witness :
  option_map audioPlayerRef (connect true (Some "jwt") unconnected)
  = Some (Some (AudioPlayer.run [] (AudioPlayer.new_player true))) /\
  sent (net (run [SendTranscript (Some Socket) "I led a team";
                  Message (msg_ai_audio "AAD/fw=="); EndInterview (Some Socket)]
               (cleanup (Some Socket) (onopen connecting)))) = [] /\
  sent (net (run [SendTranscript (Some Socket) "I led a team"]
               (cleanup None (onopen connecting))))
  = [response_complete "I led a team"].
Proof.
  split; [reflexivity|]. split; [|reflexivity].
  destruct (cleanup_is_final [] true (onopen connecting)
              [SendTranscript (Some Socket) "I led a team";
               Message (msg_ai_audio "AAD/fw=="); EndInterview (Some Socket)]
              eq_refl) as (_ & _ & H & _).
  exact H.
Defined.

End VoiceConnectionFacts.

Module AuthFacts.

Import Auth.

Lemma auth_step (w : world) (e : event) :
  (isAuthenticated w = true <-> user w <> None) ->
  (isAuthenticated (step w e) = true <-> user (step w e) <> None) /\
  (is_logout e = false -> token w = stored w ->
   token (step w e) = stored (step w e)).
Proof.
  intros H. destruct e as [[u|]| |t|]; simpl; split;
    try (intros _ Ht; assumption); try reflexivity;
    try discriminate; try exact H;
    try (split; [intros _; discriminate | reflexivity]);
    try (split; [discriminate | intros Hn; contradiction]).
Qed.

(** X28. The client's token and the stored one: from the start of a
    page, through any logins, token changes and changes of user, the token
    the API client holds is the one in [localStorage], and [isAuthenticated]
    is true exactly while the store has a user. [logout] of the store
    removes the stored token and the user, and leaves the client's token
    where it is: the requests that follow carry the same [Authorization]
    header as before. *)
Theorem logout_keeps_the_header (at_start : option string)
  (tr : list event) :
  let w := run tr (start at_start) in
  (isAuthenticated w = true <-> user w <> None) /\
  (existsb is_logout tr = false -> token w = stored w) /\
  authorization (logout w) = authorization w /\
  stored (logout w) = None /\ isAuthenticated (logout w) = false.
Proof.
  cbv zeta.
  assert (H : forall w,
            (isAuthenticated w = true <-> user w <> None) ->
            (isAuthenticated (run tr w) = true <-> user (run tr w) <> None)
            /\ (existsb is_logout tr = false -> token w = stored w ->
                token (run tr w) = stored (run tr w))).
  { induction tr as [|e tr IH]; intros w Hw; [split; auto|].
    destruct (auth_step w e Hw) as [H1 H2].
    change (run (e :: tr) w) with (run tr (step w e)).
    destruct (IH (step w e) H1) as [H3 H4]. split; [exact H3|].
    cbn [existsb]. intros Hno Ht. apply orb_false_iff in Hno as [He Htr].
    exact (H4 Htr (H2 He Ht)). }
  destruct (H (start at_start)) as [H1 H2].
  { simpl. split; [discriminate | intros Hn; contradiction]. }
  split; [exact H1|]. split; [|repeat split].
  intros Hno. exact (H2 Hno eq_refl).
Qed.

End AuthFacts.
